(** * image-service-mcp: the size cache, the error normaliser and the tool handlers

    A shallow embedding of the three variants of the server found in the
    repository:

    - [Cached]  the variant with the size cache (getCategories, getSizeCache,
                buildImageMetadataResponseText, uploadImage and six tools);
    - [Index]   src/index.ts, the variant with the inlined response
                normaliser (five tools);
    - [Basic]   the first variant (four tools, [response.json()] on success).

    JavaScript values are modelled by [JsValue]; strings are sequences of
    code units and [ascii] stands for a code unit below 256; numbers are
    integers (IEEE doubles are not modelled).  Handlers run in a small
    state-and-exception monad [M]: the state holds the module-level variables
    of the server and the trace of the calls made to the HTTP wrapper; what the
    network, the disk and the clock answer during one invocation is a [World].
    A response that [fetch] resolved with delivers its body. *)

From Stdlib Require Import ZArith String Ascii List Bool Lia.
From stdpp Require Import gmap strings list fin_maps pretty.

Open Scope string_scope.
Open Scope Z_scope.

(** ** Strings *)

Module Str.

(** The double quote, which a string literal cannot hold. *)
Definition dq : string := String "034"%char EmptyString.
Definition nl : string := String "010"%char EmptyString.
(** U+00D7, the multiplication sign of the size lines. *)
Definition times : string := String "215"%char EmptyString.
Definition backtick : string := String "096"%char EmptyString.
Definition bs : string := String "092"%char EmptyString.

Fixpoint starts_with (p s : string) : bool :=
  match p, s with
  | EmptyString, _ => true
  | String a p', String b s' => Ascii.eqb a b && starts_with p' s'
  | String _ _, EmptyString => false
  end.

Fixpoint drop (n : nat) (s : string) : string :=
  match n, s with
  | O, _ => s
  | S _, EmptyString => EmptyString
  | S k, String _ s' => drop k s'
  end.

(** [s.substring(0, n)] *)
Fixpoint take (n : nat) (s : string) : string :=
  match n, s with
  | O, _ => EmptyString
  | S _, EmptyString => EmptyString
  | S k, String c s' => String c (take k s')
  end.

(** The text before and after the first occurrence of [needle]. *)
Fixpoint split_at (needle s : string) : option (string * string) :=
  if starts_with needle s then Some (EmptyString, drop (String.length needle) s)
  else match s with
       | EmptyString => None
       | String c s' =>
           match split_at needle s' with
           | Some (a, b) => Some (String c a, b)
           | None => None
           end
       end.

(** [s.includes(needle)] *)
Definition includes (needle s : string) : bool :=
  match split_at needle s with Some _ => true | None => false end.

(** [s.replace(/needle/g, repl)] for a literal, non-empty [needle]:
    [skip] counts the code units of a match still to be passed over. *)
Fixpoint replace_go (needle repl : string) (skip : nat) (s : string) : string :=
  match s with
  | EmptyString => EmptyString
  | String c s' =>
      match skip with
      | S k => replace_go needle repl k s'
      | O =>
          if starts_with needle s
          then repl ++ replace_go needle repl (String.length needle - 1) s'
          else String c (replace_go needle repl O s')
      end
  end.

Definition replace_all (needle repl s : string) : string :=
  replace_go needle repl O s.

(** White space, as the regular-expression class and [trim()] see it, on
    code units below 256. *)
Definition is_ws (c : ascii) : bool :=
  let n := nat_of_ascii c in
  ((9 <=? n)%nat && (n <=? 13)%nat) || (n =? 32)%nat || (n =? 160)%nat.

Fixpoint skip_ws (s : string) : string :=
  match s with
  | String c s' => if is_ws c then skip_ws s' else s
  | EmptyString => EmptyString
  end.

(** Length of the match, at the head of [s], of the line-break pattern:
    [<br], any white space, an optional slash, [>]. *)
Definition match_br (s : string) : option nat :=
  if starts_with "<br" s then
    let r1 := skip_ws (drop 3 s) in
    let r2 := if starts_with "/" r1 then drop 1 r1 else r1 in
    if starts_with ">" r2
    then Some (String.length s - String.length r2 + 1)%nat
    else None
  else None.

(** Every match of the line-break pattern replaced by a newline. *)
Fixpoint replace_br_go (skip : nat) (s : string) : string :=
  match s with
  | EmptyString => EmptyString
  | String c s' =>
      match skip with
      | S k => replace_br_go k s'
      | O =>
          match match_br s with
          | Some n => nl ++ replace_br_go (n - 1) s'
          | None => String c (replace_br_go O s')
          end
      end
  end.

Definition replace_br (s : string) : string := replace_br_go O s.

Fixpoint trim_end (s : string) : string :=
  match s with
  | EmptyString => EmptyString
  | String c s' =>
      match trim_end s' with
      | EmptyString => if is_ws c then EmptyString else String c EmptyString
      | r => String c r
      end
  end.

(** [s.trim()] *)
Definition trim (s : string) : string := trim_end (skip_ws s).

(** [s.split("/").pop()]: the text after the last slash. *)
Fixpoint last_segment (s : string) : string :=
  match s with
  | EmptyString => EmptyString
  | String c s' =>
      if includes "/" s' then last_segment s'
      else if Ascii.eqb c "/"%char then s'
      else s
  end.

Fixpoint join (sep : string) (l : list string) : string :=
  match l with
  | [] => EmptyString
  | [x] => x
  | x :: l' => x ++ sep ++ join sep l'
  end.

(** [a] occurs in [s]. *)
Definition Substr (a s : string) : Prop := exists p q, s = p ++ a ++ q.

End Str.

(** ** JavaScript values *)

#[local] Set Warnings "-register-all".

Inductive JsValue : Type :=
| JUndefined
| JNull
| JBool (b : bool)
| JNum (n : Z)
| JStr (s : string)
| JArr (items : list JsValue)
| JObj (fields : list (string * JsValue)).

(** The outcome of an expression that may throw.  Every value thrown in
    the three variants is an [Error]; the model keeps its [message]. *)
Inductive Res (A : Type) : Type :=
| Ok (a : A)
| Throw (message : string).
Arguments Ok {A} a.
Arguments Throw {A} message.

(** Sequencing of expressions that may throw. *)
Definition rbind {A B} (r : Res A) (k : A -> Res B) : Res B :=
  match r with Ok a => k a | Throw e => Throw e end.

Notation "x <~ r ;; k" := (rbind r (fun x => k))
  (at level 100, r at next level, right associativity).

(** A [for ... of] loop over [xs] that threads an accumulator and stops at
    the first throw. *)
Fixpoint rfold {A B} (xs : list A) (acc : B) (step : B -> A -> Res B) : Res B :=
  match xs with
  | [] => Ok acc
  | x :: xs' => rbind (step acc x) (fun acc' => rfold xs' acc' step)
  end.

Module Js.
Import Str.

(** ToBoolean *)
Definition truthy (v : JsValue) : bool :=
  match v with
  | JUndefined | JNull => false
  | JBool b => b
  | JNum n => negb (n =? 0)
  | JStr s => negb (String.eqb s EmptyString)
  | JArr _ | JObj _ => true
  end.

(** [a || b] *)
Definition or_else (a b : JsValue) : JsValue := if truthy a then a else b.

(** [typeof v === "object" && v !== null] *)
Definition is_object (v : JsValue) : bool :=
  match v with JArr _ | JObj _ => true | _ => false end.

Definition isArray (v : JsValue) : bool :=
  match v with JArr _ => true | _ => false end.

(** Own property of an object built by JSON.parse. *)
Fixpoint lookup_field (k : string) (fields : list (string * JsValue)) : option JsValue :=
  match fields with
  | [] => None
  | (k', v) :: rest => if String.eqb k k' then Some v else lookup_field k rest
  end.

(** [k in v] for an object or an array and a key that is neither an index
    nor a member of the built-in prototypes. *)
Definition has_property (k : string) (v : JsValue) : bool :=
  match v with
  | JObj fields => match lookup_field k fields with Some _ => true | None => false end
  | _ => false
  end.

(** ToString, as a template literal applies it. *)
Fixpoint to_string (v : JsValue) : string :=
  match v with
  | JUndefined => "undefined"
  | JNull => "null"
  | JBool true => "true"
  | JBool false => "false"
  | JNum n => pretty n
  | JStr s => s
  | JArr items =>
      join "," (map (fun x => match x with
                             | JUndefined | JNull => EmptyString
                             | _ => to_string x
                             end) items)
  | JObj _ => "[object Object]"
  end.

(** The wording of the engine's TypeError messages. *)
Definition TypeError_property (k : string) : string :=
  "Cannot read properties of undefined (reading '" ++ k ++ "')".
Definition TypeError_not_iterable : string := "object is not iterable".
Definition TypeError_primitive : string := "Cannot convert object to primitive value".

(** The values ToPrimitive turns into a string.  An object decoded from
    JSON that has an own property named toString hides the method of
    Object.prototype behind a value that is not a function: toString is
    passed over, valueOf gives the object back, and the conversion throws.
    An array is joined from the conversions of its elements (nothing for
    null and undefined). *)
Fixpoint printable (v : JsValue) : bool :=
  match v with
  | JArr items => forallb printable items
  | JObj fields =>
      match lookup_field "toString" fields with Some _ => false | None => true end
  | _ => true
  end.

(** ToString where it can throw: the conversion of a property key in
    [o[v]] and of an operand of a comparison. *)
Definition to_string_or_throw (v : JsValue) : Res string :=
  if printable v then Ok (to_string v) else Throw TypeError_primitive.

(** [v.k] for a key that is neither an index nor a member of the built-in
    prototypes other than [length]. *)
Definition get (v : JsValue) (k : string) : Res JsValue :=
  match v with
  | JUndefined | JNull => Throw (TypeError_property k)
  | JObj fields =>
      Ok (match lookup_field k fields with Some x => x | None => JUndefined end)
  | JArr items =>
      Ok (if String.eqb k "length" then JNum (Z.of_nat (List.length items)) else JUndefined)
  | JStr s =>
      Ok (if String.eqb k "length" then JNum (Z.of_nat (String.length s)) else JUndefined)
  | JBool _ | JNum _ => Ok JUndefined
  end.

Fixpoint chars (s : string) : list JsValue :=
  match s with
  | EmptyString => []
  | String c s' => JStr (String c EmptyString) :: chars s'
  end.

(** The elements [for (const x of v)] visits. *)
Definition iterate (v : JsValue) : Res (list JsValue) :=
  match v with
  | JArr items => Ok items
  | JStr s => Ok (chars s)
  | _ => Throw TypeError_not_iterable
  end.

(** [Object.entries(v)] *)
Definition entries (v : JsValue) : list (string * JsValue) :=
  match v with
  | JObj fields => fields
  | JArr items => imap (fun i x => (pretty (Z.of_nat i), x)) items
  | JStr s => imap (fun i x => (pretty (Z.of_nat i), x)) (chars s)
  | _ => []
  end.

Definition digit_of (c : ascii) : option Z :=
  let n := nat_of_ascii c in
  if ((48 <=? n) && (n <=? 57))%nat then Some (Z.of_nat (n - 48)) else None.

Fixpoint digits_go (acc : Z) (s : string) : option Z :=
  match s with
  | EmptyString => Some acc
  | String c s' =>
      match digit_of c with
      | Some d => digits_go (10 * acc + d) s'
      | None => None
      end
  end.

(** A non-empty run of decimal digits. *)
Definition digits (s : string) : option Z :=
  match s with EmptyString => None | _ => digits_go 0 s end.

(** *** [v > 0]

    The comparison converts [v] with ToNumber and is false on NaN.  A
    string is read as a StringNumericLiteral: white space around it is
    dropped and the empty text is 0; what is left is Infinity, a decimal
    literal (digits with an optional point and an optional exponent), either
    with an optional sign, or an unsigned literal in base 16, 8 or 2; any
    other text is NaN. *)

(** The value of a digit of a base up to 36. *)
Definition digit_value (c : ascii) : option nat :=
  let n := nat_of_ascii c in
  if ((48 <=? n) && (n <=? 57))%nat then Some (n - 48)%nat
  else if ((97 <=? n) && (n <=? 122))%nat then Some (n - 87)%nat
  else if ((65 <=? n) && (n <=? 90))%nat then Some (n - 55)%nat
  else None.

(** Every code unit of [s] is a digit of base [radix]: whether one of
    them is not zero. *)
Fixpoint radix_digits (radix : nat) (s : string) : option bool :=
  match s with
  | EmptyString => Some false
  | String c s' =>
      match digit_value c with
      | Some d =>
          if (d <? radix)%nat
          then option_map (orb (negb (d =? 0)%nat)) (radix_digits radix s')
          else None
      | None => None
      end
  end.

(** The digits after the prefix 0x, 0o or 0b denote a number above zero. *)
Definition radix_literal_positive (radix : nat) (s : string) : bool :=
  match s with
  | EmptyString => false
  | _ => match radix_digits radix s with Some b => b | None => false end
  end.

(** The longest run of decimal digits at the head of [s], and the rest. *)
Fixpoint leading_digits (s : string) : string * string :=
  match s with
  | String c s' =>
      match digit_of c with
      | Some _ => let '(d, r) := leading_digits s' in (String c d, r)
      | None => (EmptyString, s)
      end
  | EmptyString => (EmptyString, EmptyString)
  end.

(** The exponent after the letter e: an optional sign and digits. *)
Definition exponent (s : string) : option Z :=
  match s with
  | String "+" r => digits r
  | String "-" r => option_map Z.opp (digits r)
  | r => digits r
  end.

(** The double nearest to [m * 10 ^ e], for [m] not below zero, is above
    zero: [m] is not zero and the value is above [2 ^ -1075], half of the
    least double above zero (a value on that half rounds to zero). *)
Definition rounds_above_zero (m e : Z) : bool :=
  (0 <? m) && (if 0 <=? e then true else 10 ^ (- e) <? m * 2 ^ 1075).

(** An unsigned decimal literal (or Infinity) that denotes a number above
    zero. *)
Definition decimal_literal_positive (s : string) : bool :=
  if String.eqb s "Infinity" then true
  else
    let '(whole, r1) := leading_digits s in
    let '(fraction, r2) :=
      match r1 with
      | String "." r => leading_digits r
      | _ => (EmptyString, r1)
      end in
    match whole ++ fraction with
    | EmptyString => false
    | mantissa =>
        let power :=
          match r2 with
          | EmptyString => Some 0
          | String c r =>
              if Ascii.eqb c "e"%char || Ascii.eqb c "E"%char then exponent r else None
          end in
        match digits mantissa, power with
        | Some m, Some x => rounds_above_zero m (x - Z.of_nat (String.length fraction))
        | _, _ => false
        end
    end.

(** ToNumber of the string is above zero. *)
Definition string_gt_zero (s : string) : bool :=
  match trim s with
  | EmptyString => false
  | String "-" _ => false
  | String "+" r => decimal_literal_positive r
  | String "0" (String "x" r) | String "0" (String "X" r) => radix_literal_positive 16 r
  | String "0" (String "o" r) | String "0" (String "O" r) => radix_literal_positive 8 r
  | String "0" (String "b" r) | String "0" (String "B" r) => radix_literal_positive 2 r
  | r => decimal_literal_positive r
  end.

(** [v > 0]: an object or an array is converted through its string, and
    the conversion can throw. *)
Definition gt_zero (v : JsValue) : Res bool :=
  match v with
  | JUndefined | JNull => Ok false
  | JBool b => Ok b
  | JNum n => Ok (0 <? n)
  | JStr s => Ok (string_gt_zero s)
  | JArr _ | JObj _ => s <~ to_string_or_throw v ;; Ok (string_gt_zero s)
  end.

(** [v === 1] *)
Definition is_one (v : JsValue) : bool :=
  match v with JNum 1 => true | _ => false end.

(** *** JSON.stringify *)

Definition hex_digit (n : nat) : ascii :=
  ascii_of_nat (if (n <? 10)%nat then 48 + n else 87 + n)%nat.

Definition quote_char (c : ascii) : string :=
  let n := nat_of_ascii c in
  if (n =? 34)%nat then bs ++ dq
  else if (n =? 92)%nat then bs ++ bs
  else if (n =? 8)%nat then bs ++ "b"
  else if (n =? 12)%nat then bs ++ "f"
  else if (n =? 10)%nat then bs ++ "n"
  else if (n =? 13)%nat then bs ++ "r"
  else if (n =? 9)%nat then bs ++ "t"
  else if (n <? 32)%nat
       then bs ++ "u00" ++ String (hex_digit (n / 16)) (String (hex_digit (n mod 16)) EmptyString)
  else String c EmptyString.

Fixpoint quote_body (s : string) : string :=
  match s with
  | EmptyString => EmptyString
  | String c s' => quote_char c ++ quote_body s'
  end.

(** QuoteJSONString *)
Definition quote (s : string) : string := dq ++ quote_body s ++ dq.

(** The brackets around the serialized members [parts], at the
    indentation [indent] and with the members at [inner]. *)
Definition wrap (opening closing gap indent inner : string) (parts : list string) : string :=
  match parts with
  | [] => opening ++ closing
  | _ =>
      if String.eqb gap EmptyString
      then opening ++ join "," parts ++ closing
      else opening ++ nl ++ inner ++ join ("," ++ nl ++ inner) parts
             ++ nl ++ indent ++ closing
  end.

(** SerializeJSONProperty with the gap [gap] at the indentation [indent];
    [None] stands for the result undefined. *)
Fixpoint serialize (gap indent : string) (v : JsValue) : option string :=
  match v with
  | JUndefined => None
  | JNull => Some "null"
  | JBool true => Some "true"
  | JBool false => Some "false"
  | JNum n => Some (pretty n)
  | JStr s => Some (quote s)
  | JArr items =>
      let inner := indent ++ gap in
      let parts := map (fun x => match serialize gap inner x with
                                 | Some t => t
                                 | None => "null"
                                 end) items in
      Some (wrap "[" "]" gap indent inner parts)
  | JObj fields =>
      let inner := indent ++ gap in
      let parts :=
        (fix members (fs : list (string * JsValue)) : list string :=
           match fs with
           | [] => []
           | (k, x) :: rest =>
               match serialize gap inner x with
               | Some t =>
                   (quote k ++ ":"
                      ++ (if String.eqb gap EmptyString then EmptyString else " ") ++ t)
                     :: members rest
               | None => members rest
               end
           end) fields in
      Some (wrap "{" "}" gap indent inner parts)
  end.

(** [JSON.stringify(v)] and [JSON.stringify(v, null, 2)], spliced into a
    string. *)
Definition stringify (v : JsValue) : string :=
  match serialize EmptyString EmptyString v with Some t => t | None => "undefined" end.

Definition stringify2 (v : JsValue) : string :=
  match serialize "  " EmptyString v with Some t => t | None => "undefined" end.

End Js.

(** ** A reference JSON.parse

    The handlers are stated over an arbitrary [JSON_parse]; this parser of the
    integer fragment of JSON instantiates it where a concrete body is
    evaluated.  Number literals with a fraction or an exponent and code units
    above 255 are outside the fragment. *)

Module Json.
Import Str.

Definition SyntaxError : string := "Unexpected token in JSON".

Definition is_json_ws (c : ascii) : bool :=
  let n := nat_of_ascii c in
  ((n =? 32) || (n =? 9) || (n =? 10) || (n =? 13))%nat.

Fixpoint skip (s : string) : string :=
  match s with
  | String c s' => if is_json_ws c then skip s' else s
  | EmptyString => EmptyString
  end.

Definition hex_of (c : ascii) : option nat :=
  let n := nat_of_ascii c in
  if ((48 <=? n) && (n <=? 57))%nat then Some (n - 48)%nat
  else if ((97 <=? n) && (n <=? 102))%nat then Some (n - 87)%nat
  else if ((65 <=? n) && (n <=? 70))%nat then Some (n - 55)%nat
  else None.

(** The characters of a string literal after its opening quote, and the
    text after its closing quote. *)
Fixpoint string_body (s : string) : option (string * string) :=
  match s with
  | EmptyString => None
  | String c s' =>
      let n := nat_of_ascii c in
      if (n =? 34)%nat then Some (EmptyString, s')
      else if (n <? 32)%nat then None
      else if (n =? 92)%nat then
        match s' with
        | String e s'' =>
            let unescaped (x : nat) (rest : string) :=
              match string_body rest with
              | Some (t, r) => Some (String (ascii_of_nat x) t, r)
              | None => None
              end in
            match e with
            | "034"%char => unescaped 34%nat s''
            | "092"%char => unescaped 92%nat s''
            | "/"%char => unescaped 47%nat s''
            | "b"%char => unescaped 8%nat s''
            | "f"%char => unescaped 12%nat s''
            | "n"%char => unescaped 10%nat s''
            | "r"%char => unescaped 13%nat s''
            | "t"%char => unescaped 9%nat s''
            | "u"%char =>
                match s'' with
                | String "0" (String "0" (String h1 (String h2 s3))) =>
                    match hex_of h1, hex_of h2 with
                    | Some a, Some b => unescaped (16 * a + b)%nat s3
                    | _, _ => None
                    end
                | _ => None
                end
            | _ => None
            end
        | EmptyString => None
        end
      else
        match string_body s' with
        | Some (t, r) => Some (String c t, r)
        | None => None
        end
  end.

(** The longest run of digits at the head of [s], and the rest. *)
Fixpoint span_digits (s : string) : string * string :=
  match s with
  | String c s' =>
      match Js.digit_of c with
      | Some _ => let '(d, r) := span_digits s' in (String c d, r)
      | None => (EmptyString, s)
      end
  | EmptyString => (EmptyString, EmptyString)
  end.

Definition ends_number (r : string) : bool :=
  match r with
  | String c _ => negb (Ascii.eqb c "."%char || Ascii.eqb c "e"%char || Ascii.eqb c "E"%char)
  | EmptyString => true
  end.

(** An integer literal without a leading zero. *)
Definition natural (s : string) : option (Z * string) :=
  let '(d, r) := span_digits s in
  match d with
  | EmptyString => None
  | String "0" (String _ _) => None
  | _ => if ends_number r
         then match Js.digits d with Some n => Some (n, r) | None => None end
         else None
  end.

(** JSON.parse keeps the position of a repeated key and its last value. *)
Fixpoint set_field (k : string) (v : JsValue) (fields : list (string * JsValue))
  : list (string * JsValue) :=
  match fields with
  | [] => [(k, v)]
  | (k', v') :: rest =>
      if String.eqb k k' then (k', v) :: rest else (k', v') :: set_field k v rest
  end.

Fixpoint value (fuel : nat) (s : string) : option (JsValue * string) :=
  match fuel with
  | O => None
  | S fuel' =>
      match skip s with
      | String "{" r =>
          match skip r with
          | String "}" r' => Some (JObj [], r')
          | r' => members fuel' [] r'
          end
      | String "[" r =>
          match skip r with
          | String "]" r' => Some (JArr [], r')
          | r' => elements fuel' [] r'
          end
      | String "034" r =>
          match string_body r with
          | Some (t, r') => Some (JStr t, r')
          | None => None
          end
      | String "-" r =>
          match natural r with
          | Some (n, r') => Some (JNum (- n), r')
          | None => None
          end
      | r =>
          if starts_with "true" r then Some (JBool true, drop 4 r)
          else if starts_with "false" r then Some (JBool false, drop 5 r)
          else if starts_with "null" r then Some (JNull, drop 4 r)
          else match natural r with
               | Some (n, r') => Some (JNum n, r')
               | None => None
               end
      end
  end
with elements (fuel : nat) (acc : list JsValue) (s : string) : option (JsValue * string) :=
  match fuel with
  | O => None
  | S fuel' =>
      match value fuel' s with
      | Some (v, r) =>
          match skip r with
          | String "," r' => elements fuel' (acc ++ [v]) r'
          | String "]" r' => Some (JArr (acc ++ [v]), r')
          | _ => None
          end
      | None => None
      end
  end
with members (fuel : nat) (acc : list (string * JsValue)) (s : string)
  : option (JsValue * string) :=
  match fuel with
  | O => None
  | S fuel' =>
      match skip s with
      | String "034" r =>
          match string_body r with
          | Some (k, r1) =>
              match skip r1 with
              | String ":" r2 =>
                  match value fuel' r2 with
                  | Some (v, r3) =>
                      match skip r3 with
                      | String "," r4 => members fuel' (set_field k v acc) r4
                      | String "}" r4 => Some (JObj (set_field k v acc), r4)
                      | _ => None
                      end
                  | None => None
                  end
              | _ => None
              end
          | None => None
          end
      | _ => None
      end
  end.

(** The fuel bounds the depth of the recursion; a call that goes two levels
    down has consumed a code unit, and the length of the text (plus one) is
    what the bodies evaluated below need. *)
Definition parse (text : string) : Res JsValue :=
  match value (S (String.length text)) text with
  | Some (v, r) =>
      match skip r with
      | EmptyString => Ok v
      | _ => Throw SyntaxError
      end
  | None => Throw SyntaxError
  end.

End Json.

(** ** The environment of one invocation *)

Record Response : Type := {
  status : Z;
  statusText : string;
  (** [response.headers.get("content-type")], [None] for null *)
  content_type : option string;
  (** what [response.text()] resolves with *)
  body : string
}.

(** [response.ok]: the status is in the range 200-299. *)
Definition ok (r : Response) : bool := (200 <=? status r) && (status r <=? 299).

Inductive Outcome : Type :=
| Rejected (message : string)
| Resolved (r : Response).

(** The multipart body built by the upload tools: one field. *)
Record FormData : Type := {
  field : string;
  blob : string;
  blob_type : string;
  file_name : string
}.

(** The [options] given to makeApiCall. *)
Record Options : Type := {
  method : option string;
  form : option FormData
}.

Definition no_options : Options := {| method := None; form := None |}.

(** What reaches [fetch]. *)
Record Request : Type := {
  url : string;
  api_key_header : string;
  request_options : Options
}.

(** A call of the HTTP wrapper: [makeApiCall(endpoint, options)]. *)
Record ApiCall : Type := {
  endpoint : string;
  options : Options
}.

Record World : Type := {
  fetch : Request -> Outcome;
  readFile : string -> Res string;
  (** [Date.now()] on entering getSizeCache, after a successful refresh in
      getCategories, and on leaving getSizeCache *)
  t_entry : Z;
  t_update : Z;
  t_exit : Z
}.

(** ** Tool results *)

(** A block of the content of a result.  The handlers set [text] to a
    string, except where the first variant passes on a value of the response
    as it came. *)
Record ContentBlock : Type := {
  type : string;
  text : JsValue
}.

(** A string where a value is expected is that string as a value. *)
Coercion JStr : string >-> JsValue.

Record ToolResult : Type := {
  content : list ContentBlock;
  (** [false] where the result has no [isError] *)
  isError : bool
}.

Definition text_result (t : string) : ToolResult :=
  {| content := [ {| type := "text"; text := t |} ]; isError := false |}.

(** The result every catch block builds from the message of the error. *)
Definition error_result (message : string) : ToolResult :=
  {| content := [ {| type := "text"; text := "Error: " ++ message |} ]; isError := true |}.

(** ** The monad of the handlers *)

Section Monad.
Context {St : Type}.

Definition M (A : Type) : Type := St -> Res A * St.

Definition ret {A} (a : A) : M A := fun st => (Ok a, st).

Definition bind {A B} (m : M A) (k : A -> M B) : M B :=
  fun st =>
    match m st with
    | (Ok a, st') => k a st'
    | (Throw e, st') => (Throw e, st')
    end.

Definition throw {A} (message : string) : M A := fun st => (Throw message, st).

(** An expression that may throw. *)
Definition lift {A} (r : Res A) : M A := fun st => (r, st).

(** [try { m } catch (error) { handler(error.message) }]: what [m] wrote
    before it threw stays written. *)
Definition try_catch {A} (m : M A) (handler : string -> M A) : M A :=
  fun st =>
    match m st with
    | (Ok a, st') => (Ok a, st')
    | (Throw e, st') => handler e st'
    end.

Definition read : M St := fun st => (Ok st, st).
Definition write (st' : St) : M unit := fun _ => (Ok tt, st').

End Monad.
Arguments M : clear implicits.

Notation "x <- m ;; k" := (bind m (fun x => k))
  (at level 100, m at next level, right associativity).
Notation "m ;;; k" := (bind m (fun _ => k))
  (at level 100, right associativity).

(** ** What the variants share *)

(** The message of the errors thrown on a status that is not 2xx. *)
Definition failed (what : string) (response : Response) : string :=
  what ++ ": " ++ pretty (status response) ++ " " ++ body response.

(** [filename.split("/").pop() || "image"] *)
Definition upload_name (filename : string) : string :=
  match Str.last_segment filename with
  | EmptyString => "image"
  | n => n
  end.

Definition upload_form (filename fileBuffer : string) : FormData :=
  {| field := "image"; blob := fileBuffer;
     blob_type := "application/octet-stream";
     file_name := upload_name filename |}.

Definition post (formData : option FormData) : Options :=
  {| method := Some "POST"; form := formData |}.

(** The note that follows a signed URL. *)
Definition signed_url_note (what : string) : string :=
  "> This is a signed URL that can be used to " ++ what
    ++ ". The URL includes authentication parameters and may expire."
    ++ Str.nl ++ Str.nl.

(** ** The variant with the size cache *)

Module Cached.
Import Str Js.

(** The variables of [main] that outlive a call, and the trace of the
    calls made to makeApiCall. *)
Record State : Type := {
  sizeCache : option (gmap string JsValue);
  lastUpdatedAt : option Z;
  lastAccessedAt : option Z;
  calls : list ApiCall
}.

Definition initial : State :=
  {| sizeCache := None; lastUpdatedAt := None; lastAccessedAt := None; calls := [] |}.

Definition log_call (c : ApiCall) (st : State) : State :=
  {| sizeCache := sizeCache st; lastUpdatedAt := lastUpdatedAt st;
     lastAccessedAt := lastAccessedAt st; calls := calls st ++ [c] |}.

(** [sizeCache = localSizeCache; lastUpdatedAt = Date.now()] *)
Definition store_cache (c : gmap string JsValue) (t : Z) (st : State) : State :=
  {| sizeCache := Some c; lastUpdatedAt := Some t;
     lastAccessedAt := lastAccessedAt st; calls := calls st |}.

(** [lastAccessedAt = Date.now()] *)
Definition touch (t : Z) (st : State) : State :=
  {| sizeCache := sizeCache st; lastUpdatedAt := lastUpdatedAt st;
     lastAccessedAt := Some t; calls := calls st |}.

(** [o[k] = v] on an object literal, as far as the own entries of [o] go.
    The key [__proto__] reaches the setter of Object.prototype, which
    replaces the prototype of [o] and adds no entry: the model keeps the
    entries under the other keys and says nothing of that one. *)
Definition assign (o : gmap string JsValue) (k : string) (v : JsValue)
  : gmap string JsValue :=
  if String.eqb k "__proto__" then o else <[k := v]> o.

(** The body of the outer loop of getCategories. *)
Definition add_sizes (localSizeCache : gmap string JsValue) (category : JsValue)
  : Res (gmap string JsValue) :=
  if truthy category then
    name <~ get category "name" ;;
    if truthy name then
      sizes <~ get category "sizes" ;;
      if isArray sizes then
        items <~ iterate sizes ;;
        rfold items localSizeCache
          (fun acc size =>
             name <~ get size "name" ;;
             key <~ to_string_or_throw name ;;
             Ok (assign acc key size))
      else Ok localSizeCache
    else Ok localSizeCache
  else Ok localSizeCache.

Definition fiveMinutesInMs : Z := 5 * 60 * 1000.

(** The test of getSizeCache:
    [!sizeCache || !lastAccessedAt || now - lastAccessedAt > fiveMinutesInMs] *)
Definition stale (st : State) (now : Z) : bool :=
  match sizeCache st with
  | None => true
  | Some _ =>
      match lastAccessedAt st with
      | None => true
      | Some t => (t =? 0) || (now - t >? fiveMinutesInMs)
      end
  end.

(** [cache?.[key]] where the cache holds [key] as an entry of its own.
    The source goes on to the prototype of the cache for a key that is none
    of its entries; the model answers undefined there, which is what the
    source finds unless the key names a member of Object.prototype or a size
    stored under [__proto__] has become the prototype. *)
Definition cache_get (cache : option (gmap string JsValue)) (key : JsValue) : JsValue :=
  match cache with
  | Some c => match c !! to_string key with Some v => v | None => JUndefined end
  | None => JUndefined
  end.

(** The line buildImageMetadataResponseText adds for one resized file. *)
Definition size_line (cache : option (gmap string JsValue)) (resizedFile : JsValue)
  : Res string :=
  size <~ get resizedFile "size" ;;
  let sizeInfo := cache_get cache size in
  if truthy sizeInfo then
    width <~ get sizeInfo "width" ;;
    height <~ get sizeInfo "height" ;;
    Ok ("- **" ++ to_string size ++ "**: " ++ to_string width ++ times
          ++ to_string height ++ " pixels" ++ nl)
  else Ok ("- **" ++ to_string size ++ "**" ++ nl).

(** One line per size in list_categories. *)
Definition category_size_line (size : JsValue) : Res string :=
  name <~ get size "name" ;;
  width <~ get size "width" ;;
  height <~ get size "height" ;;
  mimeType <~ get size "mimeType" ;;
  Ok ("- **" ++ to_string (or_else name (JStr "Unknown")) ++ "**: "
        ++ to_string (or_else width (JStr "?")) ++ times
        ++ to_string (or_else height (JStr "?")) ++ " pixels ("
        ++ to_string (or_else mimeType (JStr "Unknown")) ++ ")" ++ nl).

Definition found_line (categories : JsValue) : Res string :=
  len <~ get categories "length" ;;
  Ok ("Found " ++ to_string len ++ " categor"
        ++ (if is_one len then "y" else "ies") ++ ":" ++ nl ++ nl).

(** The text list_categories adds for one category that is not null. *)
Definition category_text (category : JsValue) : Res string :=
  name <~ get category "name" ;;
  let heading := "### " ++ to_string (or_else name (JStr "Unknown")) ++ nl ++ nl in
  sizes <~ get category "sizes" ;;
  len <~ get sizes "length" ;;
  nonempty <~ gt_zero len ;;
  if (nonempty : bool) then
    items <~ iterate sizes ;;
    lines <~ rfold items EmptyString
               (fun acc size => l <~ category_size_line size ;; Ok (acc ++ l)) ;;
    Ok (heading ++ "**Available Sizes:**" ++ nl ++ nl ++ lines ++ nl)
  else Ok (heading ++ "No sizes configured for this category." ++ nl ++ nl).

Definition upload_path (category : string) (resize : bool) : string :=
  "/api/image/" ++ category ++ "?forceImmediateResize="
    ++ (if resize then "true" else "false").

(** A tool of this variant with its arguments. *)
Inductive Call : Type :=
| GetImageMetadata (imageServiceId : string)
| TranscodeImage (imageServiceId : string)
| ListCategories
| GetResizedImage (imageServiceId size : string)
| UploadAndResizeImage (category filename : string)
| UploadImage (category filename : string).

Section Server.
Variables baseUrl apiKey : string.
Variable JSON_parse : string -> Res JsValue.

Section Invocation.
Variable w : World.

Definition makeApiCall (endpoint : string) (options : Options) : M State Response :=
  fun st =>
    let st' := log_call {| endpoint := endpoint; options := options |} st in
    match fetch w {| url := baseUrl ++ endpoint;
                     api_key_header := apiKey;
                     request_options := options |} with
    | Rejected e => (Throw e, st')
    | Resolved r => (Ok r, st')
    end.

(** [response.json()] *)
Definition json (response : Response) : M State JsValue :=
  lift (JSON_parse (body response)).

(** The [try] block of getCategories. *)
Definition getCategories_try : M State JsValue :=
  response <- makeApiCall "/api/size/list" no_options ;;
  if negb (ok response) then ret JNull
  else
    categories <- json response ;;
    items <- lift (iterate categories) ;;
    localSizeCache <- lift (rfold items ∅ add_sizes) ;;
    st <- read ;;
    write (store_cache localSizeCache (t_update w) st) ;;;
    ret categories.

(** Returns the categories, or null when the refresh failed. *)
Definition getCategories : M State JsValue :=
  try_catch getCategories_try (fun _ => ret JNull).

Definition getSizeCache : M State (option (gmap string JsValue)) :=
  let now := t_entry w in
  st <- read ;;
  (if stale st now then getCategories ;;; ret tt else ret tt) ;;;
  st1 <- read ;;
  write (touch (t_exit w) st1) ;;;
  st2 <- read ;;
  ret (sizeCache st2).

Definition buildImageMetadataResponseText (metadata : JsValue) (label : string)
  : M State string :=
  id <- lift (get metadata "id") ;;
  category <- lift (get metadata "category") ;;
  let formattedText :=
    "## " ++ label ++ nl ++ nl
      ++ "**Image ID:** " ++ to_string id ++ nl ++ nl
      ++ "**Category:** " ++ to_string category ++ nl ++ nl in
  resizedFiles <- lift (get metadata "resizedFiles") ;;
  nonempty <- lift (if truthy resizedFiles
                    then len <~ get resizedFiles "length" ;; gt_zero len
                    else Ok false) ;;
  if (nonempty : bool) then
    cache <- getSizeCache ;;
    items <- lift (iterate resizedFiles) ;;
    lines <- lift (rfold items EmptyString
                     (fun acc rf => l <~ size_line cache rf ;; Ok (acc ++ l))) ;;
    ret (formattedText ++ "**Available Sizes:**" ++ nl ++ nl ++ lines ++ nl)
  else
    ret (formattedText ++ "*Note: No resized files available for this image.*"
           ++ nl ++ nl).

(** The [try] blocks of the tools; each tool wraps its block in the same
    [catch]. *)
Definition get_image_metadata_try (imageServiceId : string) : M State ToolResult :=
  response <- makeApiCall ("/api/image/" ++ imageServiceId) no_options ;;
  if negb (ok response)
  then throw (failed "Failed to get image metadata" response)
  else
    metadata <- json response ;;
    formattedText <- buildImageMetadataResponseText metadata "Image Metadata" ;;
    ret (text_result formattedText).

Definition get_image_metadata (imageServiceId : string) : M State ToolResult :=
  try_catch (get_image_metadata_try imageServiceId) (fun e => ret (error_result e)).

(** The source repeats the text of buildImageMetadataResponseText here
    under the heading Image Transcode Result. *)
Definition transcode_image_try (imageServiceId : string) : M State ToolResult :=
  response <- makeApiCall ("/api/image/" ++ imageServiceId ++ "/transcode") (post None) ;;
  if negb (ok response)
  then throw (failed "Failed to transcode image" response)
  else
    metadata <- json response ;;
    formattedText <- buildImageMetadataResponseText metadata "Image Transcode Result" ;;
    ret (text_result formattedText).

Definition transcode_image (imageServiceId : string) : M State ToolResult :=
  try_catch (transcode_image_try imageServiceId) (fun e => ret (error_result e)).

(** The [return] of the tool sits inside the loop over the categories:
    the body runs for the first element and the call returns; on an
    empty list the function ends without a value ([None]). *)
Definition list_categories_try : M State (option ToolResult) :=
  categories <- getCategories ;;
  match categories with
  | JNull => ret (Some (text_result "No categories are currently available."))
  | _ =>
      header <- lift (found_line categories) ;;
      items <- lift (iterate categories) ;;
      match items with
      | [] => ret None
      | category :: _ =>
          formattedText <-
            lift (match category with
                  | JNull => Ok header
                  | _ => t <~ category_text category ;; Ok (header ++ t)
                  end) ;;
          ret (Some (text_result formattedText))
      end
  end.

Definition list_categories : M State (option ToolResult) :=
  try_catch list_categories_try (fun e => ret (Some (error_result e))).

Definition get_resized_image_try (imageServiceId size : string) : M State ToolResult :=
  response <- makeApiCall ("/api/image/s/" ++ imageServiceId ++ "/" ++ size) no_options ;;
  if negb (ok response)
  then throw (failed "Failed to get resized image URL" response)
  else
    parsedResponse <- json response ;;
    u <- lift (if truthy parsedResponse then get parsedResponse "url" else Ok JUndefined) ;;
    if truthy u then
      ret (text_result
             ("## Resized Image URL" ++ nl ++ nl
                ++ "**Image UUID:** " ++ imageServiceId ++ nl ++ nl
                ++ "**Requested Size:** " ++ size ++ nl ++ nl
                ++ "**Download URL:** " ++ to_string u ++ nl ++ nl
                ++ signed_url_note "download the image at the requested size"))
    else ret (text_result (stringify2 parsedResponse)).

Definition get_resized_image (imageServiceId size : string) : M State ToolResult :=
  try_catch (get_resized_image_try imageServiceId size) (fun e => ret (error_result e)).

Definition uploadImage (category filename : string) (resize : bool) : M State JsValue :=
  fileBuffer <- lift (readFile w filename) ;;
  response <- makeApiCall (upload_path category resize)
                (post (Some (upload_form filename fileBuffer))) ;;
  if negb (ok response)
  then throw (failed "Failed to upload image" response)
  else
    imageMetadata <- json response ;;
    id <- lift (get imageMetadata "id") ;;
    missing <- lift (if truthy id
                     then c <~ get imageMetadata "category" ;; Ok (negb (truthy c))
                     else Ok true) ;;
    if (missing : bool)
    then throw ("Invalid response format: missing required fields. Response: "
                  ++ stringify imageMetadata)
    else ret imageMetadata.

Definition upload_and_resize_image (category filename : string) : M State ToolResult :=
  try_catch
    (metadata <- uploadImage category filename true ;;
     t <- buildImageMetadataResponseText metadata "Image uploaded and resized" ;;
     ret (text_result t))
    (fun e => ret (error_result e)).

Definition upload_image (category filename : string) : M State ToolResult :=
  try_catch
    (metadata <- uploadImage category filename false ;;
     t <- buildImageMetadataResponseText metadata "Image uploaded" ;;
     ret (text_result t))
    (fun e => ret (error_result e)).

(** The tools registered with the server; the transport runs the handler
    registered under the name it is asked for.  list_categories alone can end
    without a value. *)
Definition call_tool (call : Call) : M State (option ToolResult) :=
  let returned (m : M State ToolResult) : M State (option ToolResult) :=
    r <- m ;; ret (Some r) in
  match call with
  | GetImageMetadata imageServiceId => returned (get_image_metadata imageServiceId)
  | TranscodeImage imageServiceId => returned (transcode_image imageServiceId)
  | ListCategories => list_categories
  | GetResizedImage imageServiceId size => returned (get_resized_image imageServiceId size)
  | UploadAndResizeImage category filename =>
      returned (upload_and_resize_image category filename)
  | UploadImage category filename => returned (upload_image category filename)
  end.

End Invocation.

(** Successive calls of getSizeCache, one world each. *)
Fixpoint gets (ws : list World) (st : State) : State :=
  match ws with
  | [] => st
  | w :: ws' => gets ws' (snd (getSizeCache w st))
  end.

End Server.

End Cached.

(** ** The variant of src/index.ts *)

Module Index.
Import Str Js.

(** The first capture of the pattern [<pre>(.*?)</pre>] with the flag [s]:
    the text between the first [<pre>] and the first [</pre>] after it. *)
Definition match_pre (responseText : string) : option string :=
  match split_at "<pre>" responseText with
  | Some (_, rest) =>
      match split_at "</pre>" rest with
      | Some (inner, _) => Some inner
      | None => None
      end
  | None => None
  end.

(** The capture with its line breaks turned into newlines, the two
    entities decoded and the white space around it removed. *)
Definition htmlError (inner : string) : string :=
  trim (replace_all "&#39;" "'" (replace_all "&nbsp;" " " (replace_br inner))).

Definition fence : string := backtick ++ backtick ++ backtick.

Definition raw_json (data : JsValue) : string :=
  "---" ++ nl ++ nl ++ "**Raw JSON Response:**" ++ nl
    ++ fence ++ "json" ++ nl ++ stringify2 data ++ nl ++ fence.

(** The line of one field of the metadata, when the field is truthy. *)
Definition field_line (label : string) (v : JsValue) : string :=
  if truthy v then "**" ++ label ++ ":** " ++ to_string v ++ nl ++ nl else EmptyString.

(** The entries of [data] whose key is not in [skipped], one line each. *)
Definition additional (skipped : list string) (data : JsValue) : string :=
  let additionalFields :=
    omap (fun '(key, value) =>
            if existsb (String.eqb key) skipped then None
            else Some ("- **" ++ key ++ ":** " ++ stringify value))
         (entries data) in
  match additionalFields with
  | [] => EmptyString
  | _ => "**Additional Information:**" ++ nl ++ join nl additionalFields ++ nl ++ nl
  end.

(** The text of get_image_metadata for an object or an array. *)
Definition metadata_text (metadata : JsValue) : Res string :=
  id <~ get metadata "id" ;;
  category <~ get metadata "category" ;;
  downloadedS3Path <~ get metadata "downloadedS3Path" ;;
  originalFileUrl <~ get metadata "originalFileUrl" ;;
  Ok ("## Image Metadata" ++ nl ++ nl
        ++ field_line "Image ID" id
        ++ field_line "Category" category
        ++ field_line "S3 Path" downloadedS3Path
        ++ (if truthy originalFileUrl
            then field_line "Original Image URL" originalFileUrl
                   ++ signed_url_note "access the original image"
            else EmptyString)
        ++ additional ["id"; "category"; "downloadedS3Path"; "originalFileUrl"] metadata
        ++ raw_json metadata).

(** The line list_categories adds for one size; nothing for a size that
    is not an object. *)
Definition size_text (size : JsValue) : Res string :=
  if is_object size then
    name <~ get size "name" ;;
    width <~ get size "width" ;;
    height <~ get size "height" ;;
    mimeType <~ get size "mimeType" ;;
    Ok ("- **" ++ to_string (or_else name (JStr "Unknown")) ++ "**: "
          ++ to_string (or_else width (JStr "?")) ++ times
          ++ to_string (or_else height (JStr "?")) ++ " pixels ("
          ++ to_string (or_else mimeType (JStr "Unknown")) ++ ")" ++ nl)
  else Ok EmptyString.

(** The text list_categories adds for one element of the response. *)
Definition category_text (category : JsValue) : Res string :=
  if is_object category then
    n <~ get category "name" ;;
    let heading := "### " ++ to_string (or_else n (JStr "Unknown")) ++ nl ++ nl in
    sizes <~ get category "sizes" ;;
    nonempty <~ (if isArray sizes
                 then len <~ get sizes "length" ;; gt_zero len
                 else Ok false) ;;
    if (nonempty : bool) then
      items <~ iterate sizes ;;
      lines <~ rfold items EmptyString (fun acc size => l <~ size_text size ;; Ok (acc ++ l)) ;;
      Ok (heading ++ "**Available Sizes:**" ++ nl ++ nl ++ lines ++ nl)
    else Ok (heading ++ "No sizes configured for this category." ++ nl ++ nl)
  else Ok EmptyString.

(** The text of list_categories for an array. *)
Definition categories_text (data : JsValue) : Res string :=
  items <~ iterate data ;;
  len <~ get data "length" ;;
  listing <~ (match items with
              | [] => Ok ("No categories are currently available." ++ nl ++ nl)
              | _ =>
                  rfold items
                    ("Found " ++ to_string len ++ " categor"
                       ++ (if is_one len then "y" else "ies") ++ ":" ++ nl ++ nl)
                    (fun acc category => t <~ category_text category ;; Ok (acc ++ t))
              end) ;;
  Ok ("## Available Image Categories" ++ nl ++ nl ++ listing ++ raw_json data).

(** The text of get_resized_image for an object or an array. *)
Definition resized_text (uuid size : string) (data : JsValue) : Res string :=
  u <~ get data "url" ;;
  let url := match u with
             | JStr s => if has_property "url" data then JStr s else JNull
             | _ => JNull
             end in
  if truthy url then
    Ok ("## Resized Image URL" ++ nl ++ nl
          ++ "**Image UUID:** " ++ uuid ++ nl ++ nl
          ++ "**Requested Size:** " ++ size ++ nl ++ nl
          ++ "**Download URL:** " ++ to_string url ++ nl ++ nl
          ++ signed_url_note "download the image at the requested size"
          ++ additional ["url"] data
          ++ raw_json data)
  else
    Ok ("## Resized Image URL" ++ nl ++ nl
          ++ "**Warning:** No URL found in the response." ++ nl ++ nl
          ++ "**Image UUID:** " ++ uuid ++ nl
          ++ "**Requested Size:** " ++ size ++ nl ++ nl
          ++ "**Response Data:**" ++ nl
          ++ fence ++ "json" ++ nl ++ stringify2 data ++ nl ++ fence).

Definition upload_path (category flag : string) : string :=
  "/api/image/" ++ category ++ "?forceImmediateResize=" ++ flag.

(** [response.headers.get("content-type") || ""] *)
Definition contentType (response : Response) : string :=
  match content_type response with
  | Some c => c
  | None => EmptyString
  end.

(** A tool of this variant with its arguments. *)
Inductive Call : Type :=
| GetImageMetadata (uuid : string)
| ListCategories
| GetResizedImage (uuid size : string)
| UploadAndResizeImage (category filename : string)
| UploadImage (category filename : string).

Section Server.
Variables baseUrl apiKey : string.
Variable JSON_parse : string -> Res JsValue.

(** The message the failure branch computes from the body and the
    content type. *)
Definition errorMessage (response : Response) : string :=
  let responseText := body response in
  if includes "application/json" (contentType response) then
    match JSON_parse responseText with
    | Ok errorData =>
        if is_object errorData && has_property "error" errorData
        then stringify2 errorData
        else responseText
    | Throw _ => responseText
    end
  else if includes "text/html" (contentType response) then
    match match_pre responseText with
    | Some inner => "Server error: " ++ htmlError inner
    | None => "Server returned HTML error page (" ++ pretty (status response) ++ ")"
    end
  else responseText.

(** The block every tool of this variant runs on the response it
    received; the five copies differ in the words [what] only. *)
Definition normalize (what : string) (response : Response) : Res JsValue :=
  let responseText := body response in
  if negb (ok response)
  then Throw (what ++ ": " ++ pretty (status response) ++ " " ++ errorMessage response)
  else
    match JSON_parse responseText with
    | Ok data => Ok data
    | Throw _ => Throw ("Invalid JSON response: " ++ take 200 responseText)
    end.

Section Invocation.
Variable w : World.

Definition makeApiCall (endpoint : string) (options : Options)
  : M (list ApiCall) Response :=
  fun trace =>
    let trace' := (trace ++ [ {| endpoint := endpoint; options := options |} ])%list in
    match fetch w {| url := baseUrl ++ endpoint;
                     api_key_header := apiKey;
                     request_options := options |} with
    | Rejected e => (Throw e, trace')
    | Resolved r => (Ok r, trace')
    end.

Definition get_image_metadata (uuid : string) : M (list ApiCall) ToolResult :=
  try_catch
    (response <- makeApiCall ("/api/image/" ++ uuid) no_options ;;
     data <- lift (normalize "Failed to get image metadata" response) ;;
     if is_object data
     then t <- lift (metadata_text data) ;; ret (text_result t)
     else ret (text_result (stringify2 data)))
    (fun e => ret (error_result e)).

Definition list_categories : M (list ApiCall) ToolResult :=
  try_catch
    (response <- makeApiCall "/api/category/list" no_options ;;
     data <- lift (normalize "Failed to list categories" response) ;;
     if isArray data
     then t <- lift (categories_text data) ;; ret (text_result t)
     else ret (text_result (stringify2 data)))
    (fun e => ret (error_result e)).

Definition get_resized_image (uuid size : string) : M (list ApiCall) ToolResult :=
  try_catch
    (response <- makeApiCall ("/api/image/s/" ++ uuid ++ "/" ++ size) no_options ;;
     data <- lift (normalize "Failed to get resized image URL" response) ;;
     if is_object data
     then t <- lift (resized_text uuid size data) ;; ret (text_result t)
     else ret (text_result (stringify2 data)))
    (fun e => ret (error_result e)).

(** The two upload tools repeat this body with the literal [true] or
    [false] in the path. *)
Definition upload (category filename flag : string) : M (list ApiCall) ToolResult :=
  try_catch
    (fileBuffer <- lift (readFile w filename) ;;
     response <- makeApiCall (upload_path category flag)
                   (post (Some (upload_form filename fileBuffer))) ;;
     data <- lift (normalize "Failed to upload image" response) ;;
     ret (text_result (stringify2 data)))
    (fun e => ret (error_result e)).

Definition upload_and_resize_image (category filename : string)
  : M (list ApiCall) ToolResult :=
  upload category filename "true".

Definition upload_image (category filename : string) : M (list ApiCall) ToolResult :=
  upload category filename "false".

(** The tools registered with the server. *)
Definition call_tool (call : Call) : M (list ApiCall) ToolResult :=
  match call with
  | GetImageMetadata uuid => get_image_metadata uuid
  | ListCategories => list_categories
  | GetResizedImage uuid size => get_resized_image uuid size
  | UploadAndResizeImage category filename => upload_and_resize_image category filename
  | UploadImage category filename => upload_image category filename
  end.

End Invocation.
End Server.

End Index.

(** ** The first variant *)

Module Basic.
Import Str Js.

(** A tool of this variant with its arguments. *)
Inductive Call : Type :=
| GetImageMetadata (uuid : string)
| GetResizedImage (uuid size : string)
| UploadAndResizeImage (category filename : string)
| UploadImage (category filename : string).

Section Server.
Variables baseUrl apiKey : string.
Variable JSON_parse : string -> Res JsValue.
Variable w : World.

Definition makeApiCall (endpoint : string) (options : Options)
  : M (list ApiCall) Response :=
  fun trace =>
    let trace' := (trace ++ [ {| endpoint := endpoint; options := options |} ])%list in
    match fetch w {| url := baseUrl ++ endpoint;
                     api_key_header := apiKey;
                     request_options := options |} with
    | Rejected e => (Throw e, trace')
    | Resolved r => (Ok r, trace')
    end.

(** The response checked and decoded: [response.json()] throws the
    engine's SyntaxError on a body that is not JSON. *)
Definition decoded (what : string) (response : Response) : Res JsValue :=
  if negb (ok response)
  then Throw (failed what response)
  else JSON_parse (body response).

Definition get_image_metadata (uuid : string) : M (list ApiCall) ToolResult :=
  try_catch
    (response <- makeApiCall ("/api/image/" ++ uuid) no_options ;;
     data <- lift (decoded "Failed to get image metadata" response) ;;
     ret (text_result (stringify2 data)))
    (fun e => ret (error_result e)).

(** The text of the block is [url || JSON.stringify(data, null, 2)]: a
    truthy [url] is passed on as it is, string or not. *)
Definition get_resized_image (uuid size : string) : M (list ApiCall) ToolResult :=
  try_catch
    (response <- makeApiCall ("/api/image/s/" ++ uuid ++ "/" ++ size) no_options ;;
     data <- lift (decoded "Failed to get resized image URL" response) ;;
     u <- lift (if is_object data && has_property "url" data
                then get data "url" else Ok JNull) ;;
     ret {| content := [ {| type := "text";
                            text := if truthy u then u else JStr (stringify2 data) |} ];
            isError := false |})
    (fun e => ret (error_result e)).

Definition upload (category filename flag : string) : M (list ApiCall) ToolResult :=
  try_catch
    (fileBuffer <- lift (readFile w filename) ;;
     response <- makeApiCall (Index.upload_path category flag)
                   (post (Some (upload_form filename fileBuffer))) ;;
     data <- lift (decoded "Failed to upload image" response) ;;
     ret (text_result (stringify2 data)))
    (fun e => ret (error_result e)).

Definition upload_and_resize_image (category filename : string)
  : M (list ApiCall) ToolResult :=
  upload category filename "true".

Definition upload_image (category filename : string) : M (list ApiCall) ToolResult :=
  upload category filename "false".

(** The tools registered with the server. *)
Definition call_tool (call : Call) : M (list ApiCall) ToolResult :=
  match call with
  | GetImageMetadata uuid => get_image_metadata uuid
  | GetResizedImage uuid size => get_resized_image uuid size
  | UploadAndResizeImage category filename => upload_and_resize_image category filename
  | UploadImage category filename => upload_image category filename
  end.

End Server.

End Basic.

(** ** Declarative readings used by the statements *)

Module Reading.
Import Str Js.

(** [v.k], for a [v] on which the access cannot throw. *)
Definition prop (v : JsValue) (k : string) : JsValue :=
  match get v k with Ok x => x | Throw _ => JUndefined end.

Definition items_of (v : JsValue) : list JsValue :=
  match v with JArr items => items | _ => [] end.

(** The categories getCategories takes sizes from: not null, with a
    truthy name and an array of sizes. *)
Definition eligible (category : JsValue) : bool :=
  truthy category && truthy (prop category "name") && isArray (prop category "sizes").

(** The sizes of the eligible categories, in iteration order. *)
Definition cached_sizes (categories : list JsValue) : list JsValue :=
  flat_map (fun c => if eligible c then items_of (prop c "sizes") else []) categories.


(** The key a size is stored under: its name as a property key. *)
Definition key_of (size : JsValue) : string := to_string (prop size "name").

(** A value whose properties can be read. *)
Definition has_name (size : JsValue) : bool :=
  match size with JUndefined | JNull => false | _ => true end.

(** A size the inner loop of getCategories can store: its name can be
    read and converts to a property key. *)
Definition storable (size : JsValue) : bool :=
  has_name size && printable (prop size "name").

(** The last size of [sizes] stored under [k]. *)
Fixpoint last_named (k : string) (sizes : list JsValue) : option JsValue :=
  match sizes with
  | [] => None
  | s :: rest =>
      match last_named k rest with
      | Some s' => Some s'
      | None => if String.eqb (key_of s) k then Some s else None
      end
  end.

(** What the inner loop of getCategories does to the cache for one size. *)
Definition store (acc : gmap string JsValue) (size : JsValue) : gmap string JsValue :=
  Cached.assign acc (key_of size) size.

(** Every call in [ws] enters within five minutes of the exit of the call
    before it (of [t] for the first), and the clock is past the epoch. *)
Fixpoint within_window (t : Z) (ws : list World) : Prop :=
  match ws with
  | [] => True
  | w :: ws' =>
      t_entry w - t <= Cached.fiveMinutesInMs /\ 0 < t_exit w /\ within_window (t_exit w) ws'
  end.

Definition size_list_call : ApiCall :=
  {| endpoint := "/api/size/list"; options := no_options |}.

(** What reaches [fetch] when the cache is refreshed. *)
Definition size_list_request (baseUrl apiKey : string) : Request :=
  {| url := baseUrl ++ "/api/size/list"; api_key_header := apiKey;
     request_options := no_options |}.

(** The refresh of the cache in world [w] fails at the transport or with a
    status that is not 2xx. *)
Definition refresh_fails (baseUrl apiKey : string) (w : World) : Prop :=
  match fetch w (size_list_request baseUrl apiKey) with
  | Rejected _ => True
  | Resolved r => ok r = false
  end.

(** What reaches [fetch] for a call of the HTTP wrapper. *)
Definition request (baseUrl apiKey : string) (c : ApiCall) : Request :=
  {| url := baseUrl ++ endpoint c; api_key_header := apiKey;
     request_options := options c |}.

(** The bytes the disk holds under [filename] (none where it cannot be
    read). *)
Definition bytes (w : World) (filename : string) : string :=
  match readFile w filename with Ok b => b | Throw _ => EmptyString end.

(** The upload of [filename] to [category]: the call both upload tools of
    all three variants make once the file is read. *)
Definition upload_call (w : World) (category filename flag : string) : ApiCall :=
  {| endpoint := "/api/image/" ++ category ++ "?forceImmediateResize=" ++ flag;
     options := {| method := Some "POST";
                   form := Some {| field := "image"; blob := bytes w filename;
                                   blob_type := "application/octet-stream";
                                   file_name := upload_name filename |} |} |}.

Definition get_call (path : string) : ApiCall :=
  {| endpoint := path; options := no_options |}.

(** The request of each tool, and the file it reads first. *)
Definition cached_call (w : World) (call : Cached.Call) : ApiCall :=
  match call with
  | Cached.GetImageMetadata id => get_call ("/api/image/" ++ id)
  | Cached.TranscodeImage id =>
      {| endpoint := "/api/image/" ++ id ++ "/transcode";
         options := {| method := Some "POST"; form := None |} |}
  | Cached.ListCategories => get_call "/api/size/list"
  | Cached.GetResizedImage id size => get_call ("/api/image/s/" ++ id ++ "/" ++ size)
  | Cached.UploadAndResizeImage category filename => upload_call w category filename "true"
  | Cached.UploadImage category filename => upload_call w category filename "false"
  end.

Definition cached_label (call : Cached.Call) : string :=
  match call with
  | Cached.GetImageMetadata _ => "Failed to get image metadata"
  | Cached.TranscodeImage _ => "Failed to transcode image"
  | Cached.ListCategories => EmptyString
  | Cached.GetResizedImage _ _ => "Failed to get resized image URL"
  | Cached.UploadAndResizeImage _ _ | Cached.UploadImage _ _ => "Failed to upload image"
  end.

Definition cached_file (call : Cached.Call) : option string :=
  match call with
  | Cached.UploadAndResizeImage _ filename | Cached.UploadImage _ filename => Some filename
  | _ => None
  end.

Definition index_call (w : World) (call : Index.Call) : ApiCall :=
  match call with
  | Index.GetImageMetadata uuid => get_call ("/api/image/" ++ uuid)
  | Index.ListCategories => get_call "/api/category/list"
  | Index.GetResizedImage uuid size => get_call ("/api/image/s/" ++ uuid ++ "/" ++ size)
  | Index.UploadAndResizeImage category filename => upload_call w category filename "true"
  | Index.UploadImage category filename => upload_call w category filename "false"
  end.

(** The words each tool of src/index.ts puts before the status. *)
Definition index_label (call : Index.Call) : string :=
  match call with
  | Index.GetImageMetadata _ => "Failed to get image metadata"
  | Index.ListCategories => "Failed to list categories"
  | Index.GetResizedImage _ _ => "Failed to get resized image URL"
  | Index.UploadAndResizeImage _ _ | Index.UploadImage _ _ => "Failed to upload image"
  end.

Definition index_file (call : Index.Call) : option string :=
  match call with
  | Index.UploadAndResizeImage _ filename | Index.UploadImage _ filename => Some filename
  | _ => None
  end.

Definition basic_call (w : World) (call : Basic.Call) : ApiCall :=
  match call with
  | Basic.GetImageMetadata uuid => get_call ("/api/image/" ++ uuid)
  | Basic.GetResizedImage uuid size => get_call ("/api/image/s/" ++ uuid ++ "/" ++ size)
  | Basic.UploadAndResizeImage category filename => upload_call w category filename "true"
  | Basic.UploadImage category filename => upload_call w category filename "false"
  end.

Definition basic_label (call : Basic.Call) : string :=
  match call with
  | Basic.GetImageMetadata _ => "Failed to get image metadata"
  | Basic.GetResizedImage _ _ => "Failed to get resized image URL"
  | Basic.UploadAndResizeImage _ _ | Basic.UploadImage _ _ => "Failed to upload image"
  end.

Definition basic_file (call : Basic.Call) : option string :=
  match call with
  | Basic.UploadAndResizeImage _ filename | Basic.UploadImage _ filename => Some filename
  | _ => None
  end.

(** The file a tool needs, if any, can be read. *)
Definition readable (w : World) (file : option string) : Prop :=
  match file with
  | Some filename => exists b, readFile w filename = Ok b
  | None => True
  end.

(** The failure modes of a tool that reads [file] and then sends [c]:
    the file cannot be read, the transport fails, the status is not 2xx, or
    the body of a 2xx response is not JSON. *)
Inductive Fails (baseUrl apiKey : string) (JSON_parse : string -> Res JsValue)
  (w : World) (file : option string) (c : ApiCall) : Prop :=
| file_read_error filename e :
    file = Some filename -> readFile w filename = Throw e ->
    Fails baseUrl apiKey JSON_parse w file c
| transport_error e :
    readable w file -> fetch w (request baseUrl apiKey c) = Rejected e ->
    Fails baseUrl apiKey JSON_parse w file c
| bad_status r :
    readable w file -> fetch w (request baseUrl apiKey c) = Resolved r -> ok r = false ->
    Fails baseUrl apiKey JSON_parse w file c
| bad_body r e :
    readable w file -> fetch w (request baseUrl apiKey c) = Resolved r -> ok r = true ->
    JSON_parse (body r) = Throw e ->
    Fails baseUrl apiKey JSON_parse w file c.

(** The requests a tool may add after its own: none, or the refresh of the
    size cache. *)
Definition refresh_only (rest : list ApiCall) : Prop :=
  rest = [] \/ rest = [size_list_call].

(** The shape of the result of a catch block. *)
Definition error_shaped (res : ToolResult) : Prop :=
  exists message,
    content res = [ {| type := "text"; text := "Error: " ++ message |} ]
    /\ isError res = true.

(** The body has a [<pre>] block with the content [inner]. *)
Definition has_pre_block (inner text : string) : Prop :=
  exists before after, text = before ++ "<pre>" ++ inner ++ "</pre>" ++ after.

End Reading.

(** ** Worlds and bodies the examples run in *)

Module Scenario.
Import Str Js.

Definition baseUrl : string := "http://images.test".
Definition apiKey : string := "key".

Definition response (code : Z) (ctype : option string) (text : string) : Response :=
  {| status := code; statusText := EmptyString; content_type := ctype; body := text |}.

(** A world whose network answers every request with [o], whose disk holds
    no file, and whose clock reads [t] on entry and [t + 1], [t + 2] after. *)
Definition world (o : Outcome) (t : Z) : World :=
  {| fetch := fun _ => o; readFile := fun _ => Throw "ENOENT: no such file or directory";
     t_entry := t; t_update := t + 1; t_exit := t + 2 |}.

(** The same world with every file holding [bytes]. *)
Definition with_file (bytes : string) (w : World) : World :=
  {| fetch := fetch w; readFile := fun _ => Ok bytes;
     t_entry := t_entry w; t_update := t_update w; t_exit := t_exit w |}.

Definition offline (t : Z) : World := world (Rejected "fetch failed") t.

Definition online (text : string) (t : Z) : World :=
  world (Resolved (response 200 (Some "application/json") text)) t.

Definition str (s : string) : string := dq ++ s ++ dq.

Definition size_json (name : string) (width height : string) : string :=
  "{" ++ str "name" ++ ":" ++ str name ++ "," ++ str "width" ++ ":" ++ width ++ ","
    ++ str "height" ++ ":" ++ height ++ "," ++ str "mimeType" ++ ":" ++ str "image/png" ++ "}".

Definition category_json (name : string) (sizes : string) : string :=
  "{" ++ str "name" ++ ":" ++ str name ++ "," ++ str "sizes" ++ ":[" ++ sizes ++ "]}".

(** Two categories: avatars with one size, banners with none. *)
Definition two_categories : string :=
  "[" ++ category_json "avatars" (size_json "thumb" "64" "48") ++ ","
      ++ category_json "banners" EmptyString ++ "]".

(** One category without a name, holding the size thumb. *)
Definition unnamed_category : string :=
  "[" ++ category_json EmptyString (size_json "thumb" "64" "48") ++ "]".

(** The network serves [two_categories]. *)
Definition online_at (t : Z) : World := online two_categories t.

Definition thumb : JsValue :=
  JObj [("name", JStr "thumb"); ("width", JNum 64); ("height", JNum 48);
        ("mimeType", JStr "image/png")].

(** What [two_categories] and [unnamed_category] decode to. *)
Definition two_categories_value : list JsValue :=
  [ JObj [("name", JStr "avatars"); ("sizes", JArr [thumb])];
    JObj [("name", JStr "banners"); ("sizes", JArr [])] ].

Definition unnamed_category_value : list JsValue :=
  [ JObj [("name", JStr EmptyString); ("sizes", JArr [thumb])] ].

(** A populated cache, last read at 1002 ms. *)
Definition populated : Cached.State :=
  snd (Cached.getSizeCache baseUrl apiKey Json.parse (online_at 1000) Cached.initial).

Definition not_found_body : string := "{" ++ str "error" ++ ":" ++ str "not found" ++ "}".

Definition not_found_pretty : string :=
  "{" ++ nl ++ "  " ++ str "error" ++ ": " ++ str "not found" ++ nl ++ "}".

Definition internal_error_page : string := "<html><pre>Internal Error</pre></html>".

(** A page whose block needs decoding. *)
Definition busy_page : string :=
  "<body><pre>  Error:&nbsp;can&#39;t<br/>open <br >file <pre>x</pre> </pre></body>".

Definition not_found : Response := response 404 (Some "application/json") not_found_body.

Definition internal_error : Response := response 500 (Some "text/html") internal_error_page.

(** A failed response whose content type names both kinds. *)
Definition mixed_error : Response :=
  response 500 (Some "text/html, application/json") internal_error_page.

Definition garbled : Response := response 200 (Some "application/json") "not json".

(** The metadata of an uploaded image with one resized file. *)
Definition uploaded_body : string :=
  "{" ++ str "id" ++ ":" ++ str "i1" ++ "," ++ str "category" ++ ":" ++ str "avatars" ++ ","
    ++ str "resizedFiles" ++ ":[{" ++ str "size" ++ ":" ++ str "thumb" ++ "}]}".

(** The disk holds the file, the size list is served under its path and the
    metadata under every other. *)
Definition uploading : World :=
  {| fetch := fun q =>
       if includes "/api/size/list" (url q)
       then Resolved (response 200 (Some "application/json") two_categories)
       else Resolved (response 201 (Some "application/json") uploaded_body);
     readFile := fun _ => Ok "PNG";
     t_entry := 1000; t_update := 1001; t_exit := 1002 |}.

End Scenario.

(** ** The start of the server *)

Module Startup.
Import Str.

(** How [main] goes on once the configuration is read. *)
Inductive Outcome : Type :=
| Exits (code : Z)
| Serves.

(** The check every variant makes on the base URL before it creates the
    server: [baseUrl.trim() === ""] prints the usage and ends the process
    with status 1. *)
Definition main (baseUrl : string) : Outcome :=
  if String.eqb (trim baseUrl) EmptyString then Exits 1 else Serves.

(** Every code unit of [s] is white space. *)
Fixpoint blank (s : string) : bool :=
  match s with
  | EmptyString => true
  | String c s' => is_ws c && blank s'
  end.

(** The first and the last code unit of a text, if any. *)
Definition first_unit (s : string) : option ascii :=
  match s with
  | EmptyString => None
  | String c _ => Some c
  end.

Fixpoint last_unit (s : string) : option ascii :=
  match s with
  | EmptyString => None
  | String c EmptyString => Some c
  | String _ s' => last_unit s'
  end.

End Startup.

(** ** How the tools of the cached variant move the state *)

Module Frame.
Import Str Js Cached.

(** The state is moved by three assignments only: a call is added to the
    trace, a rebuilt cache is stored with the time of the refresh, the time
    of the last access is set. *)
Inductive Evolves : State -> State -> Prop :=
| evolves_done st : Evolves st st
| evolves_log c st st' : Evolves (log_call c st) st' -> Evolves st st'
| evolves_store m t st st' : Evolves (store_cache m t st) st' -> Evolves st st'
| evolves_touch t st st' : Evolves (touch t st) st' -> Evolves st st'.

(** A computation that moves the state by these assignments only. *)
Definition evolving {A} (m : M State A) : Prop :=
  forall st, Evolves st (snd (m st)).

(** The cache and the time of its last refresh are set together. *)
Definition paired (st : State) : Prop :=
  sizeCache st = None <-> lastUpdatedAt st = None.

(** The cache is populated and was read within the last five minutes
    before [now]. *)
Definition fresh (st : State) (now : Z) : Prop :=
  exists c t,
    sizeCache st = Some c /\ lastAccessedAt st = Some t
    /\ 0 < t /\ now - t <= fiveMinutesInMs.

(** Successive tool calls, one world each. *)
Fixpoint run_tools (baseUrl apiKey : string) (JSON_parse : string -> Res JsValue)
  (steps : list (World * Call)) (st : State) : State :=
  match steps with
  | [] => st
  | (w, call) :: steps' =>
      run_tools baseUrl apiKey JSON_parse steps'
        (snd (call_tool baseUrl apiKey JSON_parse w call st))
  end.

(** The tools that hand the decoded answer of their request to
    buildImageMetadataResponseText as it is. *)
Definition formats_answer (call : Call) : bool :=
  match call with
  | GetImageMetadata _ | TranscodeImage _ => true
  | _ => false
  end.

End Frame.

(** ** The values a template literal can print *)

Module Shape.
Import Str Js.

(** No object of [v] has a property named toString.  A template literal
    prints an object through its toString method; an object decoded from
    JSON with a property of that name hides the method of the prototype
    behind a value that cannot be called, and the conversion throws.
    [to_string] is the conversion on the values that are [plain]. *)
Fixpoint plain (v : JsValue) : bool :=
  match v with
  | JArr items => forallb plain items
  | JObj fields =>
      forallb (fun '(k, x) => negb (String.eqb k "toString") && plain x) fields
  | _ => true
  end.

End Shape.

(** ** More worlds and bodies for the examples *)

Module Cases.
Import Str Js.

(** A size list whose second category holds a null among its sizes. *)
Definition broken_sizes : string :=
  "[" ++ Scenario.category_json "avatars" (Scenario.size_json "thumb" "64" "48") ++ ","
      ++ Scenario.category_json "banners" "null" ++ "]".

Definition broken_sizes_value : list JsValue :=
  [ JObj [("name", JStr "avatars"); ("sizes", JArr [Scenario.thumb])];
    JObj [("name", JStr "banners"); ("sizes", JArr [JNull])] ].

(** The metadata of an image without resized files. *)
Definition plain_body : string :=
  "{" ++ Scenario.str "id" ++ ":" ++ Scenario.str "i1" ++ ","
    ++ Scenario.str "category" ++ ":" ++ Scenario.str "avatars" ++ "}".

Definition plain_value : JsValue :=
  JObj [("id", JStr "i1"); ("category", JStr "avatars")].

Definition uploaded_value : JsValue :=
  JObj [("id", JStr "i1"); ("category", JStr "avatars");
        ("resizedFiles", JArr [JObj [("size", JStr "thumb")]])].

(** An upload answered without an id. *)
Definition anonymous_body : string :=
  "{" ++ Scenario.str "category" ++ ":" ++ Scenario.str "avatars" ++ "}".

Definition anonymous_value : JsValue := JObj [("category", JStr "avatars")].

(** The answer of the resized-image endpoint. *)
Definition url_body : string :=
  "{" ++ Scenario.str "url" ++ ":" ++ Scenario.str "https://x/y" ++ ","
    ++ Scenario.str "expires" ++ ":60}".

Definition url_value : JsValue := JObj [("url", JStr "https://x/y"); ("expires", JNum 60)].

(** The category avatars followed by a null. *)
Definition avatars_then_null : string :=
  "[" ++ Scenario.category_json "avatars" (Scenario.size_json "thumb" "64" "48")
      ++ ",null]".

Definition avatars_then_null_value : list JsValue :=
  [ JObj [("name", JStr "avatars"); ("sizes", JArr [Scenario.thumb])]; JNull ].

(** One category with a name and no sizes. *)
Definition bare_category : string :=
  "[{" ++ Scenario.str "name" ++ ":" ++ Scenario.str "avatars" ++ "}]".

Definition bare_category_value : list JsValue := [ JObj [("name", JStr "avatars")] ].

(** An answer of the resized-image endpoint whose url is a number. *)
Definition numeric_url_body : string := "{" ++ Scenario.str "url" ++ ":5}".

Definition numeric_url_value : JsValue := JObj [("url", JNum 5)].

(** A size list with a size whose name is an object with a property named
    toString. *)
Definition unprintable_sizes : string :=
  "[" ++ Scenario.category_json "avatars"
           ("{" ++ Scenario.str "name" ++ ":{" ++ Scenario.str "toString" ++ ":1}}")
      ++ "]".

Definition unprintable_sizes_value : list JsValue :=
  [ JObj [("name", JStr "avatars");
          ("sizes", JArr [JObj [("name", JObj [("toString", JNum 1)])]])] ].

(** The network answers every request with a 200 carrying [text]; the disk
    holds the bytes PNG under every name. *)
Definition serving (text : string) (t : Z) : World :=
  Scenario.with_file "PNG" (Scenario.online text t).

End Cases.

(** * Strings *)

#[local] Arguments String.append !_ _ : simpl nomatch.

Section StringFacts.
Import Str.

Lemma append_nil_r s : s ++ EmptyString = s.
Proof. induction s as [| c s IH]; simpl; [reflexivity | now rewrite IH]. Qed.

Lemma append_assoc a b c : (a ++ b) ++ c = a ++ (b ++ c).
Proof. induction a as [| x a IH]; simpl; [reflexivity | now rewrite IH]. Qed.

Lemma length_append a b : String.length (a ++ b) = (String.length a + String.length b)%nat.
Proof. induction a as [| x a IH]; simpl; [reflexivity | now rewrite IH]. Qed.

Lemma drop_append p x : drop (String.length p) (p ++ x) = x.
Proof. induction p as [| c p IH]; simpl; [now destruct x | exact IH]. Qed.

Lemma drop_append_le p x : forall k,
  (k <= String.length p)%nat -> drop k (p ++ x) = drop k p ++ x.
Proof.
  induction p as [| c p IH]; intros k Hk; simpl in *.
  - assert (k = O) by lia. subst. now destruct x.
  - destruct k as [| k]; [reflexivity |]. simpl. apply IH. lia.
Qed.

Lemma drop_append_ge p x : forall k,
  (String.length p <= k)%nat -> drop k (p ++ x) = drop (k - String.length p) x.
Proof.
  induction p as [| c p IH]; intros k Hk; simpl in *.
  - now rewrite Nat.sub_0_r.
  - destruct k as [| k]; [lia |]. simpl. apply IH. lia.
Qed.

Lemma drop_suffix x : forall k, exists p, x = p ++ drop k x.
Proof.
  induction x as [| c x IH]; intros k.
  - exists EmptyString. now destruct k.
  - destruct k as [| k]; simpl.
    + now exists EmptyString.
    + destruct (IH k) as [p Hp]. exists (String c p). simpl. now rewrite <- Hp.
Qed.

Lemma starts_with_true p s : starts_with p s = true <-> exists r, s = p ++ r.
Proof.
  revert s. induction p as [| c p IH]; intros s; simpl.
  - split; [intros _; now exists s | reflexivity].
  - destruct s as [| d s]; simpl.
    + split; [discriminate | intros [r Hr]; discriminate].
    + rewrite andb_true_iff, IH. split.
      * intros [Hc [r ->]]. apply Ascii.eqb_eq in Hc as ->. now exists r.
      * intros [r [= -> ->]]. split; [apply Ascii.eqb_refl | now exists r].
Qed.

Lemma starts_with_append p r : starts_with p (p ++ r) = true.
Proof. apply starts_with_true. now exists r. Qed.

Lemma starts_with_drop p s :
  starts_with p s = true -> s = p ++ drop (String.length p) s.
Proof.
  intros Hs. apply starts_with_true in Hs as [r ->]. now rewrite drop_append.
Qed.

(** [split_at] cuts the text around an occurrence of the needle. *)
Lemma split_at_Some needle : forall s a b,
  split_at needle s = Some (a, b) -> s = a ++ needle ++ b.
Proof.
  induction s as [| c s IH]; intros a b; simpl.
  - destruct (starts_with needle EmptyString) eqn:Hs; [| discriminate].
    intros [= <- <-]. now apply starts_with_drop.
  - destruct (starts_with needle (String c s)) eqn:Hs.
    + intros [= <- <-]. now apply starts_with_drop.
    + destruct (split_at needle s) as [[a' b'] |]; [| discriminate].
      intros [= <- <-]. simpl. f_equal. now apply IH.
Qed.

(** ... and that occurrence is the first one. *)
Lemma split_at_first needle : forall s a b a' b',
  split_at needle s = Some (a, b) -> s = a' ++ needle ++ b' ->
  (String.length a <= String.length a')%nat.
Proof.
  induction s as [| c s IH]; intros a b a' b'; simpl.
  - destruct (starts_with needle EmptyString); [| discriminate].
    intros [= <- <-] _. simpl. lia.
  - destruct (starts_with needle (String c s)) eqn:Hs.
    + intros [= <- <-] _. simpl. lia.
    + destruct (split_at needle s) as [[a0 b0] |] eqn:Hsp; [| discriminate].
      intros [= <- <-] Heq.
      destruct a' as [| c' a']; simpl in Heq.
      * rewrite Heq, starts_with_append in Hs. discriminate.
      * injection Heq as -> ->. simpl.
        specialize (IH a0 b0 a' b' eq_refl eq_refl). lia.
Qed.

Lemma split_at_None needle : forall s a b,
  split_at needle s = None -> s <> a ++ needle ++ b.
Proof.
  induction s as [| c s IH]; intros a b; simpl.
  - destruct (starts_with needle EmptyString) eqn:Hs; [discriminate |].
    intros _ Heq. destruct a; simpl in Heq.
    + rewrite Heq, starts_with_append in Hs. discriminate.
    + discriminate.
  - destruct (starts_with needle (String c s)) eqn:Hs; [discriminate |].
    destruct (split_at needle s) as [[a0 b0] |] eqn:Hsp; [discriminate |].
    intros _ Heq. destruct a as [| c' a]; simpl in Heq.
    + rewrite Heq, starts_with_append in Hs. discriminate.
    + injection Heq as -> Heq. now apply (IH a b).
Qed.

Lemma includes_true needle s : includes needle s = true <-> Substr needle s.
Proof.
  unfold includes, Substr. destruct (split_at needle s) as [[a b] |] eqn:Hs.
  - split; [intros _ | reflexivity]. exists a, b. now apply split_at_Some.
  - split; [discriminate |]. intros (p & q & Heq).
    now apply (split_at_None needle s p q) in Hs.
Qed.

(** Two ways of cutting one text: the shorter head is a prefix of the
    longer one. *)
Lemma append_eq_prefix : forall a x b y,
  a ++ x = b ++ y -> (String.length a <= String.length b)%nat ->
  exists d, b = a ++ d /\ x = d ++ y.
Proof.
  induction a as [| c a IH]; intros x b y Heq Hlen; simpl in *.
  - now exists b.
  - destruct b as [| c' b]; simpl in *; [lia |].
    injection Heq as -> Heq.
    destruct (IH x b y Heq) as (d & -> & ->); [lia |]. now exists d.
Qed.

End StringFacts.

Section PreBlock.
Import Str Reading Index.

Lemma Substr_drop needle p x k :
  Substr needle x -> (k <= String.length p)%nat -> Substr needle (drop k (p ++ x)).
Proof.
  intros (a & b & ->) Hk. rewrite drop_append_le by assumption.
  exists (drop k p ++ a), b. now rewrite append_assoc.
Qed.

(** The capture is the content of a block of the text: the block that opens
    at the first [<pre>] and closes at the first [</pre>] after it. *)
Lemma match_pre_Some t inner :
  match_pre t = Some inner ->
  has_pre_block inner t
  /\ ~ Substr "</pre>" inner
  /\ forall before rest, t = before ++ "<pre>" ++ rest ->
       exists before0 after0,
         t = before0 ++ "<pre>" ++ inner ++ "</pre>" ++ after0
         /\ (String.length before0 <= String.length before)%nat.
Proof.
  unfold match_pre, has_pre_block.
  destruct (split_at "<pre>" t) as [[a rest] |] eqn:Ha; [| discriminate].
  destruct (split_at "</pre>" rest) as [[i after] |] eqn:Hi; [| discriminate].
  intros [= ->].
  pose proof (split_at_Some _ _ _ _ Ha) as Ht.
  pose proof (split_at_Some _ _ _ _ Hi) as Hrest.
  split; [| split].
  - exists a, after. now rewrite Ht, Hrest.
  - intros (p & q & Hin).
    assert (Hlen : (String.length inner <= String.length p)%nat).
    { apply (split_at_first "</pre>" rest inner after p (q ++ "</pre>" ++ after) Hi).
      rewrite Hrest, Hin. now rewrite !append_assoc. }
    apply (f_equal String.length) in Hin. rewrite !length_append in Hin. simpl in Hin. lia.
  - intros before r Hbefore. exists a, after. split; [now rewrite Ht, Hrest |].
    eapply split_at_first; eauto.
Qed.

(** No capture: the text has no block at all. *)
Lemma match_pre_None t :
  match_pre t = None -> forall inner, ~ has_pre_block inner t.
Proof.
  unfold match_pre, has_pre_block. intros Hnone inner (before & after & Ht).
  destruct (split_at "<pre>" t) as [[a rest] |] eqn:Ha.
  - destruct (split_at "</pre>" rest) as [[i r] |] eqn:Hi; [discriminate |].
    pose proof (split_at_Some _ _ _ _ Ha) as Ht'.
    assert (Hlen : (String.length a <= String.length before)%nat)
      by (eapply split_at_first; eauto).
    rewrite Ht in Ht'.
    destruct (append_eq_prefix a ("<pre>" ++ rest) before
                ("<pre>" ++ inner ++ "</pre>" ++ after)) as (d & _ & Hd);
      [now symmetry | assumption |].
    assert (Hsub : Substr "</pre>" rest).
    { replace rest with (drop 5 ("<pre>" ++ rest)) by reflexivity. rewrite Hd.
      destruct (le_lt_dec 5 (String.length d)) as [Hge | Hlt].
      - rewrite drop_append_le by assumption.
        exists (drop 5 d ++ "<pre>" ++ inner), after. now rewrite !append_assoc.
      - rewrite drop_append_ge by lia.
        apply (Substr_drop "</pre>" "<pre>"); [| simpl; lia].
        now exists inner, after. }
    destruct Hsub as (p & q & Hpq). now apply (split_at_None _ _ p q) in Hi.
  - now apply (split_at_None _ _ before (inner ++ "</pre>" ++ after)) in Ha.
Qed.

End PreBlock.

(** * The size cache *)

Section StaleFacts.
Import Str Js Reading Cached.

Lemma iterate_not_null v items : iterate v = Ok items -> v <> JNull.
Proof. destruct v; simpl; congruence. Qed.

Lemma stale_iff st now :
  stale st now = true <->
  sizeCache st = None
  \/ lastAccessedAt st = None
  \/ lastAccessedAt st = Some 0
  \/ exists t, lastAccessedAt st = Some t /\ now - t > fiveMinutesInMs.
Proof.
  unfold stale.
  destruct (sizeCache st) as [c |]; [| tauto].
  destruct (lastAccessedAt st) as [t |]; [| tauto].
  rewrite orb_true_iff, Z.eqb_eq, Z.gtb_ltb, Z.ltb_lt.
  split.
  - intros [-> | H]; [tauto |]. right; right; right. exists t. split; [reflexivity | lia].
  - intros [H | [H | [H | (t' & H & Hlt)]]]; try discriminate.
    + left. congruence.
    + right. injection H as ->. lia.
Qed.

Lemma fresh_not_stale st now c t :
  sizeCache st = Some c -> lastAccessedAt st = Some t -> 0 < t ->
  now - t <= fiveMinutesInMs -> stale st now = false.
Proof.
  intros Hc Ht Hpos Hle. unfold stale. rewrite Hc, Ht.
  apply orb_false_iff. split; [apply Z.eqb_neq; lia |].
  rewrite Z.gtb_ltb. apply Z.ltb_ge. lia.
Qed.

End StaleFacts.

Section CacheFacts.
Import Str Js Reading Cached.
Variables baseUrl apiKey : string.
Variable JSON_parse : string -> Res JsValue.

Local Abbreviation getCategories := (Cached.getCategories baseUrl apiKey JSON_parse).
Local Abbreviation getSizeCache := (Cached.getSizeCache baseUrl apiKey JSON_parse).
Local Abbreviation gets := (Cached.gets baseUrl apiKey JSON_parse).

(** getCategories never throws: it answers null and leaves the variables
    alone, or answers the categories and stores a cache built from them. *)
Lemma getCategories_cases w st :
  getCategories w st = (Ok JNull, log_call size_list_call st)
  \/ exists v m, v <> JNull
       /\ getCategories w st
          = (Ok v, store_cache m (t_update w) (log_call size_list_call st)).
Proof.
  unfold Cached.getCategories, Cached.getCategories_try, try_catch, bind,
    Cached.makeApiCall, Cached.json, lift, read, write, ret.
  fold size_list_call.
  destruct (fetch w _) as [e | r]; [now left |].
  destruct (ok r); simpl; [| now left].
  destruct (JSON_parse (body r)) as [v | e]; [| now left].
  destruct (iterate v) as [items | e] eqn:Hit; [| now left].
  destruct (rfold items ∅ add_sizes) as [m | e]; [| now left].
  right. exists v, m. split; [eapply iterate_not_null; eauto | reflexivity].
Qed.

Lemma getCategories_fails w st :
  refresh_fails baseUrl apiKey w ->
  getCategories w st = (Ok JNull, log_call size_list_call st).
Proof.
  unfold refresh_fails, size_list_request, Cached.getCategories,
    Cached.getCategories_try, try_catch, bind, Cached.makeApiCall, ret.
  fold size_list_call.
  destruct (fetch w _) as [e | r]; [reflexivity |].
  intros ->. reflexivity.
Qed.

(** getSizeCache computed: the state it leaves and the value it returns. *)
Lemma getSizeCache_eq w st :
  getSizeCache w st =
    let st1 := if stale st (t_entry w) then snd (getCategories w st) else st in
    (Ok (sizeCache st1), touch (t_exit w) st1).
Proof.
  unfold Cached.getSizeCache, bind, read, write, ret. simpl.
  destruct (stale st (t_entry w)); [| reflexivity].
  destruct (getCategories_cases w st) as [H | (v & m & _ & H)];
    unfold getCategories in *; rewrite H; reflexivity.
Qed.

Lemma getCategories_calls w st :
  calls (snd (getCategories w st)) = (calls st ++ [size_list_call])%list.
Proof.
  destruct (getCategories_cases w st) as [H | (v & m & _ & H)]; rewrite H; reflexivity.
Qed.

Lemma getSizeCache_calls w st :
  calls (snd (getSizeCache w st))
  = (calls st ++ (if stale st (t_entry w) then [size_list_call] else []))%list.
Proof.
  rewrite getSizeCache_eq. simpl.
  destruct (stale st (t_entry w)); simpl.
  - apply getCategories_calls.
  - now rewrite app_nil_r.
Qed.

Lemma getSizeCache_accessed w st :
  lastAccessedAt (snd (getSizeCache w st)) = Some (t_exit w).
Proof. rewrite getSizeCache_eq. reflexivity. Qed.

(** A call inside the window, on a populated cache, keeps the cache and
    makes no request. *)
Lemma getSizeCache_fresh w st c t :
  sizeCache st = Some c -> lastAccessedAt st = Some t -> 0 < t ->
  t_entry w - t <= fiveMinutesInMs ->
  getSizeCache w st = (Ok (Some c), touch (t_exit w) st).
Proof.
  intros Hc Ht Hpos Hle. rewrite getSizeCache_eq.
  rewrite (fresh_not_stale st (t_entry w) c t) by assumption.
  simpl. now rewrite Hc.
Qed.

Lemma gets_fresh ws : forall st c t,
  sizeCache st = Some c -> lastAccessedAt st = Some t -> 0 < t ->
  within_window t ws ->
  calls (gets ws st) = calls st
  /\ sizeCache (gets ws st) = Some c
  /\ lastUpdatedAt (gets ws st) = lastUpdatedAt st.
Proof.
  induction ws as [| w ws IH]; intros st c t Hc Ht Hpos Hw; simpl.
  - now repeat split.
  - destruct Hw as (Hle & Hexit & Hrest).
    rewrite (getSizeCache_fresh w st c t) by assumption. simpl.
    destruct (IH (touch (t_exit w) st) c (t_exit w)) as (H1 & H2 & H3); auto.
Qed.

End CacheFacts.

Section RebuildFacts.
Import Str Js Reading Cached.

Lemma get_has_name size k : has_name size = true -> get size k = Ok (prop size k).
Proof. unfold prop. destruct size; simpl; congruence. Qed.

Lemma storable_has_name size : storable size = true -> has_name size = true.
Proof. unfold storable. intros H. now apply andb_true_iff in H as [H _]. Qed.

Lemma storable_key size :
  storable size = true ->
  (name <~ get size "name" ;; to_string_or_throw name) = Ok (key_of size).
Proof.
  unfold storable, key_of, to_string_or_throw. intros H.
  apply andb_true_iff in H as [Hn Hp].
  rewrite (get_has_name size "name" Hn). cbn [rbind]. now rewrite Hp.
Qed.

Lemma rfold_store sizes : forall acc,
  Forall (fun s => storable s = true) sizes ->
  rfold sizes acc
    (fun acc size =>
       name <~ get size "name" ;;
       key <~ to_string_or_throw name ;;
       Ok (assign acc key size))
  = Ok (foldl store acc sizes).
Proof.
  induction sizes as [| s sizes IH]; intros acc Hall; simpl; [reflexivity |].
  inversion Hall as [| ? ? Hs Hrest]; subst.
  pose proof (storable_key s Hs) as Hkey.
  destruct (get s "name") as [name |]; cbn [rbind] in *; [| discriminate].
  rewrite Hkey. cbn [rbind]. now rewrite IH.
Qed.

Lemma add_sizes_eq acc category :
  Forall (fun s => storable s = true) (cached_sizes [category]) ->
  add_sizes acc category = Ok (foldl store acc (cached_sizes [category])).
Proof.
  unfold cached_sizes, eligible, add_sizes. simpl. rewrite app_nil_r.
  destruct (truthy category) eqn:Ht; simpl; [| reflexivity].
  assert (Hn : has_name category = true) by (destruct category; simpl in *; congruence).
  rewrite !(get_has_name category _ Hn). simpl.
  destruct (truthy (prop category "name")); simpl; [| reflexivity].
  destruct (prop category "sizes") as [| | | | | items |]; simpl; try reflexivity.
  apply rfold_store.
Qed.

Lemma cached_sizes_cons c cats :
  cached_sizes (c :: cats) = (cached_sizes [c] ++ cached_sizes cats)%list.
Proof. unfold cached_sizes. simpl. now rewrite app_nil_r. Qed.

Lemma rfold_add_sizes cats : forall acc,
  Forall (fun s => storable s = true) (cached_sizes cats) ->
  rfold cats acc add_sizes = Ok (foldl store acc (cached_sizes cats)).
Proof.
  induction cats as [| c cats IH]; intros acc Hall; [reflexivity |].
  rewrite cached_sizes_cons in *. apply Forall_app in Hall as [Hc Hrest].
  cbn [rfold]. rewrite (add_sizes_eq acc c Hc). cbn [rbind].
  rewrite (IH _ Hrest). now rewrite foldl_app.
Qed.

Lemma last_named_app k xs ys :
  last_named k (xs ++ ys) =
  match last_named k ys with Some s => Some s | None => last_named k xs end.
Proof.
  induction xs as [| x xs IH]; simpl.
  - now destruct (last_named k ys).
  - rewrite IH. destruct (last_named k ys); [reflexivity |].
    reflexivity.
Qed.


Lemma foldl_store_proto sizes : forall acc,
  foldl store acc sizes !! "__proto__" = acc !! "__proto__".
Proof.
  induction sizes as [| s sizes IH]; intros acc; simpl; [reflexivity |].
  rewrite IH. unfold store, assign.
  destruct (String.eqb_spec (key_of s) "__proto__") as [Hp | Hp]; [reflexivity |].
  now apply lookup_insert_ne.
Qed.


Lemma last_named_key k sizes s : last_named k sizes = Some s -> s ∈ sizes /\ key_of s = k.
Proof.
  induction sizes as [| x sizes IH]; simpl; [discriminate |].
  destruct (last_named k sizes) as [s' |].
  - intros [= ->]. destruct IH as [H1 H2]; [reflexivity |].
    split; [now apply list_elem_of_further | assumption].
  - destruct (String.eqb_spec (key_of x) k); [| discriminate].
    intros [= ->]. split; [apply list_elem_of_here | assumption].
Qed.

Lemma rfold_store_throws sizes : forall acc,
  Exists (fun s => storable s = false) sizes ->
  exists e,
    rfold sizes acc
      (fun acc size =>
         name <~ get size "name" ;;
         key <~ to_string_or_throw name ;;
         Ok (assign acc key size))
    = Throw e.
Proof.
  induction sizes as [| s sizes IH]; intros acc Hex; [inversion Hex |].
  cbn [rfold]. destruct (storable s) eqn:Hs.
  - pose proof (storable_key s Hs) as Hkey.
    destruct (get s "name") as [name |]; cbn [rbind] in *; [| discriminate].
    rewrite Hkey. cbn [rbind]. apply IH.
    inversion Hex as [? ? Hbad | ? ? Hrest]; subst; [congruence | assumption].
  - unfold storable in Hs. destruct (has_name s) eqn:Hn.
    + rewrite (get_has_name s "name" Hn). cbn [rbind andb] in *.
      unfold to_string_or_throw. rewrite Hs. cbn [rbind]. eauto.
    + destruct s; try discriminate; cbn; eauto.
Qed.

Lemma add_sizes_throws acc category :
  Exists (fun s => storable s = false) (cached_sizes [category]) ->
  exists e, add_sizes acc category = Throw e.
Proof.
  unfold cached_sizes, eligible, add_sizes. simpl. rewrite app_nil_r.
  destruct (truthy category) eqn:Ht; simpl; [| intros H; inversion H].
  assert (Hn : has_name category = true) by (destruct category; simpl in *; congruence).
  rewrite !(get_has_name category _ Hn). simpl.
  destruct (truthy (prop category "name")); simpl; [| intros H; inversion H].
  destruct (prop category "sizes") as [| | | | | items |]; simpl;
    try (intros H; inversion H; fail).
  apply rfold_store_throws.
Qed.

Lemma rfold_add_sizes_throws categories : forall acc,
  Exists (fun s => storable s = false) (cached_sizes categories) ->
  exists e, rfold categories acc add_sizes = Throw e.
Proof.
  induction categories as [| c categories IH]; intros acc Hex; [inversion Hex |].
  rewrite cached_sizes_cons in Hex. cbn [rfold].
  destruct (Forall_Exists_dec (fun s => storable s = true) (fun s => storable s = false)
              (fun s => sumbool_of_bool (storable s)) (cached_sizes [c])) as [Hall | Hbad].
  - rewrite (add_sizes_eq acc c Hall). cbn [rbind]. apply IH.
    apply Exists_app in Hex as [Hex | Hex]; [| assumption].
    exfalso. apply Exists_exists in Hex as (s & Hin & Hs).
    rewrite Forall_forall in Hall. specialize (Hall s Hin). congruence.
  - destruct (add_sizes_throws acc c Hbad) as [e ->]. cbn. eauto.
Qed.

Lemma unnamed_is_unstorable sizes :
  Exists (fun s => has_name s = false) sizes ->
  Exists (fun s => storable s = false) sizes.
Proof.
  intros H. eapply Exists_impl; [exact H |].
  intros s Hs. unfold storable. now rewrite Hs.
Qed.

End RebuildFacts.

Section CacheTheorems.
Import Str Js Reading Cached.
Variables baseUrl apiKey : string.
Variable JSON_parse : string -> Res JsValue.

Local Abbreviation getCategories := (Cached.getCategories baseUrl apiKey JSON_parse).
Local Abbreviation getSizeCache := (Cached.getSizeCache baseUrl apiKey JSON_parse).
Local Abbreviation gets := (Cached.gets baseUrl apiKey JSON_parse).

(** A refresh that succeeds, computed. *)
Lemma getCategories_success w st r categories :
  fetch w (size_list_request baseUrl apiKey) = Resolved r ->
  ok r = true ->
  JSON_parse (body r) = Ok (JArr categories) ->
  Forall (fun s => storable s = true) (cached_sizes categories) ->
  getCategories w st
  = (Ok (JArr categories),
     store_cache (foldl store ∅ (cached_sizes categories)) (t_update w)
       (log_call size_list_call st)).
Proof.
  intros Hfetch Hok Hparse Hnames.
  unfold Cached.getCategories, Cached.getCategories_try, try_catch, bind,
    Cached.makeApiCall, Cached.json, lift, read, write, ret.
  fold (size_list_request baseUrl apiKey). fold size_list_call.
  rewrite Hfetch, Hok. cbn [negb]. rewrite Hparse. cbn [iterate].
  now rewrite rfold_add_sizes by assumption.
Qed.

(** A refresh that meets a size it cannot store answers null and writes
    nothing. *)
Lemma getCategories_unstorable w st r categories :
  fetch w (size_list_request baseUrl apiKey) = Resolved r ->
  ok r = true ->
  JSON_parse (body r) = Ok (JArr categories) ->
  Exists (fun s => storable s = false) (cached_sizes categories) ->
  getCategories w st = (Ok JNull, log_call size_list_call st).
Proof.
  intros Hfetch Hok Hparse Hex.
  unfold Cached.getCategories, Cached.getCategories_try, try_catch, bind,
    Cached.makeApiCall, Cached.json, lift, read, write, ret.
  fold (size_list_request baseUrl apiKey). fold size_list_call.
  rewrite Hfetch, Hok. cbn [negb]. rewrite Hparse. cbn [iterate].
  now destruct (rfold_add_sizes_throws categories ∅ Hex) as [e ->].
Qed.

(** C1, amended.  A call of getSizeCache asks the network for the size list
    exactly when the cache is absent, or no access time is recorded, or more
    than five minutes passed since the recorded access, and it asks once.
    Of two calls less than five minutes apart the second makes no request
    provided the cache is present after the first, so that the two make at
    most one request; and a call on an absent cache always makes the request,
    whatever the timestamps. *)
Theorem getSizeCache_refresh_policy :
  (forall w st,
      calls (snd (getSizeCache w st))
      = (calls st ++ (if stale st (t_entry w) then [size_list_call] else []))%list)
  /\ (forall st now,
        stale st now = true <->
        sizeCache st = None
        \/ lastAccessedAt st = None
        \/ lastAccessedAt st = Some 0
        \/ exists t, lastAccessedAt st = Some t /\ now - t > fiveMinutesInMs)
  /\ (forall w1 w2 st,
        sizeCache (snd (getSizeCache w1 st)) <> None ->
        0 < t_exit w1 ->
        t_entry w2 - t_exit w1 <= fiveMinutesInMs ->
        exists new,
          calls (gets [w1; w2] st) = (calls st ++ new)%list /\ (length new <= 1)%nat)
  /\ (forall w st,
        sizeCache st = None ->
        calls (snd (getSizeCache w st)) = (calls st ++ [size_list_call])%list).
Proof.
  split; [| split; [| split]].
  - intros w st. apply getSizeCache_calls.
  - intros st now. exact (stale_iff st now).
  - intros w1 w2 st Hcache Hpos Hle. cbn [Cached.gets].
    set (st1 := snd (getSizeCache w1 st)) in *.
    destruct (sizeCache st1) as [c |] eqn:Hc; [| congruence].
    assert (Ha : lastAccessedAt st1 = Some (t_exit w1))
      by apply getSizeCache_accessed.
    rewrite (getSizeCache_fresh baseUrl apiKey JSON_parse w2 st1 c (t_exit w1))
      by assumption.
    cbn [snd touch calls]. subst st1. rewrite getSizeCache_calls.
    eexists. split; [reflexivity |].
    destruct (stale st (t_entry w1)); simpl; lia.
  - intros w st Hnone. rewrite getSizeCache_calls.
    unfold stale. now rewrite Hnone.
Qed.


(** C3.  A refresh that fails at the transport or with a status that is not
    2xx makes getCategories answer null and leaves the cache and the time of
    the last refresh as they were; getSizeCache then returns the mapping it
    had before, and does not throw. *)
Theorem failed_refresh_keeps_cache w st :
  refresh_fails baseUrl apiKey w ->
  getCategories w st = (Ok JNull, log_call size_list_call st)
  /\ fst (getSizeCache w st) = Ok (sizeCache st)
  /\ sizeCache (snd (getSizeCache w st)) = sizeCache st
  /\ lastUpdatedAt (snd (getSizeCache w st)) = lastUpdatedAt st.
Proof.
  intros Hfail.
  pose proof (getCategories_fails baseUrl apiKey JSON_parse w st Hfail) as Hnull.
  split; [exact Hnull |].
  rewrite getSizeCache_eq. cbn zeta. rewrite Hnull.
  destruct (stale st (t_entry w)); repeat split; reflexivity.
Qed.

(** C4.  Once a call of getSizeCache has left the cache populated, no call of
    a sequence in which each call enters within five minutes of the exit of
    the one before makes a request, however long the sequence: every call
    records its own exit as the time of the last access, and staleness is
    measured from that time alone. *)
Theorem no_refresh_inside_window w0 ws st :
  sizeCache (snd (getSizeCache w0 st)) <> None ->
  0 < t_exit w0 ->
  within_window (t_exit w0) ws ->
  calls (gets ws (snd (getSizeCache w0 st))) = calls (snd (getSizeCache w0 st))
  /\ sizeCache (gets ws (snd (getSizeCache w0 st))) = sizeCache (snd (getSizeCache w0 st))
  /\ lastUpdatedAt (gets ws (snd (getSizeCache w0 st)))
     = lastUpdatedAt (snd (getSizeCache w0 st))
  /\ forall w st', lastAccessedAt (snd (getSizeCache w st')) = Some (t_exit w).
Proof.
  intros Hcache Hpos Hwin.
  set (st1 := snd (getSizeCache w0 st)) in *.
  destruct (sizeCache st1) as [c |] eqn:Hc; [| congruence].
  assert (Ha : lastAccessedAt st1 = Some (t_exit w0)) by apply getSizeCache_accessed.
  destruct (gets_fresh baseUrl apiKey JSON_parse ws st1 c (t_exit w0) Hc Ha Hpos Hwin)
    as (Hcalls & Hsame & Hupd).
  repeat split; try assumption; try congruence.
  intros w st'. apply getSizeCache_accessed.
Qed.

End CacheTheorems.

Section CacheExamples.
Import Str Js Reading Cached.

Local Abbreviation getCategories :=
  (Cached.getCategories Scenario.baseUrl Scenario.apiKey Json.parse).
Local Abbreviation getSizeCache :=
  (Cached.getSizeCache Scenario.baseUrl Scenario.apiKey Json.parse).
Local Abbreviation gets := (Cached.gets Scenario.baseUrl Scenario.apiKey Json.parse).

Lemma two_categories_parse :
  Json.parse Scenario.two_categories = Ok (JArr Scenario.two_categories_value).
Proof. vm_compute. reflexivity. Qed.

Lemma unnamed_category_parse :
  Json.parse Scenario.unnamed_category = Ok (JArr Scenario.unnamed_category_value).
Proof. vm_compute. reflexivity. Qed.

(** A first call that populates the cache at 1000 ms and a second one four
    minutes later: one request in all. *)
Lemma getSizeCache_refresh_policy_witness :
  sizeCache (snd (getSizeCache (Scenario.online_at 1000) initial)) <> None
  /\ 0 < t_exit (Scenario.online_at 1000)
  /\ t_entry (Scenario.online_at 240000) - t_exit (Scenario.online_at 1000)
     <= fiveMinutesInMs
  /\ exists new,
      calls (gets [Scenario.online_at 1000; Scenario.online_at 240000] initial)
      = (calls initial ++ new)%list /\ (length new <= 1)%nat.
Proof.
  assert (H1 : sizeCache (snd (getSizeCache (Scenario.online_at 1000) initial)) <> None)
    by (vm_compute; discriminate).
  assert (H2 : 0 < t_exit (Scenario.online_at 1000)) by reflexivity.
  assert (H3 : t_entry (Scenario.online_at 240000) - t_exit (Scenario.online_at 1000)
               <= fiveMinutesInMs) by (vm_compute; discriminate).
  split; [exact H1 |]. split; [exact H2 |]. split; [exact H3 |].
  exact (proj1 (proj2 (proj2
           (getSizeCache_refresh_policy Scenario.baseUrl Scenario.apiKey Json.parse)))
           (Scenario.online_at 1000) (Scenario.online_at 240000) initial H1 H2 H3).
Defined.

(** C1 as stated fails: with the network down, two calls one second apart
    make two requests, since the cache is still absent at the second. *)
Lemma getSizeCache_refreshes_twice :
  t_entry (Scenario.offline 2000) - t_exit (Scenario.offline 1000) <= fiveMinutesInMs
  /\ calls (gets [Scenario.offline 1000; Scenario.offline 2000] initial)
     = [size_list_call; size_list_call]
  /\ ~ (length (calls (gets [Scenario.offline 1000; Scenario.offline 2000] initial))
        <= 1)%nat.
Proof.
  split; [vm_compute; discriminate |].
  split; [vm_compute; reflexivity |].
  vm_compute. lia.
Qed.



(** A populated cache read fifteen minutes later with the network down. *)
Lemma failed_refresh_keeps_cache_witness :
  refresh_fails Scenario.baseUrl Scenario.apiKey (Scenario.offline 900000)
  /\ stale Scenario.populated (t_entry (Scenario.offline 900000)) = true
  /\ getCategories (Scenario.offline 900000) Scenario.populated
     = (Ok JNull, log_call size_list_call Scenario.populated)
  /\ fst (getSizeCache (Scenario.offline 900000) Scenario.populated)
     = Ok (sizeCache Scenario.populated)
  /\ sizeCache (snd (getSizeCache (Scenario.offline 900000) Scenario.populated))
     = sizeCache Scenario.populated
  /\ lastUpdatedAt (snd (getSizeCache (Scenario.offline 900000) Scenario.populated))
     = lastUpdatedAt Scenario.populated.
Proof.
  split; [exact I |].
  split; [vm_compute; reflexivity |].
  exact (failed_refresh_keeps_cache Scenario.baseUrl Scenario.apiKey Json.parse
           (Scenario.offline 900000) Scenario.populated I).
Defined.

(** Three reads, four minutes apart, after the one that populated the
    cache: the network is up and is never asked. *)
Lemma no_refresh_inside_window_witness :
  sizeCache (snd (getSizeCache (Scenario.online_at 1000) initial)) <> None
  /\ 0 < t_exit (Scenario.online_at 1000)
  /\ within_window (t_exit (Scenario.online_at 1000))
       [Scenario.online_at 240000; Scenario.online_at 480000; Scenario.online_at 720000]
  /\ calls (gets [Scenario.online_at 240000; Scenario.online_at 480000;
                  Scenario.online_at 720000]
              (snd (getSizeCache (Scenario.online_at 1000) initial)))
     = calls (snd (getSizeCache (Scenario.online_at 1000) initial)).
Proof.
  assert (H1 : sizeCache (snd (getSizeCache (Scenario.online_at 1000) initial)) <> None)
    by (vm_compute; discriminate).
  assert (H2 : 0 < t_exit (Scenario.online_at 1000)) by reflexivity.
  assert (H3 : within_window (t_exit (Scenario.online_at 1000))
                 [Scenario.online_at 240000; Scenario.online_at 480000;
                  Scenario.online_at 720000])
    by (cbn; unfold fiveMinutesInMs; lia).
  split; [exact H1 |]. split; [exact H2 |]. split; [exact H3 |].
  exact (proj1 (no_refresh_inside_window Scenario.baseUrl Scenario.apiKey Json.parse
                  (Scenario.online_at 1000) _ initial H1 H2 H3)).
Defined.

End CacheExamples.

(** * The tools of src/index.ts *)

Section CatchFacts.
Context {St A : Type}.

(** A [try] whose [catch] returns cannot throw. *)
Lemma try_catch_returns (m : M St A) (f : string -> A) (st : St) :
  exists a st', try_catch m (fun e => ret (f e)) st = (Ok a, st').
Proof.
  unfold try_catch, ret. destruct (m st) as [[a | e] st']; eauto.
Qed.

End CatchFacts.

Section IndexTools.
Import Str Js Reading Index.
Variables baseUrl apiKey : string.
Variable JSON_parse : string -> Res JsValue.

Local Abbreviation call_tool := (Index.call_tool baseUrl apiKey JSON_parse).
Local Abbreviation normalize := (Index.normalize JSON_parse).

Lemma bytes_read w filename b : readFile w filename = Ok b -> bytes w filename = b.
Proof. unfold bytes. now intros ->. Qed.

Ltac run_index :=
  cbv [Index.call_tool Index.get_image_metadata Index.list_categories
       Index.get_resized_image Index.upload_and_resize_image Index.upload_image
       Index.upload Index.makeApiCall try_catch bind lift ret
       index_call index_file index_label upload_call get_call request readable
       Index.upload_path post upload_form endpoint options] in *.

(** A tool whose file cannot be read answers with the error of the disk and
    sends nothing. *)
Lemma index_file_error w call trace filename e :
  index_file call = Some filename -> readFile w filename = Throw e ->
  call_tool w call trace = (Ok (error_result e), trace).
Proof.
  destruct call; run_index; try discriminate; intros [= ->] ->; reflexivity.
Qed.

(** A tool whose request is rejected answers with the error of the
    transport. *)
Lemma index_rejected w call trace e :
  readable w (index_file call) ->
  fetch w (request baseUrl apiKey (index_call w call)) = Rejected e ->
  call_tool w call trace = (Ok (error_result e), (trace ++ [index_call w call])%list).
Proof.
  destruct call; run_index.
  1-3: intros _ ->; reflexivity.
  all: intros [b Hb]; rewrite (bytes_read _ _ _ Hb), Hb; intros ->; reflexivity.
Qed.

(** A tool whose response the normaliser rejects answers with the message
    of the normaliser. *)
Lemma index_normalize_throw w call trace r e :
  readable w (index_file call) ->
  fetch w (request baseUrl apiKey (index_call w call)) = Resolved r ->
  normalize (index_label call) r = Throw e ->
  call_tool w call trace = (Ok (error_result e), (trace ++ [index_call w call])%list).
Proof.
  destruct call; run_index.
  1-3: intros _ -> ->; reflexivity.
  all: intros [b Hb]; rewrite (bytes_read _ _ _ Hb), Hb; intros -> ->; reflexivity.
Qed.

Lemma index_never_throws w call trace :
  exists res, fst (call_tool w call trace) = Ok res.
Proof.
  destruct call; cbv [Index.call_tool Index.get_image_metadata Index.list_categories
                      Index.get_resized_image Index.upload_and_resize_image
                      Index.upload_image Index.upload];
    match goal with
    | |- context [try_catch ?m (fun e => ret (?f e)) ?st] =>
        destruct (try_catch_returns m f st) as (a & st' & ->)
    end; eauto.
Qed.

End IndexTools.

(** * The response normaliser *)

Section MarkupFacts.
Import Str Reading Index.

Lemma Substr_tail needle c s : Substr needle s -> Substr needle (String c s).
Proof. intros (p & q & ->). now exists (String c p), q. Qed.

Lemma starts_with_Substr needle s : starts_with needle s = true -> Substr needle s.
Proof. intros H. apply starts_with_true in H as [r ->]. now exists EmptyString, r. Qed.

(** A text without the needle is left alone by the replacement. *)
Lemma replace_all_absent needle repl s :
  ~ Substr needle s -> replace_all needle repl s = s.
Proof.
  unfold replace_all. induction s as [| c s IH]; intros Habs; simpl; [reflexivity |].
  destruct (starts_with needle (String c s)) eqn:Hs.
  - destruct Habs. now apply starts_with_Substr.
  - f_equal. apply IH. intros H. apply Habs. now apply Substr_tail.
Qed.

Lemma match_br_Substr s n : match_br s = Some n -> Substr "<br" s.
Proof.
  unfold match_br. destruct (starts_with "<br" s) eqn:Hs; [| discriminate].
  intros _. now apply starts_with_Substr.
Qed.

Lemma replace_br_absent s : ~ Substr "<br" s -> replace_br s = s.
Proof.
  unfold replace_br. induction s as [| c s IH]; intros Habs; cbn [replace_br_go];
    [reflexivity |].
  destruct (match_br (String c s)) as [n |] eqn:Hm.
  - destruct Habs. eapply match_br_Substr; eauto.
  - f_equal. apply IH. intros H. apply Habs. now apply Substr_tail.
Qed.

(** A block that holds neither a line break nor an entity is only trimmed. *)
Lemma htmlError_plain inner :
  ~ Substr "<br" inner -> ~ Substr "&nbsp;" inner -> ~ Substr "&#39;" inner ->
  htmlError inner = trim inner.
Proof.
  intros Hbr Hnbsp Hq. unfold htmlError.
  rewrite (replace_br_absent inner Hbr).
  rewrite (replace_all_absent "&nbsp;" " " inner Hnbsp).
  now rewrite (replace_all_absent "&#39;" "'" inner Hq).
Qed.

Lemma take_bound s : forall n, (String.length (take n s) <= n)%nat.
Proof.
  induction s as [| c s IH]; intros [| n]; simpl; try lia.
  specialize (IH n). lia.
Qed.

Lemma take_whole s : forall n, (String.length s <= n)%nat -> take n s = s.
Proof.
  induction s as [| c s IH]; intros [| n] Hn; simpl in *; try reflexivity; try lia.
  f_equal. apply IH. lia.
Qed.

Lemma take_then_drop s : forall n, s = take n s ++ drop n s.
Proof.
  induction s as [| c s IH]; intros [| n]; simpl; try reflexivity.
  f_equal. apply IH.
Qed.

End MarkupFacts.

Section NormalizerTheorems.
Import Str Js Reading Index.
Variable JSON_parse : string -> Res JsValue.

Local Abbreviation errorMessage := (Index.errorMessage JSON_parse).
Local Abbreviation normalize := (Index.normalize JSON_parse).

(** C5.  On a failed response whose content type includes application/json,
    the message of the normaliser is the body pretty-printed when the body
    parses to an object with an [error] field, and the raw body when it
    parses to anything else or does not parse; the message follows the words
    of the tool and the status in the error thrown.  A 404 with the body
    [{"error":"not found"}] gives that object over three lines. *)
Theorem json_error_message :
  (forall response,
      includes "application/json" (contentType response) = true ->
      (forall fields v,
          JSON_parse (body response) = Ok (JObj fields) ->
          lookup_field "error" fields = Some v ->
          errorMessage response = stringify2 (JObj fields))
      /\ (forall data,
             JSON_parse (body response) = Ok data ->
             (forall fields, data = JObj fields -> lookup_field "error" fields = None) ->
             errorMessage response = body response)
      /\ (forall e,
             JSON_parse (body response) = Throw e ->
             errorMessage response = body response))
  /\ (forall what response,
         ok response = false ->
         normalize what response
         = Throw (what ++ ": " ++ pretty (status response) ++ " " ++ errorMessage response))
  /\ (JSON_parse Scenario.not_found_body = Ok (JObj [("error", JStr "not found")]) ->
      ok Scenario.not_found = false
      /\ errorMessage Scenario.not_found = Scenario.not_found_pretty).
Proof.
  split; [| split].
  - intros response Hjson. unfold Index.errorMessage. rewrite Hjson.
    split; [| split].
    + intros fields v -> Herr. cbn [is_object has_property andb]. now rewrite Herr.
    + intros data -> Hno. destruct data; try reflexivity.
      cbn [is_object has_property andb]. now rewrite (Hno fields eq_refl).
    + now intros e ->.
  - intros what response Hok. unfold Index.normalize. now rewrite Hok.
  - intros Hparse. split; [reflexivity |].
    unfold Index.errorMessage.
    change (body Scenario.not_found) with Scenario.not_found_body.
    rewrite Hparse. vm_compute. reflexivity.
Qed.

(** C6, amended.  On a failed response whose content type includes
    text/html and does not include application/json: when the body has a
    [<pre>] block the message is "Server error: " followed by the content of
    its first block, line breaks turned into newlines, the entities [&nbsp;]
    and [&#39;] decoded and the white space around it trimmed; when it has
    none the message is the generic one with the status.  A 500 with the body
    [<html><pre>Internal Error</pre></html>] gives "Server error: Internal
    Error". *)
Theorem html_error_message :
  (forall response,
      includes "application/json" (contentType response) = false ->
      includes "text/html" (contentType response) = true ->
      (forall inner,
          has_pre_block inner (body response) ->
          exists first,
            match_pre (body response) = Some first
            /\ has_pre_block first (body response)
            /\ ~ Substr "</pre>" first
            /\ (forall before rest,
                   body response = before ++ "<pre>" ++ rest ->
                   exists before0 after0,
                     body response = before0 ++ "<pre>" ++ first ++ "</pre>" ++ after0
                     /\ (String.length before0 <= String.length before)%nat)
            /\ errorMessage response = "Server error: " ++ htmlError first)
      /\ ((forall inner, ~ has_pre_block inner (body response)) ->
          errorMessage response
          = "Server returned HTML error page (" ++ pretty (status response) ++ ")"))
  /\ (forall inner,
         ~ Substr "<br" inner -> ~ Substr "&nbsp;" inner -> ~ Substr "&#39;" inner ->
         htmlError inner = trim inner)
  /\ htmlError "  can&#39;t&nbsp;open<br>a <br />file<br/> "
     = "can't open" ++ nl ++ "a " ++ nl ++ "file"
  /\ errorMessage Scenario.internal_error = "Server error: Internal Error".
Proof.
  split; [| split; [| split]].
  - intros response Hjson Hhtml. unfold Index.errorMessage. rewrite Hjson, Hhtml.
    split.
    + intros inner Hblock.
      destruct (match_pre (body response)) as [first |] eqn:Hm.
      * destruct (match_pre_Some _ _ Hm) as (H1 & H2 & H3).
        exists first. repeat split; assumption.
      * destruct (match_pre_None _ Hm inner Hblock).
    + intros Hnone.
      destruct (match_pre (body response)) as [first |] eqn:Hm; [| reflexivity].
      destruct (match_pre_Some _ _ Hm) as (H1 & _).
      destruct (Hnone first H1).
  - exact htmlError_plain.
  - vm_compute. reflexivity.
  - vm_compute. reflexivity.
Qed.

End NormalizerTheorems.

(** * The tools of the other two variants *)

Section BasicTools.
Import Str Js Reading Basic.
Variables baseUrl apiKey : string.
Variable JSON_parse : string -> Res JsValue.

Local Abbreviation call_tool := (Basic.call_tool baseUrl apiKey JSON_parse).
Local Abbreviation decoded := (Basic.decoded JSON_parse).

Ltac run_basic :=
  cbv [Basic.call_tool Basic.get_image_metadata
       Basic.get_resized_image Basic.upload_and_resize_image Basic.upload_image
       Basic.upload Basic.makeApiCall try_catch bind lift ret
       basic_call basic_file basic_label upload_call get_call request readable
       Index.upload_path post upload_form endpoint options] in *.

Lemma basic_file_error w call trace filename e :
  basic_file call = Some filename -> readFile w filename = Throw e ->
  call_tool w call trace = (Ok (error_result e), trace).
Proof.
  destruct call; run_basic; try discriminate; intros [= ->] ->; reflexivity.
Qed.

Lemma basic_rejected w call trace e :
  readable w (basic_file call) ->
  fetch w (request baseUrl apiKey (basic_call w call)) = Rejected e ->
  call_tool w call trace = (Ok (error_result e), (trace ++ [basic_call w call])%list).
Proof.
  destruct call; run_basic.
  1-2: intros _ ->; reflexivity.
  all: intros [b Hb]; rewrite (bytes_read _ _ _ Hb), Hb; intros ->; reflexivity.
Qed.

Lemma basic_decoded_throw w call trace r e :
  readable w (basic_file call) ->
  fetch w (request baseUrl apiKey (basic_call w call)) = Resolved r ->
  decoded (basic_label call) r = Throw e ->
  call_tool w call trace = (Ok (error_result e), (trace ++ [basic_call w call])%list).
Proof.
  destruct call; run_basic.
  1-2: intros _ -> ->; reflexivity.
  all: intros [b Hb]; rewrite (bytes_read _ _ _ Hb), Hb; intros -> ->; reflexivity.
Qed.

Lemma basic_never_throws w call trace :
  exists res, fst (call_tool w call trace) = Ok res.
Proof.
  destruct call; cbv [Basic.call_tool Basic.get_image_metadata Basic.get_resized_image
                      Basic.upload_and_resize_image Basic.upload_image Basic.upload];
    match goal with
    | |- context [try_catch ?m (fun e => ret (?f e)) ?st] =>
        destruct (try_catch_returns m f st) as (a & st' & ->)
    end; eauto.
Qed.

(** What an upload tool sends: nothing when the file cannot be read, the
    upload and nothing else when it can. *)
Lemma basic_upload_trace w category filename flag trace :
  snd (Basic.upload baseUrl apiKey JSON_parse w category filename flag trace)
  = match readFile w filename with
    | Ok _ => (trace ++ [upload_call w category filename flag])%list
    | Throw _ => trace
    end.
Proof.
  cbv [Basic.upload Basic.makeApiCall try_catch bind lift ret upload_call bytes
       Index.upload_path post upload_form].
  destruct (readFile w filename) as [b | e]; [| reflexivity].
  destruct (fetch w _) as [e | r]; [reflexivity |].
  destruct (Basic.decoded JSON_parse _ r); reflexivity.
Qed.

End BasicTools.

Section CachedTools.
Import Str Js Reading Cached.
Variables baseUrl apiKey : string.
Variable JSON_parse : string -> Res JsValue.

Local Abbreviation call_tool := (Cached.call_tool baseUrl apiKey JSON_parse).
Local Abbreviation getSizeCache := (Cached.getSizeCache baseUrl apiKey JSON_parse).
Local Abbreviation buildImageMetadataResponseText :=
  (Cached.buildImageMetadataResponseText baseUrl apiKey JSON_parse).

Ltac run_cached :=
  cbv [Cached.call_tool Cached.get_image_metadata Cached.get_image_metadata_try
       Cached.transcode_image Cached.transcode_image_try
       Cached.get_resized_image Cached.get_resized_image_try
       Cached.upload_and_resize_image Cached.upload_image Cached.uploadImage
       Cached.makeApiCall Cached.json try_catch bind lift ret throw
       cached_call cached_file cached_label upload_call get_call request readable
       Cached.upload_path post upload_form endpoint options] in *.

Lemma cached_file_error w call st filename e :
  cached_file call = Some filename -> readFile w filename = Throw e ->
  call_tool w call st = (Ok (Some (error_result e)), st).
Proof.
  destruct call; run_cached; try discriminate; intros [= ->] ->; reflexivity.
Qed.

Lemma cached_rejected w call st e :
  call <> ListCategories ->
  readable w (cached_file call) ->
  fetch w (request baseUrl apiKey (cached_call w call)) = Rejected e ->
  call_tool w call st
  = (Ok (Some (error_result e)), log_call (cached_call w call) st).
Proof.
  destruct call; try congruence; intros _; run_cached.
  1-3: intros _ ->; reflexivity.
  all: intros [b Hb]; rewrite (bytes_read _ _ _ Hb), Hb; intros ->; reflexivity.
Qed.

Lemma cached_bad_status w call st r :
  call <> ListCategories ->
  readable w (cached_file call) ->
  fetch w (request baseUrl apiKey (cached_call w call)) = Resolved r ->
  ok r = false ->
  call_tool w call st
  = (Ok (Some (error_result (failed (cached_label call) r))),
     log_call (cached_call w call) st).
Proof.
  destruct call; try congruence; intros _; run_cached.
  1-3: intros _ -> ->; reflexivity.
  all: intros [b Hb]; rewrite (bytes_read _ _ _ Hb), Hb; intros -> ->; reflexivity.
Qed.

Lemma cached_bad_body w call st r e :
  call <> ListCategories ->
  readable w (cached_file call) ->
  fetch w (request baseUrl apiKey (cached_call w call)) = Resolved r ->
  ok r = true ->
  JSON_parse (body r) = Throw e ->
  call_tool w call st
  = (Ok (Some (error_result e)), log_call (cached_call w call) st).
Proof.
  destruct call; try congruence; intros _; run_cached.
  1-3: intros _ -> -> ->; reflexivity.
  all: intros [b Hb]; rewrite (bytes_read _ _ _ Hb), Hb; intros -> -> ->; reflexivity.
Qed.

Lemma cached_never_throws w call st :
  exists res, fst (call_tool w call st) = Ok res.
Proof.
  destruct call;
    cbv beta iota zeta
      delta [Cached.call_tool Cached.get_image_metadata Cached.transcode_image
             Cached.list_categories Cached.get_resized_image
             Cached.upload_and_resize_image Cached.upload_image bind];
    match goal with
    | |- context [try_catch ?m (fun e => ret (@?f e)) ?s] =>
        destruct (try_catch_returns m f s) as (a & st' & ->)
    end; simpl; eauto.
Qed.

End CachedTools.

Section CachedUploads.
Import Str Js Reading Cached.
Variables baseUrl apiKey : string.
Variable JSON_parse : string -> Res JsValue.

Local Abbreviation getSizeCache := (Cached.getSizeCache baseUrl apiKey JSON_parse).
Local Abbreviation buildImageMetadataResponseText :=
  (Cached.buildImageMetadataResponseText baseUrl apiKey JSON_parse).
Local Abbreviation uploadImage := (Cached.uploadImage baseUrl apiKey JSON_parse).

(** buildImageMetadataResponseText asks the network for nothing but the
    size list, and at most once. *)
Lemma build_calls w metadata label st :
  exists rest,
    calls (snd (buildImageMetadataResponseText w metadata label st))
    = (calls st ++ rest)%list
    /\ refresh_only rest.
Proof.
  unfold Cached.buildImageMetadataResponseText, bind, lift, ret.
  destruct (get metadata "id"); [| exists []; split; [now rewrite app_nil_r | now left]].
  destruct (get metadata "category");
    [| exists []; split; [now rewrite app_nil_r | now left]].
  destruct (get metadata "resizedFiles") as [files |];
    [| exists []; split; [now rewrite app_nil_r | now left]].
  destruct (if truthy files then _ else _) as [[|] |];
    try (exists []; split; [now rewrite app_nil_r | now left]).
  rewrite getSizeCache_eq. cbn zeta.
  set (st1 := if stale st (t_entry w) then _ else st).
  assert (Hst1 : exists rest, calls st1 = (calls st ++ rest)%list /\ refresh_only rest).
  { subst st1. destruct (stale st (t_entry w)).
    - rewrite getCategories_calls. exists [size_list_call]. split; [reflexivity | now right].
    - exists []. split; [now rewrite app_nil_r | now left]. }
  destruct (iterate files); [| exact Hst1].
  destruct (rfold _ _ _); exact Hst1.
Qed.

(** uploadImage sends the upload, once the file is read, and nothing else. *)
Lemma uploadImage_calls w category filename resize st :
  calls (snd (uploadImage w category filename resize st))
  = match readFile w filename with
    | Ok _ => (calls st
               ++ [upload_call w category filename (if resize then "true" else "false")])%list
    | Throw _ => calls st
    end.
Proof.
  cbv [Cached.uploadImage Cached.makeApiCall Cached.json bind lift ret throw
       upload_call bytes Cached.upload_path post upload_form].
  destruct (readFile w filename) as [b | e]; [| reflexivity].
  destruct (fetch w _) as [e | r]; [now destruct resize |].
  destruct (ok r); cbn [negb]; [| now destruct resize].
  destruct (JSON_parse (body r)) as [md |]; [| now destruct resize].
  destruct (get md "id"); [| now destruct resize].
  destruct (if truthy _ then _ else _) as [[|] |]; now destruct resize.
Qed.

Lemma uploadImage_unreadable w category filename resize st e :
  readFile w filename = Throw e ->
  uploadImage w category filename resize st = (Throw e, st).
Proof. unfold Cached.uploadImage, bind, lift. now intros ->. Qed.

(** What an upload tool sends: nothing when the file cannot be read; the
    upload first, and after it at most the refresh of the size cache. *)
Lemma upload_tool_calls w category filename resize label st :
  let tool :=
    try_catch
      (metadata <- uploadImage w category filename resize ;;
       t <- buildImageMetadataResponseText w metadata label ;;
       ret (text_result t))
      (fun e => ret (error_result e)) in
  match readFile w filename with
  | Ok _ =>
      exists rest,
        calls (snd (tool st))
        = (calls st
           ++ upload_call w category filename (if resize then "true" else "false")
           :: rest)%list
        /\ refresh_only rest
  | Throw _ => calls (snd (tool st)) = calls st
  end.
Proof.
  cbv zeta. unfold try_catch, bind, ret.
  pose proof (uploadImage_calls w category filename resize st) as Hup.
  destruct (readFile w filename) as [b | e] eqn:Hfile.
  - destruct (uploadImage w category filename resize st) as [[md | e] st1];
      cbn [snd] in Hup.
    + destruct (build_calls w md label st1) as (rest & Hrest & Honly).
      exists rest. split; [| assumption].
      destruct (buildImageMetadataResponseText w md label st1) as [[t | e] st2];
        cbn [snd] in *; rewrite Hrest, Hup; now rewrite <- app_assoc.
    + exists []. split; [exact Hup | now left].
  - now rewrite (uploadImage_unreadable w category filename resize st e Hfile).
Qed.

(** The same for the upload tools of src/index.ts, which send the upload and
    nothing else. *)
Lemma index_upload_trace w category filename flag trace :
  snd (Index.upload baseUrl apiKey JSON_parse w category filename flag trace)
  = match readFile w filename with
    | Ok _ => (trace ++ [upload_call w category filename flag])%list
    | Throw _ => trace
    end.
Proof.
  cbv [Index.upload Index.makeApiCall try_catch bind lift ret upload_call bytes
       Index.upload_path post upload_form].
  destruct (readFile w filename) as [b | e]; [| reflexivity].
  destruct (fetch w _) as [e | r]; [reflexivity |].
  destruct (Index.normalize JSON_parse _ r); reflexivity.
Qed.

End CachedUploads.

(** * The tools *)

Section ToolTheorems.
Import Str Js Reading.
Variables baseUrl apiKey : string.
Variable JSON_parse : string -> Res JsValue.

Lemma error_result_shaped message : error_shaped (error_result message).
Proof. exists message. split; reflexivity. Qed.

(** C7.  A tool of src/index.ts that receives a 2xx response whose body is
    not JSON answers with an error result, never with a success: its text is
    "Error: Invalid JSON response: " followed by the first 200 code units of
    the body. *)
Theorem invalid_json_is_failure w call trace r e :
  readable w (index_file call) ->
  fetch w (request baseUrl apiKey (index_call w call)) = Resolved r ->
  ok r = true ->
  JSON_parse (body r) = Throw e ->
  fst (Index.call_tool baseUrl apiKey JSON_parse w call trace)
  = Ok {| content := [ {| type := "text";
                          text := "Error: Invalid JSON response: " ++ take 200 (body r) |} ];
          isError := true |}
  /\ (String.length (take 200 (body r)) <= 200)%nat
  /\ body r = take 200 (body r) ++ drop 200 (body r)
  /\ ((String.length (body r) <= 200)%nat -> take 200 (body r) = body r).
Proof.
  intros Hfile Hfetch Hok Hparse.
  split; [| split; [apply take_bound | split; [apply take_then_drop | apply take_whole]]].
  rewrite (index_normalize_throw baseUrl apiKey JSON_parse w call trace r
             ("Invalid JSON response: " ++ take 200 (body r)) Hfile Hfetch).
  - reflexivity.
  - unfold Index.normalize. now rewrite Hok, Hparse.
Qed.

(** C8.  An upload tool sends nothing when the file cannot be read, and
    otherwise sends POST /api/image/{category}?forceImmediateResize=true when
    it is upload_and_resize_image and ...=false when it is upload_image: in
    src/index.ts and in the first variant it is the only call of the HTTP
    wrapper, in the variant with the cache it is the first, followed at most
    by the refresh of the size cache. *)
Theorem upload_request_path w category filename :
  (forall flag,
      endpoint (upload_call w category filename flag)
      = "/api/image/" ++ category ++ "?forceImmediateResize=" ++ flag
      /\ method (options (upload_call w category filename flag)) = Some "POST")
  /\ upload_call w category filename "true" <> upload_call w category filename "false"
  /\ (forall trace,
         snd (Index.upload_and_resize_image baseUrl apiKey JSON_parse w category filename trace)
         = match readFile w filename with
           | Ok _ => (trace ++ [upload_call w category filename "true"])%list
           | Throw _ => trace
           end
         /\ snd (Index.upload_image baseUrl apiKey JSON_parse w category filename trace)
            = match readFile w filename with
              | Ok _ => (trace ++ [upload_call w category filename "false"])%list
              | Throw _ => trace
              end)
  /\ (forall trace,
         snd (Basic.upload_and_resize_image baseUrl apiKey JSON_parse w category filename trace)
         = match readFile w filename with
           | Ok _ => (trace ++ [upload_call w category filename "true"])%list
           | Throw _ => trace
           end
         /\ snd (Basic.upload_image baseUrl apiKey JSON_parse w category filename trace)
            = match readFile w filename with
              | Ok _ => (trace ++ [upload_call w category filename "false"])%list
              | Throw _ => trace
              end)
  /\ (forall st,
         match readFile w filename with
         | Ok _ =>
             (exists rest,
                 Cached.calls
                   (snd (Cached.upload_and_resize_image baseUrl apiKey JSON_parse w
                           category filename st))
                 = (Cached.calls st ++ upload_call w category filename "true" :: rest)%list
                 /\ refresh_only rest)
             /\ (exists rest,
                    Cached.calls
                      (snd (Cached.upload_image baseUrl apiKey JSON_parse w
                              category filename st))
                    = (Cached.calls st ++ upload_call w category filename "false" :: rest)%list
                    /\ refresh_only rest)
         | Throw _ =>
             Cached.calls
               (snd (Cached.upload_and_resize_image baseUrl apiKey JSON_parse w
                       category filename st))
             = Cached.calls st
             /\ Cached.calls
                  (snd (Cached.upload_image baseUrl apiKey JSON_parse w category filename st))
                = Cached.calls st
         end).
Proof.
  split; [| split; [| split; [| split]]].
  - intros flag. split; reflexivity.
  - intros Heq. apply (f_equal endpoint) in Heq. cbn [endpoint upload_call] in Heq.
    apply String.app_inj in Heq. apply String.app_inj in Heq. discriminate.
  - intros trace. split; apply index_upload_trace.
  - intros trace. split; apply basic_upload_trace.
  - intros st.
    pose proof (upload_tool_calls baseUrl apiKey JSON_parse w category filename true
                  "Image uploaded and resized" st) as Ht.
    pose proof (upload_tool_calls baseUrl apiKey JSON_parse w category filename false
                  "Image uploaded" st) as Hf.
    cbv zeta in Ht, Hf.
    destruct (readFile w filename); split; assumption.
Qed.

(** C10, amended.  No tool of any variant lets an exception escape.  In
    src/index.ts and in the first variant every tool, and in the variant with
    the cache every tool but list_categories, answers each failure of its own
    request (the file cannot be read, the transport fails, the status is not
    2xx, the body of a 2xx response is not JSON) with one text block whose
    text begins with "Error: ", and with isError set. *)
Theorem failures_become_error_results w :
  (forall call trace,
      exists res, fst (Index.call_tool baseUrl apiKey JSON_parse w call trace) = Ok res)
  /\ (forall call trace,
         exists res, fst (Basic.call_tool baseUrl apiKey JSON_parse w call trace) = Ok res)
  /\ (forall call st,
         exists res, fst (Cached.call_tool baseUrl apiKey JSON_parse w call st) = Ok res)
  /\ (forall call trace,
         Fails baseUrl apiKey JSON_parse w (index_file call) (index_call w call) ->
         exists res,
           fst (Index.call_tool baseUrl apiKey JSON_parse w call trace) = Ok res
           /\ error_shaped res)
  /\ (forall call trace,
         Fails baseUrl apiKey JSON_parse w (basic_file call) (basic_call w call) ->
         exists res,
           fst (Basic.call_tool baseUrl apiKey JSON_parse w call trace) = Ok res
           /\ error_shaped res)
  /\ (forall call st,
         call <> Cached.ListCategories ->
         Fails baseUrl apiKey JSON_parse w (cached_file call) (cached_call w call) ->
         exists res,
           fst (Cached.call_tool baseUrl apiKey JSON_parse w call st) = Ok (Some res)
           /\ error_shaped res).
Proof.
  split; [| split; [| split; [| split; [| split]]]].
  - intros call trace. apply index_never_throws.
  - intros call trace. apply basic_never_throws.
  - intros call st. apply cached_never_throws.
  - intros call trace [filename e Hf He | e Hr Hfetch | r Hr Hfetch Hok | r e Hr Hfetch Hok Hp].
    + rewrite (index_file_error baseUrl apiKey JSON_parse w call trace filename e Hf He).
      eexists. split; [reflexivity | apply error_result_shaped].
    + rewrite (index_rejected baseUrl apiKey JSON_parse w call trace e Hr Hfetch).
      eexists. split; [reflexivity | apply error_result_shaped].
    + rewrite (index_normalize_throw baseUrl apiKey JSON_parse w call trace r _ Hr Hfetch
                 ltac:(unfold Index.normalize; rewrite Hok; reflexivity)).
      eexists. split; [reflexivity | apply error_result_shaped].
    + rewrite (index_normalize_throw baseUrl apiKey JSON_parse w call trace r _ Hr Hfetch
                 ltac:(unfold Index.normalize; rewrite Hok, Hp; reflexivity)).
      eexists. split; [reflexivity | apply error_result_shaped].
  - intros call trace [filename e Hf He | e Hr Hfetch | r Hr Hfetch Hok | r e Hr Hfetch Hok Hp].
    + rewrite (basic_file_error baseUrl apiKey JSON_parse w call trace filename e Hf He).
      eexists. split; [reflexivity | apply error_result_shaped].
    + rewrite (basic_rejected baseUrl apiKey JSON_parse w call trace e Hr Hfetch).
      eexists. split; [reflexivity | apply error_result_shaped].
    + rewrite (basic_decoded_throw baseUrl apiKey JSON_parse w call trace r _ Hr Hfetch
                 ltac:(unfold Basic.decoded; rewrite Hok; reflexivity)).
      eexists. split; [reflexivity | apply error_result_shaped].
    + rewrite (basic_decoded_throw baseUrl apiKey JSON_parse w call trace r e Hr Hfetch
                 ltac:(unfold Basic.decoded; rewrite Hok; exact Hp)).
      eexists. split; [reflexivity | apply error_result_shaped].
  - intros call st Hcall
      [filename e Hf He | e Hr Hfetch | r Hr Hfetch Hok | r e Hr Hfetch Hok Hp].
    + rewrite (cached_file_error baseUrl apiKey JSON_parse w call st filename e Hf He).
      eexists. split; [reflexivity | apply error_result_shaped].
    + rewrite (cached_rejected baseUrl apiKey JSON_parse w call st e Hcall Hr Hfetch).
      eexists. split; [reflexivity | apply error_result_shaped].
    + rewrite (cached_bad_status baseUrl apiKey JSON_parse w call st r Hcall Hr Hfetch Hok).
      eexists. split; [reflexivity | apply error_result_shaped].
    + rewrite (cached_bad_body baseUrl apiKey JSON_parse w call st r e Hcall Hr Hfetch Hok Hp).
      eexists. split; [reflexivity | apply error_result_shaped].
Qed.

End ToolTheorems.

(** * list_categories *)

Section Listing.
Import Str Js Reading.

Lemma Substr_refl s : Substr s s.
Proof. exists EmptyString, EmptyString. now rewrite append_nil_r. Qed.

Lemma Substr_append_l a s p : Substr a s -> Substr a (p ++ s).
Proof. intros (x & y & ->). exists (p ++ x), y. now rewrite append_assoc. Qed.

Lemma Substr_append_r a s q : Substr a s -> Substr a (s ++ q).
Proof. intros (x & y & ->). exists x, (y ++ q). now rewrite !append_assoc. Qed.

(** Looks for the occurrence on either side of each concatenation. *)
Ltac find_substr leaf :=
  first [ solve [leaf]
        | apply Substr_tail; find_substr leaf
        | apply Substr_append_l; find_substr leaf
        | apply Substr_append_r; find_substr leaf ].

(** A loop that appends one text per element: the result extends the
    accumulator and holds the text of every element. *)
Lemma rfold_append {A} (f : A -> Res string) (items : list A) : forall acc res,
  rfold items acc (fun acc x => t <~ f x ;; Ok (acc ++ t)) = Ok res ->
  exists added,
    res = acc ++ added
    /\ forall x t, x ∈ items -> f x = Ok t -> Substr t added.
Proof.
  induction items as [| x items IH]; intros acc res; cbn [rfold rbind].
  - intros [= <-]. exists EmptyString. split; [now rewrite append_nil_r |].
    intros x t Hx. inversion Hx.
  - destruct (f x) as [tx |] eqn:Hfx; cbn [rbind]; [| discriminate].
    intros Hrest. destruct (IH _ _ Hrest) as (added & -> & Hall).
    exists (tx ++ added). split; [now rewrite append_assoc |].
    intros y t Hy Hfy. apply elem_of_cons in Hy as [-> | Hy].
    + rewrite Hfx in Hfy. injection Hfy as <-. apply Substr_append_r, Substr_refl.
    + apply Substr_append_l. eauto.
Qed.

(** The listing of src/index.ts holds the text of every category of the
    response. *)
Lemma index_lists_every_category items t :
  Index.categories_text (JArr items) = Ok t ->
  forall category tc,
    category ∈ items -> Index.category_text category = Ok tc -> Substr tc t.
Proof.
  unfold Index.categories_text. cbn [iterate get rbind].
  destruct items as [| c0 items0] eqn:Hitems.
  - intros _ category tc Hin. inversion Hin.
  - rewrite <- Hitems. clear Hitems.
    destruct (rfold items _ _) as [listing |] eqn:Hfold; cbn [rbind]; [| discriminate].
    intros [= <-] category tc Hin Htc.
    destruct (rfold_append Index.category_text items _ _ Hfold) as (added & -> & Hall).
    find_substr ltac:(eapply Hall; eassumption).
Qed.

(** ... and the text of a category with sizes holds the line of every
    size. *)
Lemma index_lists_every_size category sizes tc :
  Index.category_text category = Ok tc ->
  is_object category = true ->
  get category "sizes" = Ok (JArr sizes) ->
  forall size line, size ∈ sizes -> Index.size_text size = Ok line -> Substr line tc.
Proof.
  unfold Index.category_text. intros Htc Hobj Hsizes size line Hin Hline.
  rewrite Hobj in Htc.
  destruct (get category "name") as [n |]; cbn [rbind] in Htc; [| discriminate].
  rewrite Hsizes in Htc. cbn [rbind isArray get iterate] in Htc.
  destruct sizes as [| s0 sizes0] eqn:Hs; [inversion Hin |].
  rewrite <- Hs in *. 
  assert (Hgt : gt_zero (JNum (Z.of_nat (List.length sizes))) = Ok true).
  { rewrite Hs. reflexivity. }
  cbn [String.eqb Ascii.eqb Bool.eqb] in Htc.
  rewrite Hgt in Htc. cbn [rbind] in Htc.
  destruct (rfold sizes _ _) as [lines |] eqn:Hfold; cbn [rbind] in Htc; [| discriminate].
  injection Htc as <-.
  destruct (rfold_append Index.size_text sizes _ _ Hfold) as (added & -> & Hall).
  find_substr ltac:(eapply Hall; eassumption).
Qed.

End Listing.

Section CachedListing.
Import Str Js Reading Cached.
Variables baseUrl apiKey : string.
Variable JSON_parse : string -> Res JsValue.

(** In the variant with the cache the answer of list_categories is made of
    the count and of the first category alone, whatever follows it in the
    response; an empty response gives no result at all. *)
Lemma list_categories_first_only w st st' categories :
  Cached.getCategories baseUrl apiKey JSON_parse w st = (Ok (JArr categories), st') ->
  match categories with
  | [] => Cached.list_categories baseUrl apiKey JSON_parse w st = (Ok None, st')
  | first :: rest =>
      forall t,
        first <> JNull -> category_text first = Ok t ->
        Cached.list_categories baseUrl apiKey JSON_parse w st
        = (Ok (Some (text_result
                       ("Found " ++ pretty (Z.of_nat (List.length categories)) ++ " categor"
                          ++ (if is_one (JNum (Z.of_nat (List.length categories)))
                              then "y" else "ies")
                          ++ ":" ++ nl ++ nl ++ t))), st')
  end.
Proof.
  intros Hget.
  unfold Cached.list_categories, Cached.list_categories_try, try_catch, bind, lift, ret.
  rewrite Hget. cbn [found_line get rbind iterate String.eqb Ascii.eqb Bool.eqb to_string].
  destruct categories as [| first rest]; [reflexivity |].
  intros t Hfirst Ht. rewrite Ht. cbn [rbind].
  destruct first; try congruence; now rewrite !append_assoc.
Qed.

End CachedListing.

(** * Examples *)

Section ToolExamples.
Import Str Js Reading.

Local Abbreviation b := Scenario.baseUrl.
Local Abbreviation k := Scenario.apiKey.

(** C9 fails on the variant with the cache: on a response with the
    categories avatars and banners list_categories names avatars and its size
    and says nothing of banners, while the tool of src/index.ts on the same
    response names both. *)
Theorem list_categories_stops_after_first :
  Json.parse Scenario.two_categories = Ok (JArr Scenario.two_categories_value)
  /\ fst (Cached.call_tool b k Json.parse (Scenario.online_at 1000)
            Cached.ListCategories Cached.initial)
     = Ok (Some (text_result
                   ("Found 2 categories:" ++ nl ++ nl
                      ++ "### avatars" ++ nl ++ nl
                      ++ "**Available Sizes:**" ++ nl ++ nl
                      ++ "- **thumb**: 64" ++ times ++ "48 pixels (image/png)" ++ nl ++ nl)))
  /\ includes "banners"
       ("Found 2 categories:" ++ nl ++ nl
          ++ "### avatars" ++ nl ++ nl
          ++ "**Available Sizes:**" ++ nl ++ nl
          ++ "- **thumb**: 64" ++ times ++ "48 pixels (image/png)" ++ nl ++ nl)
     = false
  /\ exists t,
      fst (Index.call_tool b k Json.parse (Scenario.online_at 1000) Index.ListCategories [])
      = Ok (text_result t)
      /\ includes ("### avatars" ++ nl) t = true
      /\ includes ("- **thumb**: 64" ++ times ++ "48 pixels (image/png)" ++ nl) t = true
      /\ includes ("### banners" ++ nl) t = true.
Proof.
  split; [vm_compute; reflexivity |].
  split; [vm_compute; reflexivity |].
  split; [vm_compute; reflexivity |].
  eexists. split; [vm_compute; reflexivity |].
  repeat split; vm_compute; reflexivity.
Qed.

Lemma not_found_parse :
  Json.parse Scenario.not_found_body = Ok (JObj [("error", JStr "not found")]).
Proof. vm_compute. reflexivity. Qed.

(** The 404 of the specification, decoded by the reference parser. *)
Lemma json_error_message_witness :
  Json.parse Scenario.not_found_body = Ok (JObj [("error", JStr "not found")])
  /\ includes "application/json" (Index.contentType Scenario.not_found) = true
  /\ ok Scenario.not_found = false
  /\ Index.errorMessage Json.parse Scenario.not_found = Scenario.not_found_pretty.
Proof.
  split; [exact not_found_parse |]. split; [reflexivity |].
  exact (proj2 (proj2 (json_error_message Json.parse)) not_found_parse).
Defined.

(** The 500 of the specification. *)
Lemma html_error_message_witness :
  includes "application/json" (Index.contentType Scenario.internal_error) = false
  /\ includes "text/html" (Index.contentType Scenario.internal_error) = true
  /\ has_pre_block "Internal Error" (body Scenario.internal_error)
  /\ exists first,
      Index.match_pre (body Scenario.internal_error) = Some first
      /\ Index.errorMessage Json.parse Scenario.internal_error
         = "Server error: " ++ Index.htmlError first.
Proof.
  assert (H1 : includes "application/json" (Index.contentType Scenario.internal_error)
               = false) by reflexivity.
  assert (H2 : includes "text/html" (Index.contentType Scenario.internal_error) = true)
    by reflexivity.
  assert (H3 : has_pre_block "Internal Error" (body Scenario.internal_error))
    by (exists "<html>", "</html>"; reflexivity).
  split; [exact H1 |]. split; [exact H2 |]. split; [exact H3 |].
  destruct (proj1 (proj1 (html_error_message Json.parse) Scenario.internal_error H1 H2)
              "Internal Error" H3) as (first & Hm & _ & _ & _ & Hmsg).
  exists first. split; assumption.
Defined.

(** C6 as stated fails: a content type that names text/html and
    application/json sends the page down the JSON branch, and the message is
    the raw page although it has a block. *)
Lemma mixed_content_type_takes_json_branch :
  includes "text/html" (Index.contentType Scenario.mixed_error) = true
  /\ ok Scenario.mixed_error = false
  /\ has_pre_block "Internal Error" (body Scenario.mixed_error)
  /\ Index.errorMessage Json.parse Scenario.mixed_error = Scenario.internal_error_page
  /\ Index.errorMessage Json.parse Scenario.mixed_error <> "Server error: Internal Error".
Proof.
  split; [reflexivity |]. split; [reflexivity |].
  split; [exists "<html>", "</html>"; reflexivity |].
  split; [vm_compute; reflexivity | vm_compute; discriminate].
Qed.

(** A 200 whose body is the text [not json]. *)
Lemma invalid_json_is_failure_witness :
  readable (Scenario.world (Resolved Scenario.garbled) 0)
    (index_file (Index.GetImageMetadata "abc"))
  /\ ok Scenario.garbled = true
  /\ Json.parse (body Scenario.garbled) = Throw Json.SyntaxError
  /\ fst (Index.call_tool b k Json.parse (Scenario.world (Resolved Scenario.garbled) 0)
            (Index.GetImageMetadata "abc") [])
     = Ok {| content := [ {| type := "text";
                             text := "Error: Invalid JSON response: "
                                       ++ take 200 (body Scenario.garbled) |} ];
             isError := true |}.
Proof.
  assert (Hp : Json.parse (body Scenario.garbled) = Throw Json.SyntaxError)
    by (vm_compute; reflexivity).
  split; [exact I |]. split; [reflexivity |]. split; [exact Hp |].
  exact (proj1 (invalid_json_is_failure b k Json.parse
                  (Scenario.world (Resolved Scenario.garbled) 0)
                  (Index.GetImageMetadata "abc") [] Scenario.garbled Json.SyntaxError
                  I eq_refl eq_refl Hp)).
Defined.

(** The network is down when get_image_metadata of src/index.ts is called. *)
Lemma failures_become_error_results_witness :
  Fails b k Json.parse (Scenario.offline 0)
    (index_file (Index.GetImageMetadata "abc"))
    (index_call (Scenario.offline 0) (Index.GetImageMetadata "abc"))
  /\ exists res,
      fst (Index.call_tool b k Json.parse (Scenario.offline 0)
             (Index.GetImageMetadata "abc") [])
      = Ok res
      /\ error_shaped res.
Proof.
  assert (H : Fails b k Json.parse (Scenario.offline 0)
                (index_file (Index.GetImageMetadata "abc"))
                (index_call (Scenario.offline 0) (Index.GetImageMetadata "abc")))
    by (apply (transport_error _ _ _ _ _ _ "fetch failed"); [exact I | reflexivity]).
  split; [exact H |].
  exact (proj1 (proj2 (proj2 (proj2
           (failures_become_error_results b k Json.parse (Scenario.offline 0)))))
           (Index.GetImageMetadata "abc") [] H).
Defined.

(** C10 as stated fails: with the network down, list_categories of the
    variant with the cache answers with a plain text and no isError. *)
Lemma list_categories_hides_failure :
  Fails b k Json.parse (Scenario.offline 0)
    (cached_file Cached.ListCategories)
    (cached_call (Scenario.offline 0) Cached.ListCategories)
  /\ fst (Cached.call_tool b k Json.parse (Scenario.offline 0)
            Cached.ListCategories Cached.initial)
     = Ok (Some {| content := [ {| type := "text";
                                   text := "No categories are currently available." |} ];
                   isError := false |})
  /\ ~ error_shaped (text_result "No categories are currently available.").
Proof.
  split; [apply (transport_error _ _ _ _ _ _ "fetch failed"); [exact I | reflexivity] |].
  split; [vm_compute; reflexivity |].
  intros (message & _ & Herr). discriminate.
Qed.

(** An upload with the file on disk and the network up: the variant with
    the cache sends the upload with the flag of the tool, then refreshes the
    size cache to name the resized files. *)
Lemma upload_example :
  Cached.calls
    (snd (Cached.upload_and_resize_image b k Json.parse Scenario.uploading
            "avatars" "/tmp/cat.png" Cached.initial))
  = [ {| endpoint := "/api/image/avatars?forceImmediateResize=true";
         options := {| method := Some "POST";
                       form := Some {| field := "image"; blob := "PNG";
                                       blob_type := "application/octet-stream";
                                       file_name := "cat.png" |} |} |};
      size_list_call ]
  /\ map endpoint
       (snd (Index.upload_image b k Json.parse Scenario.uploading "avatars" "/tmp/cat.png" []))
     = [ "/api/image/avatars?forceImmediateResize=false" ].
Proof. split; vm_compute; reflexivity. Qed.

End ToolExamples.

(** * The state across tool calls *)

Section FrameFacts.
Import Str Js Reading Cached Frame.

Lemma Evolves_trans a b c : Evolves a b -> Evolves b c -> Evolves a c.
Proof.
  induction 1 as [st | x st st' _ IH | m t st st' _ IH | t st st' _ IH]; intros Hbc.
  - exact Hbc.
  - apply (evolves_log x). now apply IH.
  - apply (evolves_store m t). now apply IH.
  - apply (evolves_touch t). now apply IH.
Qed.

Lemma Evolves_paired st st' : Evolves st st' -> paired st -> paired st'.
Proof.
  induction 1 as [st | x st st' _ IH | m t st st' _ IH | t st st' _ IH]; intros Hp.
  - exact Hp.
  - apply IH. exact Hp.
  - apply IH. unfold paired. cbn. split; discriminate.
  - apply IH. exact Hp.
Qed.

Lemma Evolves_populated st st' :
  Evolves st st' -> sizeCache st <> None -> sizeCache st' <> None.
Proof.
  induction 1 as [st | x st st' _ IH | m t st st' _ IH | t st st' _ IH]; intros Hp.
  - exact Hp.
  - apply IH. exact Hp.
  - apply IH. cbn. discriminate.
  - apply IH. exact Hp.
Qed.

Lemma Evolves_calls st st' :
  Evolves st st' -> exists added, calls st' = (calls st ++ added)%list.
Proof.
  induction 1 as [st | x st st' _ IH | m t st st' _ IH | t st st' _ IH].
  - exists []. now rewrite app_nil_r.
  - destruct IH as [added ->]. exists (x :: added). cbn. now rewrite <- app_assoc.
  - exact IH.
  - exact IH.
Qed.

Lemma evolving_ret {A} (a : A) : evolving (ret a).
Proof. intros st. apply evolves_done. Qed.

Lemma evolving_throw {A} e : evolving (@throw State A e).
Proof. intros st. apply evolves_done. Qed.

Lemma evolving_lift {A} (r : Res A) : evolving (lift r).
Proof. intros st. apply evolves_done. Qed.

Lemma evolving_bind {A B} (m : M State A) (k : A -> M State B) :
  evolving m -> (forall a, evolving (k a)) -> evolving (bind m k).
Proof.
  intros Hm Hk st. unfold bind. specialize (Hm st).
  destruct (m st) as [[a | e] st1]; cbn [snd] in *; [| exact Hm].
  eapply Evolves_trans; [exact Hm | apply Hk].
Qed.

Lemma evolving_try_catch {A} (m : M State A) (h : string -> M State A) :
  evolving m -> (forall e, evolving (h e)) -> evolving (try_catch m h).
Proof.
  intros Hm Hh st. unfold try_catch. specialize (Hm st).
  destruct (m st) as [[a | e] st1]; cbn [snd] in *; [exact Hm |].
  eapply Evolves_trans; [exact Hm | apply Hh].
Qed.

Section Server.
Variables baseUrl apiKey : string.
Variable JSON_parse : string -> Res JsValue.
Variable w : World.

Lemma evolving_makeApiCall ep o :
  evolving (Cached.makeApiCall baseUrl apiKey w ep o).
Proof.
  intros st. unfold Cached.makeApiCall.
  destruct (fetch w _); cbn [snd]; apply (evolves_log _ _ _ (evolves_done _)).
Qed.

Lemma evolving_getCategories :
  evolving (Cached.getCategories baseUrl apiKey JSON_parse w).
Proof.
  intros st.
  destruct (getCategories_cases baseUrl apiKey JSON_parse w st) as [H | (v & m & _ & H)];
    rewrite H; cbn [snd].
  - apply (evolves_log _ _ _ (evolves_done _)).
  - apply (evolves_log size_list_call), (evolves_store m (t_update w)), evolves_done.
Qed.

Lemma evolving_getSizeCache :
  evolving (Cached.getSizeCache baseUrl apiKey JSON_parse w).
Proof.
  intros st. rewrite getSizeCache_eq. cbn zeta. cbn [snd].
  destruct (stale st (t_entry w)).
  - eapply Evolves_trans; [apply evolving_getCategories |].
    apply (evolves_touch (t_exit w)), evolves_done.
  - apply (evolves_touch (t_exit w)), evolves_done.
Qed.

Ltac evolve :=
  repeat first
    [ apply evolving_ret | apply evolving_throw | apply evolving_lift
    | apply evolving_makeApiCall | apply evolving_getSizeCache
    | apply evolving_getCategories
    | apply evolving_try_catch; [| intros ?]
    | apply evolving_bind; [| intros ?]
    | match goal with
      | |- evolving (if ?b then _ else _) => destruct b
      | |- evolving (match ?x with _ => _ end) => destruct x
      end ].

Lemma evolving_build md label :
  evolving (Cached.buildImageMetadataResponseText baseUrl apiKey JSON_parse w md label).
Proof. unfold Cached.buildImageMetadataResponseText. evolve. Qed.

Lemma evolving_uploadImage category filename resize :
  evolving (Cached.uploadImage baseUrl apiKey JSON_parse w category filename resize).
Proof. unfold Cached.uploadImage, Cached.json. evolve. Qed.

Lemma evolving_call_tool call :
  evolving (Cached.call_tool baseUrl apiKey JSON_parse w call).
Proof.
  destruct call;
    cbv beta iota zeta
      delta [Cached.call_tool Cached.get_image_metadata Cached.get_image_metadata_try
             Cached.transcode_image Cached.transcode_image_try
             Cached.list_categories Cached.list_categories_try
             Cached.get_resized_image Cached.get_resized_image_try
             Cached.upload_and_resize_image Cached.upload_image Cached.json];
    repeat first [ apply evolving_build | apply evolving_uploadImage | progress evolve ].
Qed.

End Server.

Lemma run_tools_evolves baseUrl apiKey JSON_parse steps : forall st,
  Evolves st (run_tools baseUrl apiKey JSON_parse steps st).
Proof.
  induction steps as [| [w call] steps IH]; intros st; cbn [run_tools].
  - apply evolves_done.
  - eapply Evolves_trans; [apply evolving_call_tool | apply IH].
Qed.

(** X1.  However many tools are called and whatever the network answers, the
    cache and the time of its last refresh stay set together, a populated
    cache is never emptied, and the trace of requests only grows. *)
Theorem tools_keep_cache_paired baseUrl apiKey JSON_parse steps st :
  (paired st -> paired (run_tools baseUrl apiKey JSON_parse steps st))
  /\ (sizeCache st <> None ->
      sizeCache (run_tools baseUrl apiKey JSON_parse steps st) <> None)
  /\ (exists added,
         calls (run_tools baseUrl apiKey JSON_parse steps st)
         = (calls st ++ added)%list)
  /\ paired (run_tools baseUrl apiKey JSON_parse steps initial).
Proof.
  pose proof (run_tools_evolves baseUrl apiKey JSON_parse steps st) as H.
  split; [now apply Evolves_paired |].
  split; [now apply Evolves_populated |].
  split; [now apply Evolves_calls |].
  apply (Evolves_paired initial); [apply run_tools_evolves |].
  unfold paired. cbn. tauto.
Qed.

End FrameFacts.

(** * The cache seen through the tools *)

Section CacheUse.
Import Str Js Reading Cached Frame.
Variables baseUrl apiKey : string.
Variable JSON_parse : string -> Res JsValue.

Local Abbreviation getCategories := (Cached.getCategories baseUrl apiKey JSON_parse).
Local Abbreviation getSizeCache := (Cached.getSizeCache baseUrl apiKey JSON_parse).
Local Abbreviation list_categories := (Cached.list_categories baseUrl apiKey JSON_parse).
Local Abbreviation buildImageMetadataResponseText :=
  (Cached.buildImageMetadataResponseText baseUrl apiKey JSON_parse).
Local Abbreviation call_tool := (Cached.call_tool baseUrl apiKey JSON_parse).



(** X3.  A refresh keeps nothing of an answer it cannot take whole: when the
    answer is not a list, or one of the sizes it would store is null, the
    refresh returns null and the cache and the time of the last refresh stay
    as they were, the sizes read before the null included. *)
Theorem refresh_is_all_or_nothing w st r data :
  fetch w (size_list_request baseUrl apiKey) = Resolved r ->
  ok r = true ->
  JSON_parse (body r) = Ok data ->
  (iterate data = Throw TypeError_not_iterable
   \/ exists categories,
       data = JArr categories
       /\ Exists (fun s => has_name s = false) (cached_sizes categories)) ->
  getCategories w st = (Ok JNull, log_call size_list_call st)
  /\ sizeCache (snd (getSizeCache w st)) = sizeCache st
  /\ lastUpdatedAt (snd (getSizeCache w st)) = lastUpdatedAt st.
Proof.
  intros Hfetch Hok Hparse Hbad.
  assert (Hnull : getCategories w st = (Ok JNull, log_call size_list_call st)).
  { unfold Cached.getCategories, Cached.getCategories_try, try_catch, bind,
      Cached.makeApiCall, Cached.json, lift, read, write, ret.
    fold (size_list_request baseUrl apiKey). fold size_list_call.
    rewrite Hfetch, Hok. cbn [negb]. rewrite Hparse.
    destruct Hbad as [-> | (categories & -> & Hex)]; [reflexivity |].
    cbn [iterate].
    now destruct (rfold_add_sizes_throws categories ∅ (unnamed_is_unstorable _ Hex))
      as [e ->]. }
  split; [exact Hnull |].
  rewrite getSizeCache_eq. cbn zeta. rewrite Hnull.
  destruct (stale st (t_entry w)); split; reflexivity.
Qed.

(** X25.  A size that cannot be stored makes the refresh fail as a whole: when
    the 2xx answer is a list in which a size of an eligible category is null
    or undefined, or has a name that does not convert to a property key (an
    object with a property named toString), getCategories returns null and the
    cache and the time of the last refresh stay as they were. *)
Theorem refresh_fails_on_unstorable_size w st r categories :
  fetch w (size_list_request baseUrl apiKey) = Resolved r ->
  ok r = true ->
  JSON_parse (body r) = Ok (JArr categories) ->
  Exists (fun s => storable s = false) (cached_sizes categories) ->
  getCategories w st = (Ok JNull, log_call size_list_call st)
  /\ sizeCache (snd (getSizeCache w st)) = sizeCache st
  /\ lastUpdatedAt (snd (getSizeCache w st)) = lastUpdatedAt st.
Proof.
  intros Hfetch Hok Hparse Hex.
  pose proof (getCategories_unstorable baseUrl apiKey JSON_parse w st r categories
                Hfetch Hok Hparse Hex) as Hnull.
  split; [exact Hnull |].
  rewrite getSizeCache_eq. cbn zeta. rewrite Hnull.
  destruct (stale st (t_entry w)); split; reflexivity.
Qed.

(** list_categories leaves the state as getCategories does. *)
Lemma list_categories_state w st :
  snd (list_categories w st) = snd (getCategories w st).
Proof.
  unfold Cached.list_categories, Cached.list_categories_try, try_catch, bind, lift, ret.
  destruct (getCategories w st) as [[v | e] st1]; [| reflexivity].
  destruct v; try reflexivity; cbn [snd];
    destruct (found_line _); try reflexivity.
  all: try (destruct (iterate _) as [[| c items'] | e]; try reflexivity;
            destruct c; try reflexivity; destruct (category_text _); reflexivity).
Qed.

(** X4.  The tool list_categories asks the network for the size list every time, fresh
    cache or not, and does not count as a read of the cache: the time of the
    last access stays as it was, so that on a server whose cache was never
    read the first read after list_categories asks for the list again. *)
Theorem list_categories_bypasses_window w st :
  calls (snd (list_categories w st)) = (calls st ++ [size_list_call])%list
  /\ lastAccessedAt (snd (list_categories w st)) = lastAccessedAt st
  /\ (lastAccessedAt st = None ->
      forall w',
        calls (snd (getSizeCache w' (snd (list_categories w st))))
        = (calls st ++ [size_list_call; size_list_call])%list).
Proof.
  rewrite list_categories_state.
  destruct (getCategories_cases baseUrl apiKey JSON_parse w st) as [H | (v & m & _ & H)];
    rewrite H; cbn [snd]; (split; [reflexivity |]); (split; [reflexivity |]);
    intros Hnone w'; rewrite getSizeCache_calls; unfold stale; cbn;
    rewrite ?Hnone; destruct (sizeCache st); now rewrite <- app_assoc.
Qed.

Lemma fresh_same st st' now :
  sizeCache st' = sizeCache st -> lastAccessedAt st' = lastAccessedAt st ->
  fresh st now -> fresh st' now.
Proof. intros Hc Ht (m & t & H). exists m, t. now rewrite Hc, Ht. Qed.

Lemma fresh_log_call st now c : fresh st now -> fresh (log_call c st) now.
Proof. now apply fresh_same. Qed.

Lemma getSizeCache_when_fresh w st :
  fresh st (t_entry w) ->
  getSizeCache w st = (Ok (sizeCache st), touch (t_exit w) st).
Proof.
  intros (c & t & Hc & Ht & Hpos & Hle).
  rewrite (getSizeCache_fresh baseUrl apiKey JSON_parse w st c t) by assumption.
  now rewrite Hc.
Qed.

(** uploadImage writes to the trace alone. *)
Lemma uploadImage_keeps_cache w category filename resize st :
  sizeCache (snd (Cached.uploadImage baseUrl apiKey JSON_parse w category filename resize st))
  = sizeCache st
  /\ lastAccessedAt
       (snd (Cached.uploadImage baseUrl apiKey JSON_parse w category filename resize st))
     = lastAccessedAt st.
Proof.
  cbv [Cached.uploadImage Cached.makeApiCall Cached.json bind lift ret throw].
  destruct (readFile w filename) as [b | e]; [| now split].
  destruct (fetch w _) as [e | r]; [now split |].
  destruct (ok r); cbn [negb]; [| now split].
  destruct (JSON_parse (body r)) as [md |]; [| now split].
  destruct (get md "id"); [| now split].
  destruct (if truthy _ then _ else _) as [[|] |]; now split.
Qed.

(** On a fresh cache buildImageMetadataResponseText sends nothing. *)
Lemma build_calls_fresh w md label st :
  fresh st (t_entry w) ->
  calls (snd (buildImageMetadataResponseText w md label st)) = calls st.
Proof.
  intros Hfresh.
  unfold Cached.buildImageMetadataResponseText, bind, lift, ret.
  destruct (get md "id"); [| reflexivity].
  destruct (get md "category"); [| reflexivity].
  destruct (get md "resizedFiles") as [files |]; [| reflexivity].
  destruct (if truthy files then _ else _) as [[|] |]; try reflexivity.
  rewrite (getSizeCache_when_fresh w st Hfresh).
  destruct (iterate files); [| reflexivity].
  destruct (rfold _ _ _); reflexivity.
Qed.

(** X5.  While the cache is fresh every tool but list_categories sends its own
    request and no other, whatever is answered; without a readable file an
    upload tool sends none. *)
Theorem fresh_cache_one_request w call st :
  call <> ListCategories ->
  fresh st (t_entry w) ->
  calls (snd (call_tool w call st))
  = match cached_file call with
    | Some filename =>
        match readFile w filename with
        | Ok _ => (calls st ++ [cached_call w call])%list
        | Throw _ => calls st
        end
    | None => (calls st ++ [cached_call w call])%list
    end.
Proof.
  intros Hcall Hfresh.
  destruct call; try congruence; cbn [cached_file cached_call].
  - cbv beta iota zeta delta [Cached.call_tool Cached.get_image_metadata
                               Cached.get_image_metadata_try Cached.makeApiCall
                               Cached.json try_catch bind lift ret throw get_call].
    destruct (fetch w _) as [e | r]; [reflexivity |].
    destruct (ok r); cbn [negb]; [| reflexivity].
    destruct (JSON_parse (body r)) as [md | e]; [| reflexivity].
    pose proof (build_calls_fresh w md "Image Metadata" _
                  (fresh_log_call st _ (get_call ("/api/image/" ++ imageServiceId)) Hfresh))
      as Hb.
    unfold get_call in Hb.
    destruct (buildImageMetadataResponseText w md _ _) as [[t | e] st2]; exact Hb.
  - cbv beta iota zeta delta [Cached.call_tool Cached.transcode_image
                               Cached.transcode_image_try Cached.makeApiCall
                               Cached.json try_catch bind lift ret throw post].
    destruct (fetch w _) as [e | r]; [reflexivity |].
    destruct (ok r); cbn [negb]; [| reflexivity].
    destruct (JSON_parse (body r)) as [md | e]; [| reflexivity].
    pose proof (build_calls_fresh w md "Image Transcode Result" _
                  (fresh_log_call st _
                     {| endpoint := "/api/image/" ++ imageServiceId ++ "/transcode";
                        options := {| method := Some "POST"; form := None |} |} Hfresh))
      as Hb.
    destruct (buildImageMetadataResponseText w md _ _) as [[t | e] st2]; exact Hb.
  - cbv beta iota zeta delta [Cached.call_tool Cached.get_resized_image
                               Cached.get_resized_image_try Cached.makeApiCall
                               Cached.json try_catch bind lift ret throw get_call].
    destruct (fetch w _) as [e | r]; [reflexivity |].
    destruct (ok r); cbn [negb]; [| reflexivity].
    destruct (JSON_parse (body r)) as [md | e]; [| reflexivity].
    destruct (if truthy md then _ else _) as [u | e]; [| reflexivity].
    destruct (truthy u); reflexivity.
  - cbv beta iota zeta delta [Cached.call_tool Cached.upload_and_resize_image
                               try_catch bind ret].
    pose proof (uploadImage_calls baseUrl apiKey JSON_parse w category filename true st)
      as Hup.
    destruct (uploadImage_keeps_cache w category filename true st) as [Hc Ht].
    destruct (Cached.uploadImage baseUrl apiKey JSON_parse w category filename true st)
      as [[md | e] st1] eqn:Hrun; cbn [snd] in *.
    + pose proof (build_calls_fresh w md "Image uploaded and resized" st1
                    (fresh_same st st1 _ Hc Ht Hfresh)) as Hb.
      destruct (buildImageMetadataResponseText w md _ st1) as [[t | e] st2];
        cbn [snd] in *; rewrite Hb; destruct (readFile w filename); exact Hup.
    + destruct (readFile w filename); exact Hup.
  - cbv beta iota zeta delta [Cached.call_tool Cached.upload_image
                               try_catch bind ret].
    pose proof (uploadImage_calls baseUrl apiKey JSON_parse w category filename false st)
      as Hup.
    destruct (uploadImage_keeps_cache w category filename false st) as [Hc Ht].
    destruct (Cached.uploadImage baseUrl apiKey JSON_parse w category filename false st)
      as [[md | e] st1] eqn:Hrun; cbn [snd] in *.
    + pose proof (build_calls_fresh w md "Image uploaded" st1
                    (fresh_same st st1 _ Hc Ht Hfresh)) as Hb.
      destruct (buildImageMetadataResponseText w md _ st1) as [[t | e] st2];
        cbn [snd] in *; rewrite Hb; destruct (readFile w filename); exact Hup.
    + destruct (readFile w filename); exact Hup.
Qed.

End CacheUse.

(** ** The cache seen through the tools, on examples *)

Section CacheUseExamples.
Import Str Js Reading Cached Frame.

Lemma broken_sizes_parse :
  Json.parse Cases.broken_sizes = Ok (JArr Cases.broken_sizes_value).
Proof. vm_compute. reflexivity. Qed.

Lemma populated_fresh : fresh Scenario.populated 1500.
Proof.
  unfold fresh. eexists. exists 1002.
  split; [vm_compute; reflexivity |]. split; [vm_compute; reflexivity |].
  split; [reflexivity |]. vm_compute. discriminate.
Qed.


(** The populated cache and a size list with a null among the sizes of its
    second category. *)
Lemma refresh_is_all_or_nothing_witness :
  Exists (fun s => has_name s = false) (cached_sizes Cases.broken_sizes_value)
  /\ Cached.getCategories Scenario.baseUrl Scenario.apiKey Json.parse
       (Scenario.online Cases.broken_sizes 400000) Scenario.populated
     = (Ok JNull, log_call size_list_call Scenario.populated)
  /\ sizeCache (snd (Cached.getSizeCache Scenario.baseUrl Scenario.apiKey Json.parse
                       (Scenario.online Cases.broken_sizes 400000) Scenario.populated))
     = sizeCache Scenario.populated
  /\ lastUpdatedAt (snd (Cached.getSizeCache Scenario.baseUrl Scenario.apiKey Json.parse
                           (Scenario.online Cases.broken_sizes 400000) Scenario.populated))
     = lastUpdatedAt Scenario.populated.
Proof.
  assert (H : Exists (fun s => has_name s = false)
                (cached_sizes Cases.broken_sizes_value))
    by (apply Exists_cons_tl, Exists_cons_hd; reflexivity).
  split; [exact H |].
  exact (refresh_is_all_or_nothing Scenario.baseUrl Scenario.apiKey Json.parse
           (Scenario.online Cases.broken_sizes 400000) Scenario.populated _ _
           eq_refl eq_refl broken_sizes_parse
           (or_intror (ex_intro _ Cases.broken_sizes_value (conj eq_refl H)))).
Defined.

Lemma unprintable_sizes_parse :
  Json.parse Cases.unprintable_sizes = Ok (JArr Cases.unprintable_sizes_value).
Proof. vm_compute. reflexivity. Qed.

(** The populated cache and a size list with a size whose name is an object
    with a property named toString. *)
Lemma refresh_fails_on_unstorable_size_witness :
  Exists (fun s => storable s = false) (cached_sizes Cases.unprintable_sizes_value)
  /\ Cached.getCategories Scenario.baseUrl Scenario.apiKey Json.parse
       (Scenario.online Cases.unprintable_sizes 400000) Scenario.populated
     = (Ok JNull, log_call size_list_call Scenario.populated)
  /\ sizeCache (snd (Cached.getSizeCache Scenario.baseUrl Scenario.apiKey Json.parse
                       (Scenario.online Cases.unprintable_sizes 400000) Scenario.populated))
     = sizeCache Scenario.populated
  /\ lastUpdatedAt (snd (Cached.getSizeCache Scenario.baseUrl Scenario.apiKey Json.parse
                           (Scenario.online Cases.unprintable_sizes 400000)
                           Scenario.populated))
     = lastUpdatedAt Scenario.populated.
Proof.
  assert (H : Exists (fun s => storable s = false)
                (cached_sizes Cases.unprintable_sizes_value))
    by (apply Exists_cons_hd; reflexivity).
  split; [exact H |].
  exact (refresh_fails_on_unstorable_size Scenario.baseUrl Scenario.apiKey Json.parse
           (Scenario.online Cases.unprintable_sizes 400000) Scenario.populated _ _
           eq_refl eq_refl unprintable_sizes_parse H).
Defined.

(** An upload half a second after the cache was read. *)
Lemma fresh_cache_one_request_witness :
  fresh Scenario.populated (t_entry (Cases.serving Scenario.uploaded_body 1500))
  /\ calls (snd (Cached.call_tool Scenario.baseUrl Scenario.apiKey Json.parse
                   (Cases.serving Scenario.uploaded_body 1500)
                   (UploadImage "avatars" "/tmp/a.png") Scenario.populated))
     = (calls Scenario.populated
        ++ [upload_call (Cases.serving Scenario.uploaded_body 1500)
              "avatars" "/tmp/a.png" "false"])%list.
Proof.
  split; [exact populated_fresh |].
  exact (fresh_cache_one_request Scenario.baseUrl Scenario.apiKey Json.parse
           (Cases.serving Scenario.uploaded_body 1500)
           (UploadImage "avatars" "/tmp/a.png") Scenario.populated
           ltac:(discriminate) populated_fresh).
Defined.

End CacheUseExamples.

(** * The text built from the metadata of an image *)

Section MetadataText.
Import Str Js Reading Cached Frame.
Variables baseUrl apiKey : string.
Variable JSON_parse : string -> Res JsValue.

Local Abbreviation getSizeCache := (Cached.getSizeCache baseUrl apiKey JSON_parse).
Local Abbreviation buildImageMetadataResponseText :=
  (Cached.buildImageMetadataResponseText baseUrl apiKey JSON_parse).

Ltac find_substr leaf :=
  first [ solve [leaf]
        | apply Substr_tail; find_substr leaf
        | apply Substr_append_l; find_substr leaf
        | apply Substr_append_r; find_substr leaf ].

Lemma Substr_within a b c : Substr a b -> Substr b c -> Substr a c.
Proof.
  intros (p & q & ->) (p' & q' & ->). exists (p' ++ p), (q ++ q').
  now rewrite !append_assoc.
Qed.

(** X7.  For an image whose resizedFiles is falsy (absent, null, empty text,
    zero) or has a length that is not above zero, the text ends with the note
    and the size cache is not read: no request is sent and the state is left
    as it was, stale cache or not.  The metadata is not null, and no object in
    it has a property named toString. *)
Theorem no_resized_files_no_cache_read w metadata label st :
  has_name metadata = true ->
  Shape.plain metadata = true ->
  truthy (prop metadata "resizedFiles") = false
  \/ gt_zero (prop (prop metadata "resizedFiles") "length") = Ok false ->
  buildImageMetadataResponseText w metadata label st
  = (Ok ("## " ++ label ++ nl ++ nl
           ++ "**Image ID:** " ++ to_string (prop metadata "id") ++ nl ++ nl
           ++ "**Category:** " ++ to_string (prop metadata "category") ++ nl ++ nl
           ++ "*Note: No resized files available for this image.*" ++ nl ++ nl),
     st).
Proof.
  intros Hmd _ Hfiles.
  unfold Cached.buildImageMetadataResponseText, bind, lift, ret.
  rewrite !(get_has_name metadata _ Hmd).
  destruct (truthy (prop metadata "resizedFiles")) eqn:Ht.
  - destruct Hfiles as [Hf | Hlen]; [discriminate |].
    assert (Hn : has_name (prop metadata "resizedFiles") = true)
      by (destruct (prop metadata "resizedFiles"); simpl in *; congruence).
    rewrite (get_has_name _ "length" Hn). cbn [rbind]. rewrite Hlen.
    now rewrite !append_assoc.
  - now rewrite !append_assoc.
Qed.




End MetadataText.

Section MetadataTextExamples.
Import Str Js Reading Cached Frame.



(** Metadata without resized files, with the network down and no cache. *)
Lemma no_resized_files_no_cache_read_witness :
  has_name Cases.plain_value = true
  /\ Shape.plain Cases.plain_value = true
  /\ truthy (prop Cases.plain_value "resizedFiles") = false
  /\ Cached.buildImageMetadataResponseText Scenario.baseUrl Scenario.apiKey Json.parse
       (Scenario.offline 1000) Cases.plain_value "Image Metadata" initial
     = (Ok ("## Image Metadata" ++ nl ++ nl
              ++ "**Image ID:** i1" ++ nl ++ nl
              ++ "**Category:** avatars" ++ nl ++ nl
              ++ "*Note: No resized files available for this image.*" ++ nl ++ nl),
        initial).
Proof.
  split; [reflexivity |]. split; [reflexivity |]. split; [reflexivity |].
  exact (no_resized_files_no_cache_read Scenario.baseUrl Scenario.apiKey Json.parse
           (Scenario.offline 1000) Cases.plain_value "Image Metadata" initial
           eq_refl eq_refl (or_introl eq_refl)).
Defined.


End MetadataTextExamples.

(** * The answers of src/index.ts to a response that decodes *)

Section IndexAnswers.
Import Str Js Reading Index.

Ltac find_substr leaf :=
  first [ solve [leaf]
        | apply Substr_tail; find_substr leaf
        | apply Substr_append_l; find_substr leaf
        | apply Substr_append_r; find_substr leaf ].

Lemma get_object v k : is_object v = true -> get v k = Ok (prop v k).
Proof. intros H. apply get_has_name. now destruct v. Qed.

Lemma rfold_total {A} (f : A -> Res string) (items : list A) :
  (forall x, exists t, f x = Ok t) ->
  forall acc, exists res, rfold items acc (fun acc x => t <~ f x ;; Ok (acc ++ t)) = Ok res.
Proof.
  intros Hf. induction items as [| x items IH]; intros acc; cbn [rfold]; [eauto |].
  destruct (Hf x) as [t ->]. cbn [rbind]. apply IH.
Qed.

Lemma size_text_total size : exists t, size_text size = Ok t.
Proof.
  unfold size_text. destruct (is_object size) eqn:Hobj; [| eauto].
  rewrite !(get_object size _ Hobj). cbn [rbind]. eauto.
Qed.

Lemma category_text_total category : exists t, category_text category = Ok t.
Proof.
  unfold category_text. destruct (is_object category) eqn:Hobj; [| eauto].
  rewrite !(get_object category _ Hobj). cbn [rbind].
  destruct (prop category "sizes") as [| | | | | sizes |]; cbn [isArray rbind]; eauto.
  cbn [get String.eqb Ascii.eqb Bool.eqb rbind iterate].
  cbn [gt_zero rbind]. destruct (0 <? _); [| eauto].
  destruct (rfold_total size_text sizes size_text_total EmptyString) as [lines ->].
  cbn [rbind]. eauto.
Qed.

Lemma categories_text_total items : exists t, categories_text (JArr items) = Ok t.
Proof.
  unfold categories_text. cbn [iterate get rbind String.eqb Ascii.eqb Bool.eqb].
  destruct items as [| c items]; cbn [rbind]; [eauto |].
  destruct (rfold_total category_text (c :: items) category_text_total
              ("Found " ++ to_string (JNum (Z.of_nat (List.length (c :: items))))
                 ++ " categor"
                 ++ (if is_one (JNum (Z.of_nat (List.length (c :: items))))
                     then "y" else "ies") ++ ":" ++ nl ++ nl)) as [listing ->].
  cbn [rbind]. eauto.
Qed.

Lemma metadata_text_total metadata :
  is_object metadata = true -> exists t, metadata_text metadata = Ok t.
Proof.
  intros Hobj. unfold metadata_text. rewrite !(get_object metadata _ Hobj).
  cbn [rbind]. eauto.
Qed.

Lemma resized_text_total uuid size data :
  is_object data = true -> exists t, resized_text uuid size data = Ok t.
Proof.
  intros Hobj. unfold resized_text. rewrite !(get_object data _ Hobj). cbn [rbind].
  destruct (truthy _); eauto.
Qed.

Lemma join_Substr sep x parts : x ∈ parts -> Substr x (join sep parts).
Proof.
  induction parts as [| y parts IH]; intros Hin; [inversion Hin |].
  apply elem_of_cons in Hin as [-> | Hin].
  - destruct parts; cbn [join]; [apply Substr_refl | apply Substr_append_r, Substr_refl].
  - destruct parts as [| z parts]; [inversion Hin |].
    change (join sep (y :: z :: parts)) with (y ++ sep ++ join sep (z :: parts)).
    apply Substr_append_l, Substr_append_l. now apply IH.
Qed.

(** Every entry of the response whose key is not among the skipped ones has
    its line in the additional information. *)
Lemma additional_shows skipped data key value :
  (key, value) ∈ entries data ->
  existsb (String.eqb key) skipped = false ->
  Substr ("- **" ++ key ++ ":** " ++ stringify value) (additional skipped data).
Proof.
  intros Hin Hskip. unfold additional.
  set (line := fun '(key, value) =>
                 if existsb (String.eqb key) skipped then None
                 else Some ("- **" ++ key ++ ":** " ++ stringify value)).
  assert (Hline : ("- **" ++ key ++ ":** " ++ stringify value)
                  ∈ omap line (entries data)).
  { apply list_elem_of_omap. exists (key, value). split; [exact Hin |].
    subst line. cbv beta iota. now rewrite Hskip. }
  destruct (omap line (entries data)) as [| l ls] eqn:Hls; [inversion Hline |].
  rewrite <- Hls in *.
  apply Substr_append_l, Substr_append_l, Substr_append_r. now apply join_Substr.
Qed.

Lemma existsb_eqb_false key skipped :
  key ∉ skipped -> existsb (String.eqb key) skipped = false.
Proof.
  induction skipped as [| k skipped IH]; intros Hnot; [reflexivity |].
  cbn [existsb]. apply not_elem_of_cons in Hnot as [Hne Hrest].
  apply String.eqb_neq in Hne. rewrite Hne. now apply IH.
Qed.

Lemma field_line_shows label v :
  truthy v = true -> field_line label v = "**" ++ label ++ ":** " ++ to_string v ++ nl ++ nl.
Proof. unfold field_line. now intros ->. Qed.

Section Server.
Variables baseUrl apiKey : string.
Variable JSON_parse : string -> Res JsValue.

Local Abbreviation call_tool := (Index.call_tool baseUrl apiKey JSON_parse).
Local Abbreviation normalize := (Index.normalize JSON_parse).

Lemma normalize_ok what r data :
  ok r = true -> JSON_parse (body r) = Ok data -> normalize what r = Ok data.
Proof. intros Hok Hparse. unfold Index.normalize. now rewrite Hok, Hparse. Qed.

Ltac run_index :=
  cbv [Index.call_tool Index.get_image_metadata Index.list_categories
       Index.get_resized_image Index.upload_and_resize_image Index.upload_image
       Index.upload Index.makeApiCall try_catch bind lift ret
       index_call index_file index_label upload_call get_call request readable
       Index.upload_path post upload_form endpoint options].

(** X12.  A response with a 2xx status and a body that decodes is never answered
    with an error: whatever the shape of the decoded value (no object of which
    has a property named toString), each tool of src/index.ts formats it
    without throwing and returns one text block without isError, having sent
    its own request and nothing else. *)
Theorem index_success_is_not_error w call trace r data :
  readable w (index_file call) ->
  fetch w (request baseUrl apiKey (index_call w call)) = Resolved r ->
  ok r = true ->
  JSON_parse (body r) = Ok data ->
  Shape.plain data = true ->
  exists t,
    call_tool w call trace = (Ok (text_result t), (trace ++ [index_call w call])%list).
Proof.
  intros Hfile Hfetch Hok Hparse _.
  destruct call; revert Hfile Hfetch; run_index.
  - intros _ ->. rewrite (normalize_ok _ r data Hok Hparse).
    destruct (is_object data) eqn:Hobj; [| eauto].
    destruct (metadata_text_total data Hobj) as [t ->]. eauto.
  - intros _ ->. rewrite (normalize_ok _ r data Hok Hparse).
    destruct data; cbn [isArray]; eauto.
    destruct (categories_text_total items) as [t ->]. eauto.
  - intros _ ->. rewrite (normalize_ok _ r data Hok Hparse).
    destruct (is_object data) eqn:Hobj; [| eauto].
    destruct (resized_text_total uuid size data Hobj) as [t ->]. eauto.
  - intros [b Hb]. rewrite (bytes_read _ _ _ Hb), Hb. intros ->.
    rewrite (normalize_ok _ r data Hok Hparse). eauto.
  - intros [b Hb]. rewrite (bytes_read _ _ _ Hb), Hb. intros ->.
    rewrite (normalize_ok _ r data Hok Hparse). eauto.
Qed.

(** X13.  When its request is answered 2xx with a body that decodes to an
    object no object of which has a property named toString, the tool
    get_image_metadata of src/index.ts shows the whole answer: the raw JSON,
    the id and the category when they are set, and one line for every other
    field of the response. *)
Theorem index_metadata_shows_every_field w uuid trace r metadata :
  fetch w (request baseUrl apiKey (get_call ("/api/image/" ++ uuid))) = Resolved r ->
  ok r = true ->
  JSON_parse (body r) = Ok metadata ->
  is_object metadata = true ->
  Shape.plain metadata = true ->
  exists t,
    call_tool w (GetImageMetadata uuid) trace
    = (Ok (text_result t), (trace ++ [get_call ("/api/image/" ++ uuid)])%list)
    /\ Substr (stringify2 metadata) t
    /\ (truthy (prop metadata "id") = true ->
        Substr ("**Image ID:** " ++ to_string (prop metadata "id") ++ nl) t)
    /\ (truthy (prop metadata "category") = true ->
        Substr ("**Category:** " ++ to_string (prop metadata "category") ++ nl) t)
    /\ forall key value,
         (key, value) ∈ entries metadata ->
         key ∉ ["id"; "category"; "downloadedS3Path"; "originalFileUrl"] ->
         Substr ("- **" ++ key ++ ":** " ++ stringify value) t.
Proof.
  intros Hfetch Hok Hparse Hobj _. revert Hfetch. run_index. intros ->.
  rewrite (normalize_ok _ r metadata Hok Hparse). rewrite Hobj.
  unfold metadata_text. rewrite !(get_object metadata _ Hobj). cbn [rbind].
  eexists. split; [reflexivity |].
  split; [| split; [| split]].
  - unfold raw_json. find_substr ltac:(apply Substr_refl).
  - intros Hid. rewrite (field_line_shows "Image ID" _ Hid).
    find_substr ltac:(exists EmptyString, nl; cbn [String.append];
                      rewrite ?append_assoc; reflexivity).
  - intros Hcat. rewrite (field_line_shows "Category" _ Hcat).
    find_substr ltac:(exists EmptyString, nl; cbn [String.append];
                      rewrite ?append_assoc; reflexivity).
  - intros key value Hin Hkey.
    pose proof (additional_shows _ metadata key value Hin (existsb_eqb_false _ _ Hkey))
      as Hsub.
    find_substr ltac:(exact Hsub).
Qed.

(** X14.  When its request is answered 2xx with a body that decodes to a
    list no object of which has a property named toString, the tool
    list_categories of src/index.ts names every category of the response that
    is an object and every size of each that is an object, and says so when
    the list is empty. *)
Theorem index_lists_all_categories w trace r items :
  fetch w (request baseUrl apiKey (get_call "/api/category/list")) = Resolved r ->
  ok r = true ->
  JSON_parse (body r) = Ok (JArr items) ->
  Shape.plain (JArr items) = true ->
  exists t,
    call_tool w ListCategories trace
    = (Ok (text_result t), (trace ++ [get_call "/api/category/list"])%list)
    /\ (items = [] -> Substr "No categories are currently available." t)
    /\ forall category,
         category ∈ items -> is_object category = true ->
         Substr ("### " ++ to_string (or_else (prop category "name") (JStr "Unknown")) ++ nl) t
         /\ forall sizes size,
              prop category "sizes" = JArr sizes -> size ∈ sizes ->
              is_object size = true ->
              Substr ("- **" ++ to_string (or_else (prop size "name") (JStr "Unknown"))
                        ++ "**: "
                        ++ to_string (or_else (prop size "width") (JStr "?")) ++ times
                        ++ to_string (or_else (prop size "height") (JStr "?"))
                        ++ " pixels ("
                        ++ to_string (or_else (prop size "mimeType") (JStr "Unknown"))
                        ++ ")" ++ nl) t.
Proof.
  intros Hfetch Hok Hparse _. revert Hfetch. run_index. intros ->.
  rewrite (normalize_ok _ r (JArr items) Hok Hparse). cbn [isArray].
  destruct (categories_text_total items) as [t Ht]. rewrite Ht.
  exists t. split; [reflexivity |]. split.
  - intros ->. revert Ht. unfold categories_text. cbn [iterate get rbind].
    intros [= <-]. find_substr ltac:(apply starts_with_Substr; reflexivity).
  - intros category Hin Hobj.
    destruct (category_text_total category) as [tc Htc].
    pose proof (index_lists_every_category items t Ht category tc Hin Htc) as Hsub.
    split.
    + eapply Substr_within; [| exact Hsub].
      revert Htc. unfold category_text. rewrite Hobj.
      rewrite !(get_object category _ Hobj). cbn [rbind].
      destruct (if isArray _ then _ else _) as [[|] |]; cbn [rbind]; [| | discriminate].
      * destruct (iterate _); cbn [rbind]; [| discriminate].
        destruct (rfold _ _ _); cbn [rbind]; [| discriminate].
        intros [= <-]. rewrite !append_assoc.
        exists EmptyString. eexists. cbn [String.append]. now rewrite !append_assoc.
      * intros [= <-]. rewrite !append_assoc.
        exists EmptyString. eexists. cbn [String.append]. now rewrite !append_assoc.
    + intros sizes size Hsizes Hsize Hsobj.
      eapply Substr_within; [| exact Hsub].
      assert (Hget : get category "sizes" = Ok (JArr sizes))
        by (rewrite (get_object category _ Hobj); now rewrite Hsizes).
      eapply (index_lists_every_size category sizes tc Htc Hobj Hget size); [exact Hsize |].
      unfold size_text. rewrite Hsobj. now rewrite !(get_object size _ Hsobj).
Qed.

End Server.

End IndexAnswers.

(** * The URL of a resized image in the three variants *)

Section ResizedUrl.
Import Str Js Reading.
Variables baseUrl apiKey : string.
Variable JSON_parse : string -> Res JsValue.

Ltac run_resized :=
  cbv [Index.call_tool Index.get_image_metadata Index.get_resized_image Index.makeApiCall
       Basic.call_tool Basic.get_resized_image Basic.makeApiCall
       Cached.call_tool Cached.get_resized_image Cached.get_resized_image_try
       Cached.makeApiCall Cached.json
       try_catch bind lift ret throw request get_call endpoint options].

(** X17.  When the service answers with an object whose url is a non-empty
    string, every variant shows that URL: the first variant as the whole
    text, the other two on the Download URL line. *)
Theorem resized_url_is_shown w uuid size r fields s trace st :
  fetch w (request baseUrl apiKey (get_call ("/api/image/s/" ++ uuid ++ "/" ++ size)))
  = Resolved r ->
  ok r = true ->
  JSON_parse (body r) = Ok (JObj fields) ->
  lookup_field "url" fields = Some (JStr s) ->
  s <> EmptyString ->
  fst (Basic.call_tool baseUrl apiKey JSON_parse w (Basic.GetResizedImage uuid size) trace)
  = Ok (text_result s)
  /\ (exists t,
        fst (Index.call_tool baseUrl apiKey JSON_parse w
               (Index.GetResizedImage uuid size) trace)
        = Ok (text_result t)
        /\ Substr ("**Download URL:** " ++ s ++ nl) t)
  /\ (exists t,
        fst (Cached.call_tool baseUrl apiKey JSON_parse w
               (Cached.GetResizedImage uuid size) st)
        = Ok (Some (text_result t))
        /\ Substr ("**Download URL:** " ++ s ++ nl) t).
Proof.
  intros Hfetch Hok Hparse Hurl Hs.
  assert (Htruthy : truthy (JStr s) = true).
  { cbn [truthy]. apply negb_true_iff, String.eqb_neq, Hs. }
  revert Hfetch. run_resized. intros Hfetch. rewrite !Hfetch.
  unfold Basic.decoded, Index.normalize. rewrite Hok, Hparse.
  cbn [negb is_object has_property get andb truthy snd fst]. rewrite Hurl.
  cbn [truthy to_string fst] in *. rewrite Htruthy. cbn [fst].
  split; [reflexivity |]. split.
  - unfold Index.resized_text. cbn [get rbind has_property]. rewrite Hurl.
    cbn [truthy to_string]. rewrite Htruthy. cbn [fst].
    eexists. split; [reflexivity |].
    exists ("## Resized Image URL" ++ nl ++ nl ++ "**Image UUID:** " ++ uuid ++ nl ++ nl
              ++ "**Requested Size:** " ++ size ++ nl ++ nl),
           (nl ++ signed_url_note "download the image at the requested size"
              ++ Index.additional ["url"] (JObj fields) ++ Index.raw_json (JObj fields)).
    now rewrite !append_assoc.
  - eexists. split; [reflexivity |].
    exists ("## Resized Image URL" ++ nl ++ nl ++ "**Image UUID:** " ++ uuid ++ nl ++ nl
              ++ "**Requested Size:** " ++ size ++ nl ++ nl),
           (nl ++ signed_url_note "download the image at the requested size").
    now rewrite !append_assoc.
Qed.

(** X18.  When the answer is an object without a url (or with an empty one),
    src/index.ts answers with the warning and the data, and the other two
    variants with the data alone: the warning of the cached variant is never
    reached. *)
Theorem resized_without_url w uuid size r fields trace st :
  fetch w (request baseUrl apiKey (get_call ("/api/image/s/" ++ uuid ++ "/" ++ size)))
  = Resolved r ->
  ok r = true ->
  JSON_parse (body r) = Ok (JObj fields) ->
  truthy (prop (JObj fields) "url") = false ->
  fst (Basic.call_tool baseUrl apiKey JSON_parse w (Basic.GetResizedImage uuid size) trace)
  = Ok (text_result (stringify2 (JObj fields)))
  /\ fst (Cached.call_tool baseUrl apiKey JSON_parse w
            (Cached.GetResizedImage uuid size) st)
     = Ok (Some (text_result (stringify2 (JObj fields))))
  /\ fst (Index.call_tool baseUrl apiKey JSON_parse w
            (Index.GetResizedImage uuid size) trace)
     = Ok (text_result
             ("## Resized Image URL" ++ nl ++ nl
                ++ "**Warning:** No URL found in the response." ++ nl ++ nl
                ++ "**Image UUID:** " ++ uuid ++ nl
                ++ "**Requested Size:** " ++ size ++ nl ++ nl
                ++ "**Response Data:**" ++ nl
                ++ Index.fence ++ "json" ++ nl ++ stringify2 (JObj fields) ++ nl
                ++ Index.fence)).
Proof.
  intros Hfetch Hok Hparse Hurl.
  revert Hfetch. run_resized. intros Hfetch. rewrite !Hfetch.
  unfold Basic.decoded, Index.normalize. rewrite Hok, Hparse.
  unfold prop in Hurl. cbn [get] in Hurl.
  cbn [negb is_object has_property get andb truthy snd fst].
  unfold Index.resized_text. cbn [get rbind has_property].
  destruct (lookup_field "url" fields) as [v |] eqn:Hv.
  - rewrite Hurl. cbn [fst]. split; [reflexivity |]. split; [reflexivity |].
    destruct v; cbn [truthy] in *; try reflexivity. now rewrite Hurl.
  - cbn [truthy fst]. now split.
Qed.



End ResizedUrl.

(** * The answers of the first variant and the edges of the cached one *)

Section OtherAnswers.
Import Str Js Reading.
Variables baseUrl apiKey : string.
Variable JSON_parse : string -> Res JsValue.

(** X15.  The first variant answers a 2xx response whose body decodes with one
    block of type text and without isError, whatever the decoded value is,
    having sent its own request and nothing else.  The text is the decoded
    value as JSON.stringify prints it with an indent of 2, except that
    get_resized_image passes on the url of an object, when it is truthy, as
    it is: a string, or whatever else the service sent. *)
Theorem basic_success_is_not_error w call trace r data :
  readable w (basic_file call) ->
  fetch w (request baseUrl apiKey (basic_call w call)) = Resolved r ->
  ok r = true ->
  JSON_parse (body r) = Ok data ->
  Basic.call_tool baseUrl apiKey JSON_parse w call trace
  = (Ok {| content :=
             [ {| type := "text";
                  text := match call with
                          | Basic.GetResizedImage _ _ =>
                              if is_object data && has_property "url" data
                                 && truthy (prop data "url")
                              then prop data "url"
                              else JStr (stringify2 data)
                          | _ => JStr (stringify2 data)
                          end |} ];
           isError := false |},
     (trace ++ [basic_call w call])%list).
Proof.
  intros Hfile Hfetch Hok Hparse.
  assert (Hdec : forall what, Basic.decoded JSON_parse what r = Ok data).
  { intros what. unfold Basic.decoded. now rewrite Hok. }
  destruct call; revert Hfile Hfetch;
    cbv [Basic.call_tool Basic.get_image_metadata
         Basic.get_resized_image Basic.upload_and_resize_image Basic.upload_image
         Basic.upload Basic.makeApiCall try_catch bind lift ret text_result
         basic_call basic_file upload_call get_call request readable
         Index.upload_path post upload_form endpoint options].
  - intros _ ->. now rewrite Hdec.
  - intros _ ->. rewrite Hdec.
    destruct (is_object data && has_property "url" data) eqn:Hurl; [| reflexivity].
    apply andb_true_iff in Hurl as [Hobj _].
    assert (Hget : get data "url" = Ok (prop data "url"))
      by (apply get_has_name; now destruct data).
    rewrite Hget. reflexivity.
  - intros [b Hb]. rewrite (bytes_read _ _ _ Hb), Hb. intros ->. now rewrite Hdec.
  - intros [b Hb]. rewrite (bytes_read _ _ _ Hb), Hb. intros ->. now rewrite Hdec.
Qed.

(** X10.  The cached variant reads the fields of the answer without testing that
    it is an object: a body that decodes to null makes get_image_metadata and
    transcode_image answer with an error result, where src/index.ts shows the
    value.  The request is the only one sent and the cache is not touched. *)
Theorem cached_null_metadata_is_an_error w call st r :
  Frame.formats_answer call = true ->
  fetch w (request baseUrl apiKey (cached_call w call)) = Resolved r ->
  ok r = true ->
  JSON_parse (body r) = Ok JNull ->
  exists e,
    Cached.call_tool baseUrl apiKey JSON_parse w call st
    = (Ok (Some (error_result e)), Cached.log_call (cached_call w call) st).
Proof.
  intros Hcall Hfetch Hok Hparse.
  destruct call; try discriminate; revert Hfetch;
    cbv [Cached.call_tool Cached.get_image_metadata Cached.get_image_metadata_try
         Cached.transcode_image Cached.transcode_image_try
         Cached.buildImageMetadataResponseText Cached.makeApiCall Cached.json
         try_catch bind lift ret throw cached_call request get_call endpoint options post];
    intros ->; rewrite Hok, Hparse; cbn [negb get]; eauto.
Qed.

(** X11.  An upload that the service answers without an id or without a category
    is reported as an invalid response, with the answer quoted; the upload is
    the only request (the size cache is not read). *)
Theorem upload_without_id_is_rejected w category filename (resize : bool) st b r metadata :
  readFile w filename = Ok b ->
  fetch w (request baseUrl apiKey
             (upload_call w category filename (if resize then "true" else "false")))
  = Resolved r ->
  ok r = true ->
  JSON_parse (body r) = Ok metadata ->
  has_name metadata = true ->
  truthy (prop metadata "id") = false \/ truthy (prop metadata "category") = false ->
  Cached.call_tool baseUrl apiKey JSON_parse w
    (if resize then Cached.UploadAndResizeImage category filename
     else Cached.UploadImage category filename) st
  = (Ok (Some (error_result
                 ("Invalid response format: missing required fields. Response: "
                    ++ stringify metadata))),
     Cached.log_call
       (upload_call w category filename (if resize then "true" else "false")) st).
Proof.
  intros Hfile Hfetch Hok Hparse Hmd Hmissing.
  assert (Hup : Cached.uploadImage baseUrl apiKey JSON_parse w category filename resize st
                = (Throw ("Invalid response format: missing required fields. Response: "
                            ++ stringify metadata),
                   Cached.log_call
                     (upload_call w category filename (if resize then "true" else "false"))
                     st)).
  { revert Hfetch.
    cbv [Cached.uploadImage Cached.makeApiCall Cached.json bind lift ret throw
         upload_call request Cached.upload_path post upload_form endpoint options].
    rewrite (bytes_read _ _ _ Hfile), Hfile.
    destruct resize; intros ->; rewrite Hok, Hparse; cbn [negb];
      rewrite !(get_has_name metadata _ Hmd);
      (destruct (truthy (prop metadata "id")); cbn [rbind];
       [destruct Hmissing as [Hm | Hm]; [discriminate | rewrite Hm; reflexivity]
       | reflexivity]). }
  destruct resize;
    cbv [Cached.call_tool Cached.upload_and_resize_image Cached.upload_image];
    unfold try_catch at 1, bind at 1, bind at 1; unfold try_catch, bind at 1;
    rewrite Hup; reflexivity.
Qed.

End OtherAnswers.

(** ** The answers on examples *)

Section AnswerExamples.
Import Str Js Reading.

Local Abbreviation b := Scenario.baseUrl.
Local Abbreviation k := Scenario.apiKey.

Lemma uploaded_body_parse : Json.parse Scenario.uploaded_body = Ok Cases.uploaded_value.
Proof. vm_compute. reflexivity. Qed.

Lemma url_body_parse : Json.parse Cases.url_body = Ok Cases.url_value.
Proof. vm_compute. reflexivity. Qed.

Lemma plain_body_parse : Json.parse Cases.plain_body = Ok Cases.plain_value.
Proof. vm_compute. reflexivity. Qed.

Lemma anonymous_body_parse : Json.parse Cases.anonymous_body = Ok Cases.anonymous_value.
Proof. vm_compute. reflexivity. Qed.

Lemma null_parse : Json.parse "null" = Ok JNull.
Proof. vm_compute. reflexivity. Qed.

(** An upload through src/index.ts that the service accepts. *)
Lemma index_success_is_not_error_witness :
  readable (Cases.serving Scenario.uploaded_body 1000)
    (index_file (Index.UploadImage "avatars" "/tmp/a.png"))
  /\ exists t,
      Index.call_tool b k Json.parse (Cases.serving Scenario.uploaded_body 1000)
        (Index.UploadImage "avatars" "/tmp/a.png") []
      = (Ok (text_result t),
         ([] ++ [index_call (Cases.serving Scenario.uploaded_body 1000)
                   (Index.UploadImage "avatars" "/tmp/a.png")])%list).
Proof.
  assert (H : readable (Cases.serving Scenario.uploaded_body 1000)
                (index_file (Index.UploadImage "avatars" "/tmp/a.png")))
    by (exists "PNG"; reflexivity).
  split; [exact H |].
  exact (index_success_is_not_error b k Json.parse
           (Cases.serving Scenario.uploaded_body 1000)
           (Index.UploadImage "avatars" "/tmp/a.png") [] _ _
           H eq_refl eq_refl uploaded_body_parse eq_refl).
Defined.

(** The metadata of an image with the field resizedFiles. *)
Lemma index_metadata_shows_every_field_witness :
  is_object Cases.uploaded_value = true
  /\ exists t,
      Index.call_tool b k Json.parse (Scenario.online Scenario.uploaded_body 1000)
        (Index.GetImageMetadata "i1") []
      = (Ok (text_result t), ([] ++ [get_call ("/api/image/" ++ "i1")])%list)
      /\ Substr (stringify2 Cases.uploaded_value) t
      /\ (truthy (prop Cases.uploaded_value "id") = true ->
          Substr ("**Image ID:** " ++ to_string (prop Cases.uploaded_value "id") ++ nl) t)
      /\ (truthy (prop Cases.uploaded_value "category") = true ->
          Substr ("**Category:** " ++ to_string (prop Cases.uploaded_value "category") ++ nl)
            t)
      /\ forall key value,
           (key, value) ∈ entries Cases.uploaded_value ->
           key ∉ ["id"; "category"; "downloadedS3Path"; "originalFileUrl"] ->
           Substr ("- **" ++ key ++ ":** " ++ stringify value) t.
Proof.
  split; [reflexivity |].
  exact (index_metadata_shows_every_field b k Json.parse
           (Scenario.online Scenario.uploaded_body 1000) "i1" [] _ Cases.uploaded_value
           eq_refl eq_refl uploaded_body_parse eq_refl eq_refl).
Defined.

(** The list of the categories avatars and banners. *)
Lemma index_lists_all_categories_witness :
  Json.parse Scenario.two_categories = Ok (JArr Scenario.two_categories_value)
  /\ exists t,
      Index.call_tool b k Json.parse (Scenario.online_at 1000) Index.ListCategories []
      = (Ok (text_result t), ([] ++ [get_call "/api/category/list"])%list)
      /\ (Scenario.two_categories_value = [] ->
          Substr "No categories are currently available." t)
      /\ forall category,
           category ∈ Scenario.two_categories_value -> is_object category = true ->
           Substr ("### " ++ to_string (or_else (prop category "name") (JStr "Unknown"))
                     ++ nl) t
           /\ forall sizes size,
                prop category "sizes" = JArr sizes -> size ∈ sizes ->
                is_object size = true ->
                Substr ("- **" ++ to_string (or_else (prop size "name") (JStr "Unknown"))
                          ++ "**: "
                          ++ to_string (or_else (prop size "width") (JStr "?")) ++ times
                          ++ to_string (or_else (prop size "height") (JStr "?"))
                          ++ " pixels ("
                          ++ to_string (or_else (prop size "mimeType") (JStr "Unknown"))
                          ++ ")" ++ nl) t.
Proof.
  split; [exact two_categories_parse |].
  exact (index_lists_all_categories b k Json.parse (Scenario.online_at 1000) [] _
           Scenario.two_categories_value eq_refl eq_refl two_categories_parse eq_refl).
Defined.

(** The answer with the url https://x/y, in the three variants. *)
Lemma resized_url_is_shown_witness :
  lookup_field "url" [("url", JStr "https://x/y"); ("expires", JNum 60)]
  = Some (JStr "https://x/y")
  /\ fst (Basic.call_tool b k Json.parse (Scenario.online Cases.url_body 1000)
            (Basic.GetResizedImage "i1" "thumb") [])
     = Ok (text_result "https://x/y")
  /\ (exists t,
        fst (Index.call_tool b k Json.parse (Scenario.online Cases.url_body 1000)
               (Index.GetResizedImage "i1" "thumb") [])
        = Ok (text_result t)
        /\ Substr ("**Download URL:** " ++ "https://x/y" ++ nl) t)
  /\ (exists t,
        fst (Cached.call_tool b k Json.parse (Scenario.online Cases.url_body 1000)
               (Cached.GetResizedImage "i1" "thumb") Cached.initial)
        = Ok (Some (text_result t))
        /\ Substr ("**Download URL:** " ++ "https://x/y" ++ nl) t).
Proof.
  split; [reflexivity |].
  exact (resized_url_is_shown b k Json.parse (Scenario.online Cases.url_body 1000)
           "i1" "thumb" _ _ "https://x/y" [] Cached.initial
           eq_refl eq_refl url_body_parse eq_refl ltac:(discriminate)).
Defined.

(** An answer without a url, in the three variants. *)
Lemma resized_without_url_witness :
  truthy (prop Cases.plain_value "url") = false
  /\ fst (Basic.call_tool b k Json.parse (Scenario.online Cases.plain_body 1000)
            (Basic.GetResizedImage "i1" "thumb") [])
     = Ok (text_result (stringify2 Cases.plain_value))
  /\ fst (Cached.call_tool b k Json.parse (Scenario.online Cases.plain_body 1000)
            (Cached.GetResizedImage "i1" "thumb") Cached.initial)
     = Ok (Some (text_result (stringify2 Cases.plain_value)))
  /\ fst (Index.call_tool b k Json.parse (Scenario.online Cases.plain_body 1000)
            (Index.GetResizedImage "i1" "thumb") [])
     = Ok (text_result
             ("## Resized Image URL" ++ nl ++ nl
                ++ "**Warning:** No URL found in the response." ++ nl ++ nl
                ++ "**Image UUID:** " ++ "i1" ++ nl
                ++ "**Requested Size:** " ++ "thumb" ++ nl ++ nl
                ++ "**Response Data:**" ++ nl
                ++ Index.fence ++ "json" ++ nl ++ stringify2 Cases.plain_value ++ nl
                ++ Index.fence)).
Proof.
  split; [reflexivity |].
  exact (resized_without_url b k Json.parse (Scenario.online Cases.plain_body 1000)
           "i1" "thumb" _ _ [] Cached.initial
           eq_refl eq_refl plain_body_parse eq_refl).
Defined.

Lemma numeric_url_parse : Json.parse Cases.numeric_url_body = Ok Cases.numeric_url_value.
Proof. vm_compute. reflexivity. Qed.

(** An answer whose url is the number 5: the block carries the number. *)
Lemma basic_success_is_not_error_witness :
  readable (Scenario.online Cases.numeric_url_body 1000)
    (basic_file (Basic.GetResizedImage "i1" "thumb"))
  /\ Basic.call_tool b k Json.parse (Scenario.online Cases.numeric_url_body 1000)
       (Basic.GetResizedImage "i1" "thumb") []
     = (Ok {| content := [ {| type := "text"; text := JNum 5 |} ]; isError := false |},
        ([] ++ [basic_call (Scenario.online Cases.numeric_url_body 1000)
                  (Basic.GetResizedImage "i1" "thumb")])%list).
Proof.
  split; [exact I |].
  exact (basic_success_is_not_error b k Json.parse
           (Scenario.online Cases.numeric_url_body 1000)
           (Basic.GetResizedImage "i1" "thumb") [] _ Cases.numeric_url_value
           I eq_refl eq_refl numeric_url_parse).
Defined.

(** A metadata request answered with the body null. *)
Lemma cached_null_metadata_is_an_error_witness :
  Json.parse "null" = Ok JNull
  /\ exists e,
      Cached.call_tool b k Json.parse (Scenario.online "null" 1000)
        (Cached.GetImageMetadata "i1") Cached.initial
      = (Ok (Some (error_result e)),
         Cached.log_call
           (cached_call (Scenario.online "null" 1000) (Cached.GetImageMetadata "i1"))
           Cached.initial).
Proof.
  split; [exact null_parse |].
  exact (cached_null_metadata_is_an_error b k Json.parse (Scenario.online "null" 1000)
           (Cached.GetImageMetadata "i1") Cached.initial _
           eq_refl eq_refl eq_refl null_parse).
Defined.

(** An upload answered with a category and no id. *)
Lemma upload_without_id_is_rejected_witness :
  truthy (prop Cases.anonymous_value "id") = false
  /\ Cached.call_tool b k Json.parse (Cases.serving Cases.anonymous_body 1000)
       (Cached.UploadImage "avatars" "/tmp/a.png") Cached.initial
     = (Ok (Some (error_result
                    ("Invalid response format: missing required fields. Response: "
                       ++ stringify Cases.anonymous_value))),
        Cached.log_call
          (upload_call (Cases.serving Cases.anonymous_body 1000)
             "avatars" "/tmp/a.png" "false") Cached.initial).
Proof.
  split; [reflexivity |].
  exact (upload_without_id_is_rejected b k Json.parse
           (Cases.serving Cases.anonymous_body 1000) "avatars" "/tmp/a.png" false
           Cached.initial "PNG" _ Cases.anonymous_value
           eq_refl eq_refl eq_refl anonymous_body_parse eq_refl (or_introl eq_refl)).
Defined.

End AnswerExamples.

(** * The start of the server and the names of the uploads *)

Section Names.
Import Str Js Reading Startup.

Lemma includes_slash_cons c s :
  includes "/" (String c s) = Ascii.eqb "/"%char c || includes "/" s.
Proof.
  unfold includes. cbn [split_at starts_with String.length drop].
  destruct (Ascii.eqb "/"%char c); cbn [andb orb]; [reflexivity |].
  now destruct (split_at "/" s) as [[a b] |].
Qed.

Lemma last_segment_no_slash s : includes "/" (last_segment s) = false.
Proof.
  induction s as [| c s IH]; [reflexivity |].
  cbn [last_segment]. destruct (includes "/" s) eqn:Hs; [exact IH |].
  destruct (Ascii.eqb c "/"%char) eqn:Hc; [exact Hs |].
  rewrite includes_slash_cons, Hs. rewrite Ascii.eqb_sym, Hc. reflexivity.
Qed.

Lemma last_segment_whole s : includes "/" s = false -> last_segment s = s.
Proof.
  destruct s as [| c s]; [reflexivity |].
  rewrite includes_slash_cons. intros H. apply orb_false_iff in H as [Hc Hs].
  cbn [last_segment]. rewrite Hs. now rewrite Ascii.eqb_sym, Hc.
Qed.

Lemma last_segment_after dir name :
  includes "/" name = false -> last_segment (dir ++ "/" ++ name) = name.
Proof.
  intros Hname. change ("/" ++ name) with (String "/" name).
  induction dir as [| c dir IH].
  - cbn [String.append last_segment]. rewrite Hname. reflexivity.
  - change (String c dir ++ String "/" name) with (String c (dir ++ String "/" name)).
    cbn [last_segment].
    assert (Hin : includes "/" (dir ++ String "/" name) = true)
      by (apply includes_true; now exists dir, name).
    now rewrite Hin.
Qed.

(** X21.  The name an upload is sent under is the part of the file name after its
    last slash, the whole of it when there is none, and the word image when
    that part is empty; it is never empty and holds no slash. *)
Theorem upload_name_is_last_segment dir name :
  includes "/" name = false ->
  upload_name (dir ++ "/" ++ name) = (if String.eqb name EmptyString then "image" else name)
  /\ upload_name name = (if String.eqb name EmptyString then "image" else name)
  /\ forall filename,
       upload_name filename <> EmptyString /\ includes "/" (upload_name filename) = false.
Proof.
  intros Hname. unfold upload_name.
  rewrite (last_segment_after dir name Hname), (last_segment_whole name Hname).
  split; [now destruct name |]. split; [now destruct name |].
  intros filename. pose proof (last_segment_no_slash filename) as Hno.
  destruct (last_segment filename); [split; [discriminate | reflexivity] |].
  split; [discriminate | exact Hno].
Qed.

Lemma skip_ws_blank s : blank s = true -> skip_ws s = EmptyString.
Proof.
  induction s as [| c s IH]; [reflexivity |].
  cbn [blank skip_ws]. intros H. apply andb_true_iff in H as [Hc Hs].
  rewrite Hc. now apply IH.
Qed.

Lemma skip_ws_not_blank s :
  blank s = false -> exists c r, skip_ws s = String c r /\ is_ws c = false.
Proof.
  induction s as [| c s IH]; [discriminate |].
  cbn [blank skip_ws]. destruct (is_ws c) eqn:Hc; cbn [andb]; [exact IH |].
  intros _. now exists c, s.
Qed.

Lemma trim_end_head c r : is_ws c = false -> exists r', trim_end (String c r) = String c r'.
Proof.
  intros Hc. cbn [trim_end]. rewrite Hc. destruct (trim_end r); eauto.
Qed.

Lemma trim_blank s : trim s = EmptyString <-> blank s = true.
Proof.
  unfold trim. split.
  - intros Htrim. destruct (blank s) eqn:Hb; [reflexivity |].
    destruct (skip_ws_not_blank s Hb) as (c & r & Hskip & Hc).
    rewrite Hskip in Htrim. destruct (trim_end_head c r Hc) as [r' Hr'].
    rewrite Hr' in Htrim. discriminate.
  - intros Hb. now rewrite (skip_ws_blank s Hb).
Qed.

(** X22.  The server refuses to start, with status 1, exactly when the base URL
    is empty or made of white space only; any other text is accepted as it
    is. *)
Theorem main_exits_on_blank_url baseUrl :
  (main baseUrl = Exits 1 <-> blank baseUrl = true)
  /\ (main baseUrl = Serves <-> blank baseUrl = false).
Proof.
  unfold main. destruct (String.eqb (trim baseUrl) EmptyString) eqn:Heq.
  - apply String.eqb_eq, trim_blank in Heq. rewrite Heq.
    split; split; try reflexivity; discriminate.
  - assert (Hb : blank baseUrl = false).
    { destruct (blank baseUrl) eqn:Hb; [| reflexivity].
      apply trim_blank in Hb. apply String.eqb_neq in Heq. contradiction. }
    rewrite Hb. split; split; try reflexivity; discriminate.
Qed.

Lemma trim_end_last s c : last_unit (trim_end s) = Some c -> is_ws c = false.
Proof.
  revert c. induction s as [| d s IH]; intros c; [discriminate |].
  cbn [trim_end]. destruct (trim_end s) as [| e r] eqn:Hr.
  - destruct (is_ws d) eqn:Hd; [discriminate |]. cbn [last_unit]. now intros [= <-].
  - intros H. apply IH. exact H.
Qed.

Lemma skip_ws_first s c : first_unit (skip_ws s) = Some c -> is_ws c = false.
Proof.
  induction s as [| d s IH]; [discriminate |].
  cbn [skip_ws]. destruct (is_ws d) eqn:Hd; [exact IH |].
  cbn [first_unit]. now intros [= <-].
Qed.

Lemma trim_end_first s c :
  first_unit (trim_end s) = Some c -> first_unit s = Some c.
Proof.
  destruct s as [| d s]; [discriminate |].
  cbn [trim_end]. destruct (trim_end s); [destruct (is_ws d); [discriminate |] |];
    cbn [first_unit]; now intros [= <-].
Qed.

(** X20.  The message taken from an HTML error page starts and ends with a code
    unit that is not white space, if it has any. *)
Theorem html_error_is_trimmed inner :
  (forall c, first_unit (Index.htmlError inner) = Some c -> is_ws c = false)
  /\ (forall c, last_unit (Index.htmlError inner) = Some c -> is_ws c = false).
Proof.
  unfold Index.htmlError, trim. split; intros c H.
  - apply trim_end_first in H. now apply skip_ws_first in H.
  - now apply trim_end_last in H.
Qed.

End Names.

Section NamesExamples.
Import Str Js Reading.

(** The file /tmp/a.png. *)
Lemma upload_name_is_last_segment_witness :
  includes "/" "a.png" = false
  /\ upload_name ("/tmp" ++ "/" ++ "a.png")
     = (if String.eqb "a.png" EmptyString then "image" else "a.png")
  /\ upload_name "a.png" = (if String.eqb "a.png" EmptyString then "image" else "a.png")
  /\ forall filename,
       upload_name filename <> EmptyString /\ includes "/" (upload_name filename) = false.
Proof.
  split; [reflexivity |].
  exact (upload_name_is_last_segment "/tmp" "a.png" eq_refl).
Defined.

End NamesExamples.

(** * What the variants without a cache send and report *)

Section Requests.
Import Str Js Reading.
Variables baseUrl apiKey : string.
Variable JSON_parse : string -> Res JsValue.

(** X16.  Whatever the service answers, a tool of src/index.ts or of the first
    variant sends its own request once and nothing else; an upload tool whose
    file cannot be read sends nothing. *)
Theorem one_request_per_tool w trace :
  (forall call,
      snd (Index.call_tool baseUrl apiKey JSON_parse w call trace)
      = match index_file call with
        | Some filename =>
            match readFile w filename with
            | Ok _ => (trace ++ [index_call w call])%list
            | Throw _ => trace
            end
        | None => (trace ++ [index_call w call])%list
        end)
  /\ (forall call,
         snd (Basic.call_tool baseUrl apiKey JSON_parse w call trace)
         = match basic_file call with
           | Some filename =>
               match readFile w filename with
               | Ok _ => (trace ++ [basic_call w call])%list
               | Throw _ => trace
               end
           | None => (trace ++ [basic_call w call])%list
           end).
Proof.
  split; intros call; destruct call; cbn [index_file basic_file index_call basic_call].
  - cbv [Index.call_tool Index.get_image_metadata Index.makeApiCall
         try_catch bind lift ret get_call].
    destruct (fetch w _) as [e | r]; [reflexivity |].
    destruct (Index.normalize JSON_parse _ r) as [data | e]; [| reflexivity].
    destruct (is_object data); [| reflexivity].
    destruct (Index.metadata_text data); reflexivity.
  - cbv [Index.call_tool Index.list_categories Index.makeApiCall
         try_catch bind lift ret get_call].
    destruct (fetch w _) as [e | r]; [reflexivity |].
    destruct (Index.normalize JSON_parse _ r) as [data | e]; [| reflexivity].
    destruct (isArray data); [| reflexivity].
    destruct (Index.categories_text data); reflexivity.
  - cbv [Index.call_tool Index.get_resized_image Index.makeApiCall
         try_catch bind lift ret get_call].
    destruct (fetch w _) as [e | r]; [reflexivity |].
    destruct (Index.normalize JSON_parse _ r) as [data | e]; [| reflexivity].
    destruct (is_object data); [| reflexivity].
    destruct (Index.resized_text uuid size data); reflexivity.
  - apply index_upload_trace.
  - apply index_upload_trace.
  - cbv [Basic.call_tool Basic.get_image_metadata Basic.makeApiCall
         try_catch bind lift ret get_call].
    destruct (fetch w _) as [e | r]; [reflexivity |].
    destruct (Basic.decoded JSON_parse _ r) as [data | e]; reflexivity.
  - cbv [Basic.call_tool Basic.get_resized_image Basic.makeApiCall
         try_catch bind lift ret get_call].
    destruct (fetch w _) as [e | r]; [reflexivity |].
    destruct (Basic.decoded JSON_parse _ r) as [data | e]; [| reflexivity].
    destruct (if is_object data && has_property "url" data then _ else _); reflexivity.
  - apply basic_upload_trace.
  - apply basic_upload_trace.
Qed.

(** X19.  A failure whose content type names neither JSON nor HTML (or is absent)
    is reported by src/index.ts with the body as it came, which is the message
    the other two variants give to every failure. *)
Theorem plain_failure_keeps_body what r :
  ok r = false ->
  includes "application/json" (Index.contentType r) = false ->
  includes "text/html" (Index.contentType r) = false ->
  Index.normalize JSON_parse what r = Throw (failed what r)
  /\ Basic.decoded JSON_parse what r = Throw (failed what r).
Proof.
  intros Hok Hjson Hhtml.
  unfold Index.normalize, Index.errorMessage, Basic.decoded, failed.
  now rewrite Hok, Hjson, Hhtml.
Qed.

(** X6.  A tool of the cached variant sends at most two requests: its own (none
    when its file cannot be read), then at most one refresh of the size
    list. *)
Theorem cached_tool_requests w call st :
  exists rest,
    Cached.calls (snd (Cached.call_tool baseUrl apiKey JSON_parse w call st))
    = (Cached.calls st ++ rest)%list
    /\ (rest = [] \/ rest = [cached_call w call]
        \/ rest = [cached_call w call; size_list_call]).
Proof.
  assert (Hbuild : forall metadata label c,
            exists rest,
              Cached.calls
                (snd (Cached.buildImageMetadataResponseText baseUrl apiKey JSON_parse
                        w metadata label (Cached.log_call c st)))
              = (Cached.calls st ++ rest)%list
              /\ (rest = [] \/ rest = [c] \/ rest = [c; size_list_call])).
  { intros metadata label c.
    destruct (build_calls baseUrl apiKey JSON_parse w metadata label (Cached.log_call c st))
      as (rest & Hrest & [-> | ->]); rewrite Hrest; cbn [Cached.calls Cached.log_call];
      rewrite <- app_assoc; eexists; (split; [reflexivity |]); cbn [app]; tauto. }
  destruct call; cbn [cached_call].
  - cbv beta iota zeta delta [Cached.call_tool Cached.get_image_metadata
                               Cached.get_image_metadata_try Cached.makeApiCall
                               Cached.json try_catch bind lift ret throw].
    fold (get_call ("/api/image/" ++ imageServiceId)).
    destruct (fetch w _) as [e | r]; [eexists; split; [reflexivity |]; tauto |].
    destruct (ok r); cbn [negb]; [| eexists; split; [reflexivity |]; tauto].
    destruct (JSON_parse (body r)) as [md | e];
      [| eexists; split; [reflexivity |]; tauto].
    destruct (Hbuild md "Image Metadata" (get_call ("/api/image/" ++ imageServiceId)))
      as (rest & Hrest & Hshape).
    exists rest. split; [| exact Hshape].
    destruct (Cached.buildImageMetadataResponseText _ _ _ w md _ _) as [[t | e] st2];
      exact Hrest.
  - cbv beta iota zeta delta [Cached.call_tool Cached.transcode_image
                               Cached.transcode_image_try Cached.makeApiCall
                               Cached.json try_catch bind lift ret throw post].
    destruct (fetch w _) as [e | r]; [eexists; split; [reflexivity |]; tauto |].
    destruct (ok r); cbn [negb]; [| eexists; split; [reflexivity |]; tauto].
    destruct (JSON_parse (body r)) as [md | e];
      [| eexists; split; [reflexivity |]; tauto].
    destruct (Hbuild md "Image Transcode Result"
                {| endpoint := "/api/image/" ++ imageServiceId ++ "/transcode";
                   options := {| method := Some "POST"; form := None |} |})
      as (rest & Hrest & Hshape).
    exists rest. split; [| exact Hshape].
    destruct (Cached.buildImageMetadataResponseText _ _ _ w md _ _) as [[t | e] st2];
      exact Hrest.
  - exists [size_list_call]. split; [| right; left; reflexivity].
    cbv beta iota zeta delta [Cached.call_tool].
    pose proof (getCategories_calls baseUrl apiKey JSON_parse w st) as Hc.
    revert Hc.
    unfold Cached.list_categories, Cached.list_categories_try, try_catch, bind, lift, ret.
    destruct (Cached.getCategories baseUrl apiKey JSON_parse w st) as [[v | e] st1];
      cbn [snd]; intros Hc; [| exact Hc].
    destruct v; try exact Hc; cbn [snd];
      destruct (Cached.found_line _); try exact Hc;
      destruct (iterate _) as [[| c items'] | e]; try exact Hc;
      destruct c; try exact Hc; destruct (Cached.category_text _); exact Hc.
  - cbv beta iota zeta delta [Cached.call_tool Cached.get_resized_image
                               Cached.get_resized_image_try Cached.makeApiCall
                               Cached.json try_catch bind lift ret throw].
    fold (get_call ("/api/image/s/" ++ imageServiceId ++ "/" ++ size)).
    exists [get_call ("/api/image/s/" ++ imageServiceId ++ "/" ++ size)].
    split; [| tauto].
    destruct (fetch w _) as [e | r]; [reflexivity |].
    destruct (ok r); cbn [negb]; [| reflexivity].
    destruct (JSON_parse (body r)) as [md | e]; [| reflexivity].
    destruct (if truthy md then _ else _) as [u | e]; [| reflexivity].
    destruct (truthy u); reflexivity.
  - pose proof (upload_tool_calls baseUrl apiKey JSON_parse w category filename true
                  "Image uploaded and resized" st) as Hup.
    cbv zeta in Hup. cbv beta iota zeta delta [Cached.call_tool Cached.upload_and_resize_image].
    unfold bind at 1, ret at 1.
    destruct (readFile w filename).
    + destruct Hup as (rest & Hrest & [-> | ->]).
      * eexists. split; [| right; left; reflexivity].
        destruct (try_catch _ _ st) as [[res | e] st2]; exact Hrest.
      * eexists. split; [| right; right; reflexivity].
        destruct (try_catch _ _ st) as [[res | e] st2]; exact Hrest.
    + exists []. split; [| tauto]. rewrite app_nil_r.
      destruct (try_catch _ _ st) as [[res | e] st2]; exact Hup.
  - pose proof (upload_tool_calls baseUrl apiKey JSON_parse w category filename false
                  "Image uploaded" st) as Hup.
    cbv zeta in Hup. cbv beta iota zeta delta [Cached.call_tool Cached.upload_image].
    unfold bind at 1, ret at 1.
    destruct (readFile w filename).
    + destruct Hup as (rest & Hrest & [-> | ->]).
      * eexists. split; [| right; left; reflexivity].
        destruct (try_catch _ _ st) as [[res | e] st2]; exact Hrest.
      * eexists. split; [| right; right; reflexivity].
        destruct (try_catch _ _ st) as [[res | e] st2]; exact Hrest.
    + exists []. split; [| tauto]. rewrite app_nil_r.
      destruct (try_catch _ _ st) as [[res | e] st2]; exact Hup.
Qed.

(** X9.  The answer of list_categories in the cached variant is made from the
    first category and the number of categories.  Of two answers of the
    service that the refresh accepts (2xx, a list whose eligible categories
    hold only sizes that are not null and have a name that converts to a
    property key), that start with the same category and have the same
    length, the tool shows the same text: the categories after the first
    never appear. *)
Theorem cached_list_ignores_later_categories w w' st st' r r' first rest rest' :
  fetch w (size_list_request baseUrl apiKey) = Resolved r ->
  ok r = true ->
  JSON_parse (body r) = Ok (JArr (first :: rest)) ->
  Forall (fun s => storable s = true) (cached_sizes (first :: rest)) ->
  fetch w' (size_list_request baseUrl apiKey) = Resolved r' ->
  ok r' = true ->
  JSON_parse (body r') = Ok (JArr (first :: rest')) ->
  Forall (fun s => storable s = true) (cached_sizes (first :: rest')) ->
  List.length rest = List.length rest' ->
  fst (Cached.list_categories baseUrl apiKey JSON_parse w st)
  = fst (Cached.list_categories baseUrl apiKey JSON_parse w' st').
Proof.
  intros Hfetch Hok Hparse Hall Hfetch' Hok' Hparse' Hall' Hlen.
  pose proof (getCategories_success baseUrl apiKey JSON_parse w st r _
                Hfetch Hok Hparse Hall) as H1.
  pose proof (getCategories_success baseUrl apiKey JSON_parse w' st' r' _
                Hfetch' Hok' Hparse' Hall') as H2.
  unfold Cached.list_categories, Cached.list_categories_try, try_catch, bind, lift, ret.
  rewrite H1, H2. unfold Cached.found_line. cbn [get rbind iterate String.eqb Ascii.eqb
                                                  Bool.eqb List.length].
  rewrite Hlen.
  destruct first; try reflexivity; destruct (Cached.category_text _); reflexivity.
Qed.

End Requests.

Section RequestExamples.
Import Str Js Reading.

(** A 503 without a content type. *)
Lemma plain_failure_keeps_body_witness :
  ok (Scenario.response 503 None "busy") = false
  /\ Index.normalize Json.parse "Failed to upload image"
       (Scenario.response 503 None "busy")
     = Throw (failed "Failed to upload image" (Scenario.response 503 None "busy"))
  /\ Basic.decoded Json.parse "Failed to upload image"
       (Scenario.response 503 None "busy")
     = Throw (failed "Failed to upload image" (Scenario.response 503 None "busy")).
Proof.
  split; [reflexivity |].
  exact (plain_failure_keeps_body Json.parse "Failed to upload image"
           (Scenario.response 503 None "busy") eq_refl eq_refl eq_refl).
Defined.

Lemma avatars_then_null_parse :
  Json.parse Cases.avatars_then_null = Ok (JArr Cases.avatars_then_null_value).
Proof. vm_compute. reflexivity. Qed.

(** The category avatars followed by banners, and followed by a null. *)
Lemma cached_list_ignores_later_categories_witness :
  Forall (fun s => storable s = true) (cached_sizes Scenario.two_categories_value)
  /\ Forall (fun s => storable s = true) (cached_sizes Cases.avatars_then_null_value)
  /\ List.length [JObj [("name", JStr "banners"); ("sizes", JArr [])]] = List.length [JNull]
  /\ fst (Cached.list_categories Scenario.baseUrl Scenario.apiKey Json.parse
            (Scenario.online_at 1000) Cached.initial)
     = fst (Cached.list_categories Scenario.baseUrl Scenario.apiKey Json.parse
              (Scenario.online Cases.avatars_then_null 5000) Scenario.populated).
Proof.
  assert (H1 : Forall (fun s => storable s = true)
                 (cached_sizes Scenario.two_categories_value))
    by (repeat constructor).
  assert (H2 : Forall (fun s => storable s = true)
                 (cached_sizes Cases.avatars_then_null_value))
    by (repeat constructor).
  split; [exact H1 |]. split; [exact H2 |]. split; [reflexivity |].
  exact (cached_list_ignores_later_categories Scenario.baseUrl Scenario.apiKey Json.parse
           (Scenario.online_at 1000) (Scenario.online Cases.avatars_then_null 5000)
           Cached.initial Scenario.populated _ _
           (JObj [("name", JStr "avatars"); ("sizes", JArr [Scenario.thumb])])
           [JObj [("name", JStr "banners"); ("sizes", JArr [])]] [JNull]
           eq_refl eq_refl two_categories_parse H1
           eq_refl eq_refl avatars_then_null_parse H2 eq_refl).
Defined.

End RequestExamples.

(** * list_categories in the variant with the cache *)

Section CachedListingFacts.
Import Str Js Reading Cached.
Variables baseUrl apiKey : string.
Variable JSON_parse : string -> Res JsValue.

Local Abbreviation getCategories := (Cached.getCategories baseUrl apiKey JSON_parse).
Local Abbreviation list_categories := (Cached.list_categories baseUrl apiKey JSON_parse).

Lemma category_size_line_eq size :
  has_name size = true ->
  category_size_line size
  = Ok ("- **" ++ to_string (or_else (prop size "name") (JStr "Unknown")) ++ "**: "
          ++ to_string (or_else (prop size "width") (JStr "?")) ++ times
          ++ to_string (or_else (prop size "height") (JStr "?")) ++ " pixels ("
          ++ to_string (or_else (prop size "mimeType") (JStr "Unknown")) ++ ")" ++ nl).
Proof.
  intros Hsize. unfold category_size_line. now rewrite !(get_has_name size _ Hsize).
Qed.

Lemma rfold_category_lines sizes : forall acc,
  Forall (fun size => has_name size = true) sizes ->
  exists lines,
    rfold sizes acc (fun acc size => l <~ category_size_line size ;; Ok (acc ++ l))
    = Ok lines.
Proof.
  induction sizes as [| size sizes IH]; intros acc Hall; cbn [rfold]; [eauto |].
  inversion Hall as [| ? ? Hsize Hrest]; subst.
  rewrite (category_size_line_eq size Hsize). cbn [rbind]. now apply IH.
Qed.

(** X23.  When the service answers with a list that the refresh accepts and
    whose first category is an object with a list of sizes none of which is
    null, list_categories answers with a text that holds the number of
    categories, the name of that category and one line for each of its sizes
    (or the words No sizes configured for an empty list); the state is the one
    the refresh leaves.  No object of the first category has a property named
    toString. *)
Theorem cached_list_shows_first_category w st r first rest sizes :
  fetch w (size_list_request baseUrl apiKey) = Resolved r ->
  ok r = true ->
  JSON_parse (body r) = Ok (JArr (first :: rest)) ->
  Forall (fun s => storable s = true) (cached_sizes (first :: rest)) ->
  has_name first = true ->
  Shape.plain first = true ->
  prop first "sizes" = JArr sizes ->
  Forall (fun size => has_name size = true) sizes ->
  exists t,
    list_categories w st = (Ok (Some (text_result t)), snd (getCategories w st))
    /\ Substr ("Found " ++ pretty (Z.of_nat (List.length (first :: rest))) ++ " categor") t
    /\ Substr ("### " ++ to_string (or_else (prop first "name") (JStr "Unknown")) ++ nl) t
    /\ (sizes = [] -> Substr "No sizes configured for this category." t)
    /\ forall size,
         size ∈ sizes ->
         Substr ("- **" ++ to_string (or_else (prop size "name") (JStr "Unknown")) ++ "**: "
                   ++ to_string (or_else (prop size "width") (JStr "?")) ++ times
                   ++ to_string (or_else (prop size "height") (JStr "?")) ++ " pixels ("
                   ++ to_string (or_else (prop size "mimeType") (JStr "Unknown"))
                   ++ ")" ++ nl) t.
Proof.
  intros Hfetch Hok Hparse Hstorable Hfirst _ Hsizes Hall.
  pose proof (getCategories_success baseUrl apiKey JSON_parse w st r _
                Hfetch Hok Hparse Hstorable) as Hget.
  rewrite Hget. cbn [snd].
  set (s1 := store_cache _ _ _) in *.
  assert (Hnull : first <> JNull) by (intros ->; discriminate).
  pose proof (list_categories_first_only baseUrl apiKey JSON_parse w st s1
                (first :: rest) Hget) as Hlist. cbv iota in Hlist.
  assert (Htext : exists body,
            category_text first
            = Ok (("### " ++ to_string (or_else (prop first "name") (JStr "Unknown"))
                     ++ nl ++ nl) ++ body)
            /\ (sizes = [] -> Substr "No sizes configured for this category." body)
            /\ forall size line,
                 size ∈ sizes -> category_size_line size = Ok line -> Substr line body).
  { unfold category_text. rewrite !(get_has_name first _ Hfirst). cbn [rbind].
    rewrite Hsizes. cbn [get rbind String.eqb Ascii.eqb Bool.eqb iterate gt_zero].
    destruct sizes as [| size0 sizes0] eqn:Hs.
    - cbn [List.length]. change (0 <? Z.of_nat 0) with false. cbv iota.
      eexists. split; [reflexivity |]. split.
      + intros _. exists EmptyString. eexists. reflexivity.
      + intros size line Hin. inversion Hin.
    - rewrite <- Hs in *.
      assert (Hgt : (0 <? Z.of_nat (List.length sizes)) = true).
      { rewrite Hs. reflexivity. }
      rewrite Hgt.
      destruct (rfold_category_lines sizes EmptyString Hall) as (lines & Hlines).
      rewrite Hlines. cbn [rbind].
      eexists. split; [reflexivity |]. split.
      + intros Hempty. rewrite Hempty in Hs. discriminate.
      + intros size line Hin Hline.
        destruct (rfold_append category_size_line sizes _ _ Hlines)
          as (added & -> & Hadded).
        apply Substr_append_l, Substr_append_l, Substr_append_l, Substr_append_r,
          Substr_append_l.
        eapply Hadded; eassumption. }
  destruct Htext as (body & Htext & Hnone & Hlines).
  eexists. split; [exact (Hlist _ Hnull Htext) |].
  split; [| split; [| split]].
  - exists EmptyString. eexists. cbn [String.append]. now rewrite !append_assoc.
  - apply Substr_append_l, Substr_append_l, Substr_append_l, Substr_append_l,
      Substr_append_l, Substr_append_l, Substr_append_l.
    exists EmptyString. eexists. cbn [String.append]. now rewrite !append_assoc.
  - intros Hempty.
    apply Substr_append_l, Substr_append_l, Substr_append_l, Substr_append_l,
      Substr_append_l, Substr_append_l, Substr_append_l, Substr_append_l.
    now apply Hnone.
  - intros size Hin.
    apply Substr_append_l, Substr_append_l, Substr_append_l, Substr_append_l,
      Substr_append_l, Substr_append_l, Substr_append_l, Substr_append_l.
    apply (Hlines size); [exact Hin |].
    apply category_size_line_eq. rewrite Forall_forall in Hall. now apply Hall.
Qed.

(** X24.  When the service answers with a list that the refresh accepts and
    whose first category has no sizes (the property absent or null), the
    refresh passes over that category and fills the cache from the others,
    and list_categories then answers with an error result: the tool reads the
    length of the sizes without the test the refresh makes. *)
Theorem cached_list_fails_without_sizes w st r first rest :
  fetch w (size_list_request baseUrl apiKey) = Resolved r ->
  ok r = true ->
  JSON_parse (body r) = Ok (JArr (first :: rest)) ->
  Forall (fun s => storable s = true) (cached_sizes (first :: rest)) ->
  has_name first = true ->
  has_name (prop first "sizes") = false ->
  eligible first = false
  /\ getCategories w st
     = (Ok (JArr (first :: rest)),
        store_cache (foldl store ∅ (cached_sizes rest)) (t_update w)
          (log_call size_list_call st))
  /\ exists e,
      list_categories w st = (Ok (Some (error_result e)), snd (getCategories w st)).
Proof.
  intros Hfetch Hok Hparse Hstorable Hfirst Hsizes.
  assert (Hel : eligible first = false).
  { unfold eligible. destruct (prop first "sizes"); try discriminate;
      cbn [isArray]; now rewrite andb_false_r. }
  pose proof (getCategories_success baseUrl apiKey JSON_parse w st r _
                Hfetch Hok Hparse Hstorable) as Hget.
  assert (Hrest : cached_sizes (first :: rest) = cached_sizes rest).
  { rewrite cached_sizes_cons. unfold cached_sizes at 1. cbn [flat_map].
    now rewrite Hel. }
  rewrite Hrest in Hget.
  split; [exact Hel |]. split; [exact Hget |].
  unfold Cached.list_categories, Cached.list_categories_try, try_catch, bind, lift, ret.
  rewrite Hget. unfold found_line. cbn [get rbind iterate String.eqb Ascii.eqb Bool.eqb snd].
  assert (Hthrow : exists e, category_text first = Throw e).
  { unfold category_text. rewrite !(get_has_name first _ Hfirst). cbn [rbind].
    destruct (prop first "sizes"); try discriminate; cbn [get rbind]; eauto. }
  destruct Hthrow as [e He].
  destruct first; try discriminate; rewrite He; cbn [rbind]; eauto.
Qed.

End CachedListingFacts.

Section CachedListingExamples.
Import Str Js Reading Cached.

(** The list of avatars and banners. *)
Lemma cached_list_shows_first_category_witness :
  Forall (fun s => storable s = true) (cached_sizes Scenario.two_categories_value)
  /\ prop (JObj [("name", JStr "avatars"); ("sizes", JArr [Scenario.thumb])]) "sizes"
     = JArr [Scenario.thumb]
  /\ exists t,
      Cached.list_categories Scenario.baseUrl Scenario.apiKey Json.parse
        (Scenario.online_at 1000) initial
      = (Ok (Some (text_result t)),
         snd (Cached.getCategories Scenario.baseUrl Scenario.apiKey Json.parse
                (Scenario.online_at 1000) initial))
      /\ Substr ("Found " ++ pretty (Z.of_nat (List.length Scenario.two_categories_value))
                   ++ " categor") t
      /\ Substr ("### "
                   ++ to_string
                        (or_else
                           (prop (JObj [("name", JStr "avatars");
                                        ("sizes", JArr [Scenario.thumb])]) "name")
                           (JStr "Unknown")) ++ nl) t
      /\ ([Scenario.thumb] = [] -> Substr "No sizes configured for this category." t)
      /\ forall size,
           size ∈ [Scenario.thumb] ->
           Substr ("- **" ++ to_string (or_else (prop size "name") (JStr "Unknown")) ++ "**: "
                     ++ to_string (or_else (prop size "width") (JStr "?")) ++ times
                     ++ to_string (or_else (prop size "height") (JStr "?")) ++ " pixels ("
                     ++ to_string (or_else (prop size "mimeType") (JStr "Unknown"))
                     ++ ")" ++ nl) t.
Proof.
  assert (H : Forall (fun s => storable s = true)
                (cached_sizes Scenario.two_categories_value))
    by (repeat constructor).
  split; [exact H |]. split; [reflexivity |].
  exact (cached_list_shows_first_category Scenario.baseUrl Scenario.apiKey Json.parse
           (Scenario.online_at 1000) initial _
           (JObj [("name", JStr "avatars"); ("sizes", JArr [Scenario.thumb])])
           [JObj [("name", JStr "banners"); ("sizes", JArr [])]] [Scenario.thumb]
           eq_refl eq_refl two_categories_parse H
           eq_refl eq_refl eq_refl ltac:(repeat constructor)).
Defined.

Lemma bare_category_parse :
  Json.parse Cases.bare_category = Ok (JArr Cases.bare_category_value).
Proof. vm_compute. reflexivity. Qed.

(** A list whose only category has a name and nothing else. *)
Lemma cached_list_fails_without_sizes_witness :
  has_name (prop (JObj [("name", JStr "avatars")]) "sizes") = false
  /\ eligible (JObj [("name", JStr "avatars")]) = false
  /\ Cached.getCategories Scenario.baseUrl Scenario.apiKey Json.parse
       (Scenario.online Cases.bare_category 1000) initial
     = (Ok (JArr [JObj [("name", JStr "avatars")]]),
        store_cache (foldl store ∅ (cached_sizes []))
          (t_update (Scenario.online Cases.bare_category 1000))
          (log_call size_list_call initial))
  /\ exists e,
      Cached.list_categories Scenario.baseUrl Scenario.apiKey Json.parse
        (Scenario.online Cases.bare_category 1000) initial
      = (Ok (Some (error_result e)),
         snd (Cached.getCategories Scenario.baseUrl Scenario.apiKey Json.parse
                (Scenario.online Cases.bare_category 1000) initial)).
Proof.
  split; [reflexivity |].
  exact (cached_list_fails_without_sizes Scenario.baseUrl Scenario.apiKey Json.parse
           (Scenario.online Cases.bare_category 1000) initial _
           (JObj [("name", JStr "avatars")]) []
           eq_refl eq_refl bare_category_parse ltac:(constructor) eq_refl eq_refl).
Defined.

End CachedListingExamples.
